(** * VideoSync: the session director and the streaming node

    A shallow embedding of the two Go servers of the repository: the
    director ([createSession], [validateSession], [getLeastLoadedServer],
    [registerStreamingServer], [handleHeartbeat]) and the streaming node
    ([handleWebSocket], [handleClientMessage], [cleanupClient],
    [handleSessionUpdate], [broadcastState], [writePump]).

    Redis is a key/value map with a list of published messages and a
    schedule of outages; [encoding/json], the wall clock and the UUID
    generator are inputs of the handlers. The node is a transition
    system whose events are the calls of its handlers, each handler
    running to its end before the next event: the interleaving of
    goroutines inside a handler is not represented. *)

From Stdlib Require Import ZArith QArith Lqa Ascii String Floats.
From stdpp Require Import gmap strings list pretty.

#[local] Set Warnings "-clear-no-such-hyp".

(** ** Values of the Go runtime *)
Module Go.

(** A handler either runs to completion or panics. *)
Inductive outcome (A : Type) : Type :=
| Done (a : A)
| Panic (why : string).
Arguments Done {A} a.
Arguments Panic {A} why.

Definition bind {A B : Type} (m : outcome A) (k : A → outcome B) : outcome B :=
  match m with
  | Done a => k a
  | Panic why => Panic why
  end.

(** [int] and [int64] are 64-bit two's complement. *)
Definition wrap64 (z : Z) : Z := ((z + 2 ^ 63) `mod` 2 ^ 64 - 2 ^ 63)%Z.

(** A [time.Time] is kept as nanoseconds since the epoch. *)
Definition Unix (t : Z) : Z := (t `div` 1000000000)%Z.
Definition UnixMilli (t : Z) : Z := (t `div` 1000000)%Z.

(** [float64], with finite values kept as exact rationals: rounding to
    53 bits and the sign of zero are not represented. *)
Inductive float64 : Type :=
| Fin (q : Q)
| PInf
| NInf
| NaN.

Definition float64_of_int (z : Z) : float64 := Fin (inject_Z z).

Definition fdiv (x y : float64) : float64 :=
  match x, y with
  | NaN, _ | _, NaN => NaN
  | Fin a, Fin b =>
      if Qeq_bool b 0 then
        (if Qeq_bool a 0 then NaN
         else if Qle_bool 0 a then PInf else NInf)
      else Fin (a / b)
  | Fin _, (PInf | NInf) => Fin 0
  | PInf, Fin b => if Qle_bool 0 b then PInf else NInf
  | NInf, Fin b => if Qle_bool 0 b then NInf else PInf
  | (PInf | NInf), (PInf | NInf) => NaN
  end.

(** [x < y] on [float64]: false as soon as one side is NaN. *)
Definition flt (x y : float64) : bool :=
  match x, y with
  | NaN, _ | _, NaN => false
  | Fin a, Fin b => negb (Qle_bool b a)
  | NInf, (Fin _ | PInf) => true
  | Fin _, PInf => true
  | _, _ => false
  end.

(** Whether [a / b < c / d] for integers converted to [float64]: as
    IEEE 754 binary64 arithmetic decides it (the kernel's floats, for
    operands from 0 to 2^63 - 1), and as [fdiv] and [flt] decide it. *)
Definition ieee_of_int (z : Z) : float := PrimFloat.of_uint63 (Uint63.of_Z z).

Definition ieee_quotient_lt (a b c d : Z) : bool :=
  PrimFloat.ltb (PrimFloat.div (ieee_of_int a) (ieee_of_int b))
                (PrimFloat.div (ieee_of_int c) (ieee_of_int d)).

Definition quotient_lt (a b c d : Z) : bool :=
  flt (fdiv (float64_of_int a) (float64_of_int b))
      (fdiv (float64_of_int c) (float64_of_int d)).

(** Whether the two agree on all loads below [n] and all capacities from
    1 to [n]. *)
Definition quotients_agree (n : nat) : bool :=
  let loads := Z.of_nat <$> seq 0 n in
  let capacities := Z.of_nat <$> seq 1 n in
  forallb (λ a, forallb (λ b, forallb (λ c, forallb (λ d,
    Bool.eqb (ieee_quotient_lt a b c d) (quotient_lt a b c d))
    capacities) loads) capacities) loads.

(** [s[n:]] *)
Fixpoint sdrop (n : nat) (s : string) : string :=
  match n, s with
  | O, _ => s
  | S n', String _ s' => sdrop n' s'
  | S _, EmptyString => EmptyString
  end.

(** [s[:n]] *)
Fixpoint stake (n : nat) (s : string) : string :=
  match n, s with
  | O, _ => EmptyString
  | S n', String a s' => String a (stake n' s')
  | S _, EmptyString => EmptyString
  end.

Definition slice_from (n : nat) (s : string) : outcome string :=
  if decide (n ≤ String.length s) then Done (sdrop n s)
  else Panic "slice bounds out of range".

(** [s[:len(s)-k]] *)
Definition slice_upto_len_minus (k : nat) (s : string) : outcome string :=
  if decide (k ≤ String.length s) then Done (stake (String.length s - k) s)
  else Panic "slice bounds out of range".

(** [strings.Split(s, sep)[0]] for a one-byte separator. *)
Fixpoint before_sep (sep : ascii) (s : string) : string :=
  match s with
  | EmptyString => EmptyString
  | String a s' => if Ascii.eqb a sep then EmptyString else String a (before_sep sep s')
  end.

Definition HasPrefix (s p : string) : bool := String.prefix p s.

(** [strings.TrimSuffix(s, suffix)] *)
Definition TrimSuffix (s suffix : string) : string :=
  let n := String.length s in
  let k := String.length suffix in
  if decide (k ≤ n) then
    (if String.eqb (sdrop (n - k) s) suffix then stake (n - k) s else s)
  else s.

(** A [json.RawMessage]: the bytes of an encoded value. *)
Inductive RawMessage : Type := Raw (bytes : string).

Definition raw_bytes (m : RawMessage) : string := let 'Raw b := m in b.

(** What the code hands to [json.Marshal]: structs and map literals are
    objects, with their members in the order of the source. *)
#[local] Unset Elimination Schemes.
Inductive jvalue : Type :=
| JBool (b : bool)
| JInt (z : Z)
| JFloat (f : float64)
| JString (s : string)
| JRaw (m : RawMessage)
| JObject (fields : list (string * jvalue)).
#[local] Set Elimination Schemes.

(** [json.Marshal] and [json.Unmarshal] into a zero value of type [A];
    [None] is a non-nil error. *)
Class Marshal := marshal : jvalue → option string.
Class Unmarshal (A : Type) := unmarshal : string → option A.

End Go.
Import Go.

(** ** The shared keyspace *)
Module Redis.

Record entry : Type := Entry { value : string; ttl : Z }.

(** [outages]: whether each of the coming commands fails with a
    connection error, in order; an exhausted schedule means a healthy
    server. *)
Record t : Type := Db {
  kv : gmap string entry;
  published : list (string * string);
  outages : list bool
}.

Definition empty : t := Db ∅ [] [].

Inductive reply (A : Type) : Type :=
| Ok (a : A)
| Nil
| Err.
Arguments Ok {A} a.
Arguments Nil {A}.
Arguments Err {A}.

(** The next command's fate. *)
Definition attempt (db : t) : bool * t :=
  match outages db with
  | [] => (false, db)
  | down :: rest => (down, Db (kv db) (published db) rest)
  end.

(** Whether the [i]-th coming command fails. *)
Definition down (i : nat) (db : t) : bool := default false (outages db !! i).

(** Each command returns [true] in its first component on error. *)
Definition SetEX (key val : string) (expiry : Z) (db : t) : bool * t :=
  let '(down, db) := attempt db in
  if down then (true, db)
  else (false, Db (<[key := Entry val expiry]> (kv db)) (published db) (outages db)).

Definition Get (key : string) (db : t) : reply string * t :=
  let '(down, db) := attempt db in
  if down then (Err, db)
  else match kv db !! key with
       | Some e => (Ok (value e), db)
       | None => (Nil, db)
       end.

Definition Exists (key : string) (db : t) : option Z * t :=
  let '(down, db) := attempt db in
  if down then (None, db)
  else (Some (match kv db !! key with Some _ => 1 | None => 0 end)%Z, db).

Definition Publish (channel payload : string) (db : t) : bool * t :=
  let '(down, db) := attempt db in
  if down then (true, db)
  else (false, Db (kv db) (published db ++ [(channel, payload)]) (outages db)).

(** The value of a reply as the Go code sees it: [""] unless the
    command succeeded. *)
Definition val_of (r : reply string) : string :=
  match r with
  | Ok v => v
  | _ => ""
  end.

End Redis.

(** ** The session director *)
Module Director.

Record SessionState : Type := {
  Paused : bool;
  CurrentTime : float64;
  PlaybackRate : float64;
  Timestamp : Z
}.

Record StreamingServer : Type := {
  ID : string;
  URL : string;
  Capacity : Z;
  CurrentLoad : Z;
  Status : string;
  LastPing : Z;
  Registered : Z
}.

Definition encode_SessionState (s : SessionState) : jvalue :=
  JObject [("paused", JBool (Paused s));
           ("currentTime", JFloat (CurrentTime s));
           ("playbackRate", JFloat (PlaybackRate s));
           ("timestamp", JInt (Timestamp s))].

(** [sessionExpiry], in seconds. *)
Definition sessionExpiry : Z := 86400.

(** The director's state is the keyspace and the registry
    [streamingServers]; each handler takes the part it uses. Log output
    is not represented. *)

Inductive Body : Type :=
| NoBody
| Text (s : string)
| JSON (v : jvalue).

Record Response : Type := { status : Z; body : Body }.

Definition http_Error (msg : string) (code : Z) : Response :=
  {| status := code; body := Text msg |}.
Definition respondJSON (code : Z) (data : jvalue) : Response :=
  {| status := code; body := JSON data |}.
Definition respondError (code : Z) (msg : string) : Response :=
  {| status := code; body := JSON (JObject [("error", JString msg)]) |}.

Section handlers.
Context `{!Marshal, !Unmarshal StreamingServer}.

(** [sessionKey] and [hostToken] are the two values drawn from
    [uuid.New()], [now] the reading of [time.Now()]. *)
Definition createSession (sessionKey hostToken : string) (now : Z)
    (db : Redis.t) : Response * Redis.t :=
  let '(err, db) := Redis.SetEX ("session:" +:+ sessionKey) "active" sessionExpiry db in
  if err then (http_Error "Failed to create session" 500, db) else
  let '(err, db) :=
    Redis.SetEX ("session:" +:+ sessionKey +:+ ":host") hostToken sessionExpiry db in
  if err then (http_Error "Failed to create session" 500, db) else
  let initialState :=
    {| Paused := true; CurrentTime := Fin 0; PlaybackRate := Fin 1;
       Timestamp := Unix now |} in
  let stateJson := default "" (marshal (encode_SessionState initialState)) in
  let '(err, db) :=
    Redis.SetEX ("session:" +:+ sessionKey +:+ ":state") stateJson sessionExpiry db in
  if err then (http_Error "Failed to create session" 500, db) else
  ({| status := 200;
      body := JSON (JObject [("sessionKey", JString sessionKey);
                             ("hostToken", JString hostToken)]) |}, db).


(** The loop of [getLeastLoadedServer]; [visit] is the order in which
    [range] yields the entries of the registry. *)
Fixpoint least_loaded_loop (visit : list StreamingServer)
    (bestServer : option StreamingServer) (lowestLoad : float64)
    : option StreamingServer :=
  match visit with
  | [] => bestServer
  | server :: rest =>
      if negb (String.eqb (Status server) "active") then
        least_loaded_loop rest bestServer lowestLoad
      else
        let load := fdiv (float64_of_int (CurrentLoad server))
                         (float64_of_int (Capacity server)) in
        if flt load lowestLoad then least_loaded_loop rest (Some server) load
        else least_loaded_loop rest bestServer lowestLoad
  end.

Definition getLeastLoadedServer (visit : list StreamingServer)
    : option StreamingServer :=
  least_loaded_loop visit None (Fin 1).

(** A validate request: the URL path and the [hostToken] query
    parameter ([""] when absent). *)
Record ValidateRequest : Type := { path : string; hostToken_param : string }.

(** The path that the route [/api/sessions/{key}/validate] matches for
    the session key [k]. *)
Definition validate_path (k : string) : string := "/api/sessions/" +:+ k +:+ "/validate".

Definition validateSession (visit : list StreamingServer) (r : ValidateRequest)
    (db : Redis.t) : outcome (Response * Redis.t) :=
  bind (slice_from (String.length "/api/sessions/") (path r)) (λ sessionKey,
  let sessionKey := before_sep "?" sessionKey in
  bind (slice_upto_len_minus (String.length "/validate") sessionKey) (λ sessionKey,
  let hostToken := hostToken_param r in
  let '(exists_, db) := Redis.Exists ("session:" +:+ sessionKey) db in
  match exists_ with
  | None => Done (respondError 500 "internal_server_error", db)
  | Some 0%Z =>
      Done (respondJSON 200 (JObject [("valid", JBool false);
                                      ("error", JString "session_not_found")]), db)
  | Some _ =>
      let '(isHost, db) :=
        if negb (String.eqb hostToken "") then
          let '(storedToken, db) := Redis.Get ("session:" +:+ sessionKey +:+ ":host") db in
          match storedToken with
          | Redis.Ok storedToken => (String.eqb storedToken hostToken, db)
          | _ => (false, db)
          end
        else (false, db) in
      match getLeastLoadedServer visit with
      | None => Done (respondError 503 "no_streaming_servers_available", db)
      | Some server =>
          let serverURL := URL server in
          let serverURL :=
            if negb (HasPrefix serverURL "http") then "http://" +:+ serverURL
            else serverURL in
          let serverURL := TrimSuffix serverURL "/" in
          Done (respondJSON 200 (JObject [("valid", JBool true);
                                          ("isHost", JBool isHost);
                                          ("streaming_url", JString serverURL)]), db)
      end
  end)).

(** The URL that [validateSession] returns for the selected node. *)
Definition streaming_url (server : StreamingServer) : string :=
  TrimSuffix (if negb (HasPrefix (URL server) "http") then "http://" +:+ URL server
              else URL server) "/".

(** The recovery middleware of [main]. *)
Definition recovered {S : Type} (s : S) (h : outcome (Response * S)) : Response * S :=
  match h with
  | Done r => r
  | Panic _ => (http_Error "Internal Server Error" 500, s)
  end.

Definition with_registration (server : StreamingServer) (registered lastPing : Z)
    : StreamingServer :=
  {| ID := ID server; URL := URL server; Capacity := Capacity server;
     CurrentLoad := CurrentLoad server; Status := Status server;
     LastPing := lastPing; Registered := registered |}.

(** [now1] and [now2] are the two readings of [time.Now()]. *)
Definition registerStreamingServer (reqBody : string) (now1 now2 : Z)
    (servers : gmap string StreamingServer)
    : Response * gmap string StreamingServer :=
  match unmarshal reqBody with
  | None => (http_Error "Invalid request" 400, servers)
  | Some server =>
      let server := with_registration server now1 (Unix now2) in
      ({| status := 200; body := NoBody |}, <[ID server := server]> servers)
  end.

Definition with_heartbeat (existingServer : StreamingServer) (load lastPing : Z)
    : StreamingServer :=
  {| ID := ID existingServer; URL := URL existingServer;
     Capacity := Capacity existingServer;
     CurrentLoad := load; Status := "active";
     LastPing := lastPing; Registered := Registered existingServer |}.

Definition handleHeartbeat (reqBody : string) (now : Z)
    (servers : gmap string StreamingServer)
    : Response * gmap string StreamingServer :=
  match unmarshal reqBody with
  | None => (http_Error "Invalid request" 400, servers)
  | Some server =>
      let servers :=
        match servers !! ID server with
        | Some existingServer =>
            <[ID server := with_heartbeat existingServer (CurrentLoad server) (Unix now)]>
              servers
        | None => servers
        end in
      ({| status := 200; body := NoBody |}, servers)
  end.

(** One tick of [cleanupInactiveServers]: the entries deleted while the
    map is ranged over are those whose last ping is more than 60 s old. *)
Definition cleanupInactiveServers_tick (now : Z)
    (servers : gmap string StreamingServer) : gmap string StreamingServer :=
  filter (λ kv, ¬ (wrap64 (Unix now - LastPing kv.2) > 60)%Z) servers.

(** The operations on the registry, each one under [serverMutex]. *)
Inductive registry_event : Type :=
| Register (reqBody : string) (now1 now2 : Z)
| Heartbeat (reqBody : string) (now : Z)
| Cleanup (now : Z).

Definition registry_step (e : registry_event) (servers : gmap string StreamingServer)
    : gmap string StreamingServer :=
  match e with
  | Register reqBody now1 now2 => (registerStreamingServer reqBody now1 now2 servers).2
  | Heartbeat reqBody now => (handleHeartbeat reqBody now servers).2
  | Cleanup now => cleanupInactiveServers_tick now servers
  end.

Definition registry_run (evs : list registry_event)
    (servers : gmap string StreamingServer) : gmap string StreamingServer :=
  foldl (λ servers e, registry_step e servers) servers evs.

End handlers.

End Director.

(** ** The streaming node *)
Module Node.

Record RedisState : Type := {
  Paused : bool;
  CurrentTime : float64;
  PlaybackRate : float64;
  Timestamp : Z
}.

Record VideoManifest : Type := {
  ChunkDuration : Z;
  ChunkCount : Z;
  VideoDuration : float64;
  VideoFileType : string
}.

(** The anonymous struct that [handleClientMessage] decodes into. *)
Record ClientMsg : Type := { Type_ : string; State : RawMessage }.

(** A [chan []byte]: the buffered values, whether it was closed, and
    the values of the senders parked on it. *)
Record Chan : Type := { buf : list string; closed : bool; sendq : list string }.

(** [make(chan []byte, 256)] *)
Definition send_capacity : nat := 256.
Definition make_chan : Chan := {| buf := []; closed := false; sendq := [] |}.

Inductive Frame : Type :=
| TextMessage (data : string)
| CloseMessage.

(** A [*websocket.Conn]: the frames written so far and whether [Close]
    was called. *)
Record Socket : Type := { wire : list Frame; hung_up : bool }.

Record ClientConnection : Type := {
  conn : option Socket;
  sessionID : string;
  isHost : bool;
  send : Chan
}.

(** The globals of the node. [heap] holds the allocated
    [ClientConnection] structs by address, [clients] the slices of such
    addresses; [loops] and [pumps] are the connections whose read loop
    and [writePump] goroutine are running; [subscriptions] lists the
    channel of every [PubSub] created so far, the global [pubsub] being
    the last one; [ticks] counts the calls of [time.Now]. Log lines are
    kept without their [err] operand. *)
Record world : Type := {
  clients : gmap string (list nat);
  client_lock : gset string;
  numClients : Z;
  heap : gmap nat ClientConnection;
  loops : gset nat;
  pumps : gset nat;
  subscriptions : list string;
  rdb : Redis.t;
  logs : list string;
  ticks : nat
}.

Definition init : world :=
  {| clients := ∅; client_lock := ∅; numClients := 0; heap := ∅; loops := ∅;
     pumps := ∅; subscriptions := []; rdb := Redis.empty; logs := []; ticks := 0 |}.

Definition with_clients (x : gmap string (list nat)) (σ : world) : world :=
  {| clients := x; client_lock := client_lock σ; numClients := numClients σ;
     heap := heap σ; loops := loops σ; pumps := pumps σ;
     subscriptions := subscriptions σ; rdb := rdb σ; logs := logs σ; ticks := ticks σ |}.
Definition with_client_lock (x : gset string) (σ : world) : world :=
  {| clients := clients σ; client_lock := x; numClients := numClients σ;
     heap := heap σ; loops := loops σ; pumps := pumps σ;
     subscriptions := subscriptions σ; rdb := rdb σ; logs := logs σ; ticks := ticks σ |}.
Definition with_numClients (x : Z) (σ : world) : world :=
  {| clients := clients σ; client_lock := client_lock σ; numClients := x;
     heap := heap σ; loops := loops σ; pumps := pumps σ;
     subscriptions := subscriptions σ; rdb := rdb σ; logs := logs σ; ticks := ticks σ |}.
Definition with_heap (x : gmap nat ClientConnection) (σ : world) : world :=
  {| clients := clients σ; client_lock := client_lock σ; numClients := numClients σ;
     heap := x; loops := loops σ; pumps := pumps σ;
     subscriptions := subscriptions σ; rdb := rdb σ; logs := logs σ; ticks := ticks σ |}.
Definition with_loops (x : gset nat) (σ : world) : world :=
  {| clients := clients σ; client_lock := client_lock σ; numClients := numClients σ;
     heap := heap σ; loops := x; pumps := pumps σ;
     subscriptions := subscriptions σ; rdb := rdb σ; logs := logs σ; ticks := ticks σ |}.
Definition with_pumps (x : gset nat) (σ : world) : world :=
  {| clients := clients σ; client_lock := client_lock σ; numClients := numClients σ;
     heap := heap σ; loops := loops σ; pumps := x;
     subscriptions := subscriptions σ; rdb := rdb σ; logs := logs σ; ticks := ticks σ |}.
Definition with_subscriptions (x : list string) (σ : world) : world :=
  {| clients := clients σ; client_lock := client_lock σ; numClients := numClients σ;
     heap := heap σ; loops := loops σ; pumps := pumps σ;
     subscriptions := x; rdb := rdb σ; logs := logs σ; ticks := ticks σ |}.
Definition with_rdb (x : Redis.t) (σ : world) : world :=
  {| clients := clients σ; client_lock := client_lock σ; numClients := numClients σ;
     heap := heap σ; loops := loops σ; pumps := pumps σ;
     subscriptions := subscriptions σ; rdb := x; logs := logs σ; ticks := ticks σ |}.
Definition with_logs (x : list string) (σ : world) : world :=
  {| clients := clients σ; client_lock := client_lock σ; numClients := numClients σ;
     heap := heap σ; loops := loops σ; pumps := pumps σ;
     subscriptions := subscriptions σ; rdb := rdb σ; logs := x; ticks := ticks σ |}.
Definition with_ticks (x : nat) (σ : world) : world :=
  {| clients := clients σ; client_lock := client_lock σ; numClients := numClients σ;
     heap := heap σ; loops := loops σ; pumps := pumps σ;
     subscriptions := subscriptions σ; rdb := rdb σ; logs := logs σ; ticks := x |}.

Definition log (line : string) (σ : world) : world := with_logs (logs σ ++ [line]) σ.

Definition with_send (ch : Chan) (c : ClientConnection) : ClientConnection :=
  {| conn := conn c; sessionID := sessionID c; isHost := isHost c; send := ch |}.
Definition with_conn (s : option Socket) (c : ClientConnection) : ClientConnection :=
  {| conn := s; sessionID := sessionID c; isHost := isHost c; send := send c |}.

(** [REDIS_MSG_EXPIRY], in seconds. *)
Definition REDIS_MSG_EXPIRY : Z := 86400.

Definition state_key (sessionID : string) : string := "session:" +:+ sessionID +:+ ":state".
Definition topic (sessionID : string) : string := "session-updates:" +:+ sessionID.

(** The map literal marshalled for an outbound [stateUpdate]. *)
Definition stateUpdate (state : RawMessage) (servertime : Z) : jvalue :=
  JObject [("type", JString "stateUpdate");
           ("state", JRaw state);
           ("servertime", JInt servertime)].

Definition encode_VideoManifest (v : VideoManifest) : jvalue :=
  JObject [("chunkDuration", JInt (ChunkDuration v));
           ("chunkCount", JInt (ChunkCount v));
           ("videoDuration", JFloat (VideoDuration v));
           ("videoFileType", JString (VideoFileType v))].

(** ** Channel and socket operations *)

Inductive sent : Type :=
| Sent (ch : Chan)
| WouldBlock
| SendOnClosed.

(** One attempt to put [msg] into the buffer. *)
Definition offer (msg : string) (ch : Chan) : sent :=
  if closed ch then SendOnClosed
  else if decide (length (buf ch) < send_capacity)
       then Sent {| buf := buf ch ++ [msg]; closed := false; sendq := sendq ch |}
       else WouldBlock.

(** [ch <- msg]: the sender parks when the buffer is full. *)
Definition blocking_send (msg : string) (ch : Chan) : outcome Chan :=
  match offer msg ch with
  | Sent ch' => Done ch'
  | WouldBlock => Done {| buf := buf ch; closed := closed ch; sendq := sendq ch ++ [msg] |}
  | SendOnClosed => Panic "send on closed channel"
  end.

(** [close(ch)] *)
Definition close (ch : Chan) : outcome Chan :=
  if closed ch then Panic "close of closed channel"
  else match sendq ch with
       | [] => Done {| buf := buf ch; closed := true; sendq := [] |}
       | _ :: _ => Panic "send on closed channel"
       end.

(** [conn.WriteMessage]: [true] on error. [netOk] tells whether the
    network accepts the frame. *)
Definition WriteMessage (netOk : bool) (f : Frame) (s : Socket) : bool * Socket :=
  if hung_up s || negb netOk then (true, s)
  else (false, {| wire := wire s ++ [f]; hung_up := false |}).

Definition Close (s : Socket) : Socket := {| wire := wire s; hung_up := true |}.

Section handlers.
Context `{!Marshal, !Unmarshal ClientMsg, !Unmarshal RedisState, !Unmarshal RawMessage}.
(** [wall k] is what the [k]-th call of [time.Now] returns. *)
Variable wall : nat → Z.

(** [time.Now().UnixMilli()] *)
Definition now_UnixMilli (σ : world) : Z * world :=
  (UnixMilli (wall (ticks σ)), with_ticks (S (ticks σ)) σ).

Definition publishStateUpdate (sessionID : string) (state : RawMessage) (σ : world)
    : world :=
  match marshal (JRaw state) with
  | None => log "Error marshaling state for publish:" σ
  | Some payload =>
      let '(err, db) := Redis.Publish (topic sessionID) payload (rdb σ) in
      let σ := with_rdb db σ in
      if err then log "Error publishing state update:" σ else σ
  end.

(** [subscribeToSessionUpdates]: a new [PubSub] replaces the global
    one and a receiving goroutine is started for it. *)
Definition subscribeToSessionUpdates (sessionID : string) (σ : world) : world :=
  with_subscriptions (subscriptions σ ++ [topic sessionID]) σ.

Definition ensure_lock (sessionID : string) (σ : world) : world :=
  if decide (sessionID ∈ client_lock σ) then σ
  else with_client_lock ({[sessionID]} ∪ client_lock σ) σ.

(** The line logged when a message is dropped. *)
Definition drop_line (sessionID : string) : string :=
  "Dropping message to client in session " +:+ sessionID +:+ " (send buffer full)".

(** The [select] with a [default] branch around [client.send <- payload]. *)
Definition try_send (sessionID : string) (client : nat) (c : ClientConnection)
    (payload : string) (σ : world) : outcome world :=
  match offer payload (send c) with
  | Sent ch => Done (with_heap (<[client := with_send ch c]> (heap σ)) σ)
  | WouldBlock =>
      Done (log (drop_line sessionID) σ)
  | SendOnClosed => Panic "send on closed channel"
  end.

(** The inner loop of [broadcastState]. *)
Fixpoint broadcast_inner (sessionID payload : string) (clientsToSend : list nat)
    (σ : world) : outcome world :=
  match clientsToSend with
  | [] => Done σ
  | client :: rest =>
      match heap σ !! client with
      | None => broadcast_inner sessionID payload rest σ
      | Some c =>
          match conn c with
          | None => broadcast_inner sessionID payload rest σ
          | Some _ =>
              bind (try_send sessionID client c payload σ)
                   (broadcast_inner sessionID payload rest)
          end
      end
  end.

(** The outer loop of [broadcastState]; [clientsToSend] is the whole
    snapshot, [todo] what the outer [range] has still to visit. *)
Fixpoint broadcast_outer (sessionID : string) (state : RawMessage)
    (clientsToSend todo : list nat) (σ : world) : outcome world :=
  match todo with
  | [] => Done σ
  | client :: rest =>
      match heap σ !! client with
      | None => broadcast_outer sessionID state clientsToSend rest σ
      | Some c =>
          match conn c with
          | None => broadcast_outer sessionID state clientsToSend rest σ
          | Some _ =>
              let '(servertime, σ) := now_UnixMilli σ in
              match marshal (stateUpdate state servertime) with
              | None => Done (log "Error marshaling broadcast state:" σ)
              | Some payload =>
                  bind (broadcast_inner sessionID payload clientsToSend σ)
                       (broadcast_outer sessionID state clientsToSend rest)
              end
          end
      end
  end.

Definition broadcastState (sessionID : string) (state : RawMessage) (σ : world)
    : outcome world :=
  let σ := ensure_lock sessionID σ in
  match clients σ !! sessionID with
  | None | Some [] => Done σ
  | Some sessionClients =>
      let clientsToSend := sessionClients in
      broadcast_outer sessionID state clientsToSend clientsToSend σ
  end.

Definition handleSessionUpdate (channel payload : string) (σ : world) : outcome world :=
  bind (slice_from (String.length "session-updates:") channel) (λ sessionID,
  let σ := log ("Received update for session " +:+ sessionID +:+ ": " +:+ payload) σ in
  match unmarshal payload with
  | None => Done (log "Error unmarshaling state:" σ)
  | Some state => broadcastState sessionID state σ
  end).

(** The first index of [client] in the slice. *)
Fixpoint index_of (client : nat) (sessionClients : list nat) : option nat :=
  match sessionClients with
  | [] => None
  | c :: rest => if decide (c = client) then Some 0 else S <$> index_of client rest
  end.

Definition cleanupClient (client : nat) (σ : world) : outcome world :=
  match heap σ !! client with
  | None => Done σ
  | Some c =>
      if String.eqb (sessionID c) "" then Done σ else
      bind (close (send c)) (λ ch,
      let c := with_send ch c in
      let σ := with_heap (<[client := c]> (heap σ)) σ in
      let σ := ensure_lock (sessionID c) σ in
      match clients σ !! sessionID c with
      | None | Some [] => Done σ
      | Some sessionClients =>
          let σ :=
            match index_of client sessionClients with
            | Some i =>
                let σ :=
                  with_heap (<[client := with_conn (Close <$> conn c) c]> (heap σ)) σ in
                with_clients (<[sessionID c :=
                                  take i sessionClients ++ drop (S i) sessionClients]>
                                (clients σ)) σ
            | None => σ
            end in
          Done (with_numClients (wrap64 (numClients σ - 1)) σ)
      end)
  end.

Definition handleClientMessage (client : nat) (message : string) (σ : world)
    : outcome world :=
  match heap σ !! client with
  | None => Panic "nil pointer dereference"
  | Some c =>
      match unmarshal message with
      | None => Done (log "Error unmarshaling message:" σ)
      | Some msg =>
          if String.eqb (Type_ msg) "stateUpdate" then
            if isHost c then
              let '(val, db) := Redis.Get (state_key (sessionID c)) (rdb σ) in
              let σ := with_rdb db σ in
              let σ :=
                match val with
                | Redis.Nil => log ("Invalid Session key " +:+ sessionID c) σ
                | Redis.Err => log "Error Synchronizing" σ
                | Redis.Ok _ => σ
                end in
              match unmarshal (Redis.val_of val) with
              | None => Done (log "Error unmarshaling state from Redis:" σ)
              | Some stateFromRedis =>
                  match unmarshal (raw_bytes (State msg)) with
                  | None => Done (log "Error unmarshaling state from message:" σ)
                  | Some stateFromMsg =>
                      if decide (Timestamp stateFromMsg > Timestamp stateFromRedis)%Z then
                        let stateJson := default "" (marshal (JRaw (State msg))) in
                        let '(err, db) :=
                          Redis.SetEX (state_key (sessionID c)) stateJson
                                      REDIS_MSG_EXPIRY (rdb σ) in
                        let σ := with_rdb db σ in
                        let σ := if err then log "Error updating state in Redis:" σ
                                 else σ in
                        Done (publishStateUpdate (sessionID c) (State msg) σ)
                      else Done σ
                  end
              end
            else Done σ
          else if String.eqb (Type_ msg) "videoMetadata" then
            let videoMetadata :=
              {| ChunkDuration := 5; ChunkCount := 10; VideoDuration := Fin 117;
                 VideoFileType := "mp4" |} in
            match marshal (JObject [("type", JString "videoMetadata");
                                    ("state", encode_VideoManifest videoMetadata)]) with
            | None => Done (log "Error marshaling video metadata:" σ)
            | Some payload =>
                bind (blocking_send payload (send c)) (λ ch,
                Done (with_heap (<[client := with_send ch c]> (heap σ)) σ))
            end
          else if String.eqb (Type_ msg) "heartbeat" then
            match conn c with
            | None => Panic "nil pointer dereference"
            | Some s =>
                match marshal (JObject [("type", JString "heartbeatAck")]) with
                | None => Done σ
                | Some data =>
                    let '(_, s) := WriteMessage true (TextMessage data) s in
                    Done (with_heap (<[client := with_conn (Some s) c]> (heap σ)) σ)
                end
            end
          else Done σ
      end
  end.

(** [handleWebSocket] up to the point where its read loop starts.
    [isHostParam] is the [isHost] query parameter, [upgrade] whether
    [upgrader.Upgrade] succeeds. *)
Definition handleWebSocket (sessionID isHostParam : string) (upgrade : bool)
    (σ : world) : outcome world :=
  if String.eqb sessionID "" then Done σ else
  if negb upgrade then Done (log "Error upgrading connection:" σ) else
  let isHost := String.eqb isHostParam "true" in
  let client := fresh (dom (heap σ)) in
  let c := {| conn := Some {| wire := []; hung_up := false |};
              sessionID := sessionID; isHost := isHost; send := make_chan |} in
  let σ := with_heap (<[client := c]> (heap σ)) σ in
  let σ := with_pumps ({[client]} ∪ pumps σ) σ in
  let σ := ensure_lock sessionID σ in
  let σ := with_clients (<[sessionID := default [] (clients σ !! sessionID) ++ [client]]>
                           (clients σ)) σ in
  let σ := with_numClients (wrap64 (numClients σ + 1)) σ in
  let σ := subscribeToSessionUpdates sessionID σ in
  if negb isHost then
    match conn c with
    | None => Done (with_loops ({[client]} ∪ loops σ) σ)
    | Some _ =>
        let '(val, db) := Redis.Get (state_key sessionID) (rdb σ) in
        let σ := with_rdb db σ in
        let σ :=
          match val with
          | Redis.Nil => log ("Invalid Session key " +:+ sessionID) σ
          | Redis.Err => log "Error Synchronizing" σ
          | Redis.Ok _ => σ
          end in
        match unmarshal (Redis.val_of val) with
        | None => cleanupClient client (log "Error unmarshaling state:" σ)
        | Some state =>
            let '(servertime, σ) := now_UnixMilli σ in
            match marshal (stateUpdate state servertime) with
            | None => cleanupClient client (log "Error marshaling state:" σ)
            | Some payload =>
                bind (try_send sessionID client c payload σ) (λ σ,
                Done (with_loops ({[client]} ∪ loops σ) σ))
            end
        end
    end
  else Done (with_loops ({[client]} ∪ loops σ) σ).

(** One iteration of [writePump]. *)
Definition writePump (client : nat) (netOk : bool) (σ : world) : outcome world :=
  match heap σ !! client with
  | None => Panic "nil pointer dereference"
  | Some c =>
      match buf (send c) with
      | msg :: queued =>
          let ch :=
            match sendq (send c) with
            | [] => {| buf := queued; closed := closed (send c); sendq := [] |}
            | parked :: others =>
                {| buf := queued ++ [parked]; closed := closed (send c);
                   sendq := others |}
            end in
          match conn c with
          | None => Panic "nil pointer dereference"
          | Some s =>
              let '(err, s) := WriteMessage netOk (TextMessage msg) s in
              let σ := with_heap (<[client := with_conn (Some s) (with_send ch c)]>
                                    (heap σ)) σ in
              if err then Done (with_pumps (pumps σ ∖ {[client]}) (log "writePump error:" σ))
              else Done σ
          end
      | [] =>
          if closed (send c) then
            match conn c with
            | None => Panic "nil pointer dereference"
            | Some s =>
                let '(_, s) := WriteMessage netOk CloseMessage s in
                let σ := with_heap (<[client := with_conn (Some s) c]> (heap σ)) σ in
                Done (with_pumps (pumps σ ∖ {[client]}) σ)
            end
          else Done σ
      end
  end.

(** The texts of the [n] messages that one call of [broadcastState]
    marshals for the state [state] when the clock has been read [t0]
    times before. *)
Definition payloads (state : RawMessage) (t0 n : nat) : list string :=
  (λ j, default "" (marshal (stateUpdate state (UnixMilli (wall (t0 + j)))))) <$> seq 0 n.

(** ** The node as a transition system *)

Inductive event : Type :=
| Connect (sessionID isHostParam : string) (upgrade : bool)
| Message (client : nat) (message : string)
| ReadError (client : nat)
| TopicMessage (channel payload : string)
| PumpStep (client : nat) (netOk : bool).

(** Whether the read loop of [client] is running and not parked on a
    full queue. *)
Definition reading (client : nat) (σ : world) : bool :=
  bool_decide (client ∈ loops σ) &&
  match heap σ !! client with
  | Some c => bool_decide (sendq (send c) = [])
  | None => true
  end.

(** An event that the node cannot see in [σ] leaves it as it is. *)
Definition step (e : event) (σ : world) : outcome world :=
  match e with
  | Connect sessionID isHostParam upgrade =>
      handleWebSocket sessionID isHostParam upgrade σ
  | Message client message =>
      if reading client σ then handleClientMessage client message σ else Done σ
  | ReadError client =>
      if reading client σ then
        cleanupClient client
          (with_loops (loops σ ∖ {[client]}) (log "Error reading message:" σ))
      else Done σ
  | TopicMessage channel payload =>
      if bool_decide (channel ∈ subscriptions σ) then handleSessionUpdate channel payload σ
      else Done σ
  | PumpStep client netOk =>
      if bool_decide (client ∈ pumps σ) then writePump client netOk σ else Done σ
  end.

Fixpoint run (evs : list event) (σ : world) : outcome world :=
  match evs with
  | [] => Done σ
  | e :: rest => bind (step e σ) (run rest)
  end.

End handlers.

(** ** What the node reports about itself *)

(** [serverID] and [serverURL] once [main] has settled them. *)
Record Config : Type := { serverID : string; serverURL : string }.

Definition capacity : Z := 100.

(** The node's [StreamingServer] value; the struct has no field tags. *)
Definition descriptor (cfg : Config) (currentLoad lastPing : Z) : jvalue :=
  JObject [("ID", JString (serverID cfg));
           ("URL", JString (serverURL cfg));
           ("Capacity", JInt capacity);
           ("CurrentLoad", JInt currentLoad);
           ("Status", JString "active");
           ("LastPing", JInt lastPing)].

(** [handleStatus]: the status code and the value passed to
    [respondJSON]. *)
Definition handleStatus (cfg : Config) (now : Z) (σ : world) : Z * jvalue :=
  (200%Z, JObject [("id", JString (serverID cfg));
                   ("url", JString (serverURL cfg));
                   ("capacity", JInt capacity);
                   ("currentLoad", JInt (numClients σ));
                   ("status", JString "active");
                   ("lastPing", JInt (Unix now))]).

(** ** Measures and invariants of the node *)

(** The number of connections in all session buckets. *)
Definition total_clients (σ : world) : nat :=
  map_fold (λ _ sessionClients n, length sessionClients + n) 0 (clients σ).

(** The subscriptions that an event adds. *)
Definition subscribed_by (e : event) : list string :=
  match e with
  | Connect sessionID _ upgrade =>
      if String.eqb sessionID "" then [] else if upgrade then [topic sessionID] else []
  | _ => []
  end.

(** A channel after the messages [msgs] were offered to it one after the
    other, and how many of them found the buffer full. *)
Fixpoint offered (msgs : list string) (ch : Chan) : Chan :=
  match msgs with
  | [] => ch
  | m :: rest =>
      match offer m ch with
      | Sent ch' => offered rest ch'
      | _ => offered rest ch
      end
  end.

Fixpoint refused (msgs : list string) (ch : Chan) : nat :=
  match msgs with
  | [] => 0
  | m :: rest =>
      match offer m ch with
      | Sent ch' => refused rest ch'
      | _ => S (refused rest ch)
      end
  end.

(** Whether [client] is allocated and has a socket: the entries of a
    snapshot that [broadcastState] does not skip. *)
Definition has_socket (σ : world) (client : nat) : bool :=
  match heap σ !! client with
  | Some c => bool_decide (is_Some (conn c))
  | None => false
  end.

(** A connection after [broadcastState] offered it the messages [msgs]:
    one without a socket is skipped. *)
Definition served (msgs : list string) (c : ClientConnection) : ClientConnection :=
  match conn c with
  | Some _ => with_send (offered msgs (send c)) c
  | None => c
  end.

(** How many of the messages [msgs] the queue of [client] refuses. *)
Definition refused_by (σ : world) (msgs : list string) (client : nat) : nat :=
  match heap σ !! client with
  | Some c => match conn c with Some _ => refused msgs (send c) | None => 0 end
  | None => 0
  end.

(** The channels of the connections of a list are open. *)
Definition all_open (l : list nat) (σ : world) : Prop :=
  ∀ p c, p ∈ l → heap σ !! p = Some c → closed (send c) = false.

(** The node when it starts, over the keyspace [db]. *)
Definition boot (db : Redis.t) : world := with_rdb db init.

(** Two versions of a connection that differ at most in what is queued
    and what was written. *)
Definition alike (c c' : ClientConnection) : Prop :=
  sessionID c' = sessionID c ∧ isHost c' = isHost c ∧
  closed (send c') = closed (send c) ∧ (is_Some (conn c') ↔ is_Some (conn c)).

Definition same_shape (h h' : gmap nat ClientConnection) : Prop :=
  ∀ p, match h !! p, h' !! p with
       | Some c, Some c' => alike c c'
       | None, None => True
       | _, _ => False
       end.

(** [σ'] differs from [σ] in no bucket, read loop, subscription or
    counter, and has no more pumps. *)
Definition frame_only (σ σ' : world) : Prop :=
  clients σ' = clients σ ∧ loops σ' = loops σ ∧ pumps σ' ⊆ pumps σ ∧
  subscriptions σ' = subscriptions σ ∧ numClients σ' = numClients σ ∧
  same_shape (heap σ) (heap σ').

(** [σ'] holds every session bucket, session lock, connection and
    subscription that [σ] holds. *)
Definition keeps_all (σ σ' : world) : Prop :=
  dom (clients σ) ⊆ dom (clients σ') ∧ client_lock σ ⊆ client_lock σ' ∧
  dom (heap σ) ⊆ dom (heap σ') ∧ subscriptions σ `prefix_of` subscriptions σ'.

(** The invariant of the node between two events: the buckets hold,
    without repetition, exactly the connections whose read loop runs,
    each under its own session and with an open queue and a socket. *)
Record wf (σ : world) : Prop := {
  wf_bucket : ∀ sid l p, clients σ !! sid = Some l → p ∈ l →
    p ∈ loops σ ∧ ∃ c, heap σ !! p = Some c ∧ sessionID c = sid;
  wf_nodup : ∀ sid l, clients σ !! sid = Some l → NoDup l;
  wf_loop : ∀ p, p ∈ loops σ →
    ∃ c l, heap σ !! p = Some c ∧ sessionID c ≠ "" ∧ closed (send c) = false ∧
           is_Some (conn c) ∧ clients σ !! sessionID c = Some l ∧ p ∈ l;
  wf_pump : ∀ p, p ∈ pumps σ → ∃ c, heap σ !! p = Some c ∧ is_Some (conn c);
  wf_subs : ∀ ch, ch ∈ subscriptions σ → ∃ sid, ch = topic sid;
  wf_count : total_clients σ = size (loops σ)
}.

(** What the handlers rely on from [encoding/json]: marshalling a
    [RawMessage] that decodes as a state gives a text that decodes to the
    same state; a text accepted as a [RawMessage] can be marshalled again,
    alone and inside a [stateUpdate]. *)
Class Codec : Type := {
  codec_marshal :: Marshal;
  codec_ClientMsg :: Unmarshal ClientMsg;
  codec_RedisState :: Unmarshal RedisState;
  codec_RawMessage :: Unmarshal RawMessage;
  marshal_raw_decodes : ∀ (m : RawMessage) (s : RedisState),
    unmarshal (raw_bytes m) = Some s →
    ∃ c, marshal (JRaw m) = Some c ∧ unmarshal c = Some s;
  unmarshal_raw_valid : ∀ (payload : string) (m : RawMessage),
    unmarshal payload = Some m → is_Some (marshal (JRaw m));
  marshal_stateUpdate : ∀ (m : RawMessage) (servertime : Z),
    is_Some (marshal (JRaw m)) → is_Some (marshal (stateUpdate m servertime))
}.

End Node.

(** ** The node and the director together *)
Module Cluster.

Section cluster.
Context `{!Marshal, !Unmarshal Director.StreamingServer}.


(** One tick of [sendHeartbeats]; [now'] is the clock of the
    director. *)
Definition sendHeartbeats_tick (cfg : Node.Config) (now : Z) (up : bool) (now' : Z)
    (σ : Node.world) (servers : gmap string Director.StreamingServer)
    : Node.world * gmap string Director.StreamingServer :=
  match marshal (Node.descriptor cfg (Node.numClients σ) (Unix now)) with
  | None => (Node.log "Error marshaling heartbeat data:" σ, servers)
  | Some jsonData =>
      if negb up then (Node.log "Error sending heartbeat:" σ, servers)
      else (σ, (Director.handleHeartbeat jsonData now' servers).2)
  end.

End cluster.

End Cluster.

(** ** A codec for compact JSON

    An implementation of [Marshal] and [Unmarshal] for the fragment of
    JSON that the two servers exchange: objects, strings without escapes,
    integer literals, booleans and [null], written without white space.
    Texts outside the fragment are rejected. *)
Module MiniJson.

#[local] Unset Elimination Schemes.
Inductive tree : Type :=
| TNull
| TBool (b : bool)
| TInt (z : Z)
| TStr (s : string)
| TObj (fields : list (string * tree)).
#[local] Set Elimination Schemes.

(** The double quote. *)
Definition dq : ascii := ascii_of_nat 34.

Definition is_digit (a : ascii) : bool :=
  let n := nat_of_ascii a in bool_decide (48 ≤ n ≤ 57).

Definition digit_value (a : ascii) : Z := Z.of_nat (nat_of_ascii a - 48).

(** The digits at the head of [s], as a number, with their count. *)
Fixpoint read_digits (acc : Z) (count : nat) (s : string) : Z * nat * string :=
  match s with
  | String a s' =>
      if is_digit a then read_digits (10 * acc + digit_value a) (S count) s'
      else (acc, count, s)
  | EmptyString => (acc, count, s)
  end.

Definition read_nat (s : string) : option (Z * string) :=
  match s with
  | String "0" s' =>
      match s' with
      | String a _ => if is_digit a then None else Some (0%Z, s')
      | EmptyString => Some (0%Z, s')
      end
  | _ =>
      let '(z, count, rest) := read_digits 0 0 s in
      if decide (count = 0) then None else Some (z, rest)
  end.

Definition read_int (s : string) : option (Z * string) :=
  match s with
  | String "-" s' => (λ '(z, rest), ((- z)%Z, rest)) <$> read_nat s'
  | _ => read_nat s
  end.

Definition plain (a : ascii) : bool :=
  let n := nat_of_ascii a in
  bool_decide (32 ≤ n < 127) &&
  negb (bool_decide (n = 34 ∨ n = 92 ∨ n = 60 ∨ n = 62 ∨ n = 38)).

(** The characters up to the closing quote. *)
Fixpoint read_string (s : string) : option (string * string) :=
  match s with
  | EmptyString => None
  | String a s' =>
      if Ascii.eqb a dq then Some (EmptyString, s')
      else if plain a then (λ '(str, rest), (String a str, rest)) <$> read_string s'
      else None
  end.

(** [members = false] reads one value; [members = true] reads the
    members of an object up to its closing brace and returns the
    object. *)
Fixpoint read (fuel : nat) (members : bool) (s : string) : option (tree * string) :=
  match fuel with
  | O => None
  | S fuel =>
      match s with
      | EmptyString => None
      | String a s' =>
          if members then
            if Ascii.eqb a dq then
              match read_string s' with
              | Some (key, String ":" s'') =>
                  match read fuel false s'' with
                  | Some (v, String "," rest) =>
                      match read fuel true rest with
                      | Some (TObj more, rest') => Some (TObj ((key, v) :: more), rest')
                      | _ => None
                      end
                  | Some (v, String "}" rest) => Some (TObj [(key, v)], rest)
                  | _ => None
                  end
              | _ => None
              end
            else None
          else if Ascii.eqb a "{" then
            match s' with
            | String "}" rest => Some (TObj [], rest)
            | _ => read fuel true s'
            end
          else if Ascii.eqb a dq then
            (λ '(str, rest), (TStr str, rest)) <$> read_string s'
          else if String.prefix "null" s then Some (TNull, sdrop 4 s)
          else if String.prefix "true" s then Some (TBool true, sdrop 4 s)
          else if String.prefix "false" s then Some (TBool false, sdrop 5 s)
          else (λ '(z, rest), (TInt z, rest)) <$> read_int s
      end
  end.

Definition parse (s : string) : option tree :=
  match read (S (String.length s)) false s with
  | Some (t, EmptyString) => Some t
  | _ => None
  end.

Definition quote (s : string) : string := String dq (s +:+ String dq EmptyString).

Fixpoint all_plain (s : string) : bool :=
  match s with
  | EmptyString => true
  | String a s' => plain a && all_plain s'
  end.

Fixpoint print (t : tree) : string :=
  match t with
  | TNull => "null"
  | TBool true => "true"
  | TBool false => "false"
  | TInt z => pretty z
  | TStr s => quote s
  | TObj fields =>
      "{" +:+
      (fix members (fs : list (string * tree)) : string :=
         match fs with
         | [] => ""
         | [(k, v)] => quote k +:+ ":" +:+ print v
         | (k, v) :: rest => quote k +:+ ":" +:+ print v +:+ "," +:+ members rest
         end) fields
      +:+ "}"
  end.

Fixpoint encode (v : jvalue) : option string :=
  match v with
  | JBool true => Some "true"
  | JBool false => Some "false"
  | JInt z => Some (pretty z)
  | JFloat (Fin q) => if decide (Qden q = 1%positive) then Some (pretty (Qnum q)) else None
  | JFloat _ => None
  | JString s => if all_plain s then Some (quote s) else None
  | JRaw (Raw "") => Some "null"
  | JRaw (Raw bytes) => if parse bytes is Some _ then Some bytes else None
  | JObject fields =>
      (λ body, "{" +:+ body +:+ "}") <$>
      (fix members (fs : list (string * jvalue)) : option string :=
         match fs with
         | [] => Some ""
         | (k, v) :: rest =>
             match encode v, members rest with
             | Some x, Some xs =>
                 if all_plain k
                 then Some (quote k +:+ ":" +:+ x +:+
                            match rest with [] => "" | _ => "," +:+ xs end)
                 else None
             | _, _ => None
             end
         end) fields
  end.

Definition lower (a : ascii) : ascii :=
  let n := nat_of_ascii a in
  if bool_decide (65 ≤ n ≤ 90) then ascii_of_nat (n + 32) else a.

Fixpoint lowercase (s : string) : string :=
  match s with
  | EmptyString => EmptyString
  | String a s' => String (lower a) (lowercase s')
  end.

(** Field names match without regard to case. *)
Definition names (key field : string) : bool :=
  String.eqb (lowercase key) (lowercase field).

Definition int64 (z : Z) : option Z :=
  if decide (- 2 ^ 63 ≤ z < 2 ^ 63)%Z then Some z else None.

(** Decoding an object member by member into a struct: [set] gives the
    struct after one member, or fails on a value of the wrong type. *)
Definition decode_struct {A : Type} (zero : A)
    (set : A → string → tree → option A) (t : tree) : option A :=
  match t with
  | TNull => Some zero
  | TObj fields =>
      foldl (λ acc '(k, v), acc ≫= λ a, match v with TNull => Some a | _ => set a k v end)
            (Some zero) fields
  | _ => None
  end.

Definition set_RedisState (s : Node.RedisState) (k : string) (v : tree)
    : option Node.RedisState :=
  if names k "paused" then
    match v with
    | TBool b => Some {| Node.Paused := b; Node.CurrentTime := Node.CurrentTime s;
                         Node.PlaybackRate := Node.PlaybackRate s;
                         Node.Timestamp := Node.Timestamp s |}
    | _ => None
    end
  else if names k "currentTime" then
    match v with
    | TInt z => Some {| Node.Paused := Node.Paused s;
                        Node.CurrentTime := float64_of_int z;
                        Node.PlaybackRate := Node.PlaybackRate s;
                        Node.Timestamp := Node.Timestamp s |}
    | _ => None
    end
  else if names k "playbackRate" then
    match v with
    | TInt z => Some {| Node.Paused := Node.Paused s;
                        Node.CurrentTime := Node.CurrentTime s;
                        Node.PlaybackRate := float64_of_int z;
                        Node.Timestamp := Node.Timestamp s |}
    | _ => None
    end
  else if names k "timestamp" then
    match v with
    | TInt z => (λ z, {| Node.Paused := Node.Paused s;
                         Node.CurrentTime := Node.CurrentTime s;
                         Node.PlaybackRate := Node.PlaybackRate s;
                         Node.Timestamp := z |}) <$> int64 z
    | _ => None
    end
  else Some s.

Definition set_ClientMsg (m : Node.ClientMsg) (k : string) (v : tree)
    : option Node.ClientMsg :=
  if names k "type" then
    match v with
    | TStr s => Some {| Node.Type_ := s; Node.State := Node.State m |}
    | _ => None
    end
  else if names k "state" then
    Some {| Node.Type_ := Node.Type_ m; Node.State := Raw (print v) |}
  else Some m.

(** In the message struct a [null] state is kept as the bytes [null]. *)
Definition decode_ClientMsg (t : tree) : option Node.ClientMsg :=
  match t with
  | TNull => Some {| Node.Type_ := ""; Node.State := Raw "" |}
  | TObj fields =>
      foldl (λ acc '(k, v), acc ≫= λ a,
               match v with
               | TNull => if names k "state" then set_ClientMsg a k v else Some a
               | _ => set_ClientMsg a k v
               end)
            (Some {| Node.Type_ := ""; Node.State := Raw "" |}) fields
  | _ => None
  end.

Definition set_StreamingServer (s : Director.StreamingServer) (k : string) (v : tree)
    : option Director.StreamingServer :=
  let upd id url cap load st ping :=
    Some {| Director.ID := id; Director.URL := url; Director.Capacity := cap;
            Director.CurrentLoad := load; Director.Status := st;
            Director.LastPing := ping; Director.Registered := Director.Registered s |} in
  let id := Director.ID s in
  let url := Director.URL s in
  let cap := Director.Capacity s in
  let load := Director.CurrentLoad s in
  let st := Director.Status s in
  let ping := Director.LastPing s in
  if names k "id" then
    match v with TStr x => upd x url cap load st ping | _ => None end
  else if names k "url" then
    match v with TStr x => upd id x cap load st ping | _ => None end
  else if names k "capacity" then
    match v with TInt z => int64 z ≫= λ x, upd id url x load st ping | _ => None end
  else if names k "currentLoad" then
    match v with TInt z => int64 z ≫= λ x, upd id url cap x st ping | _ => None end
  else if names k "status" then
    match v with TStr x => upd id url cap load x ping | _ => None end
  else if names k "lastPing" then
    match v with TInt z => int64 z ≫= λ x, upd id url cap load st x | _ => None end
  else Some s.

#[export] Instance json_marshal : Marshal := encode.

#[export] Instance json_RedisState : Unmarshal Node.RedisState := λ data,
  parse data ≫=
  decode_struct {| Node.Paused := false; Node.CurrentTime := Fin 0;
                   Node.PlaybackRate := Fin 0; Node.Timestamp := 0 |} set_RedisState.

#[export] Instance json_ClientMsg : Unmarshal Node.ClientMsg := λ data,
  parse data ≫= decode_ClientMsg.

#[export] Instance json_RawMessage : Unmarshal RawMessage := λ data,
  if parse data is Some _ then Some (Raw data) else None.

#[export] Instance json_StreamingServer : Unmarshal Director.StreamingServer := λ data,
  parse data ≫=
  decode_struct {| Director.ID := ""; Director.URL := ""; Director.Capacity := 0;
                   Director.CurrentLoad := 0; Director.Status := "";
                   Director.LastPing := 0; Director.Registered := 0 |}
                set_StreamingServer.

#[export, refine] Instance json_codec : Node.Codec := {|
  Node.codec_marshal := json_marshal;
  Node.codec_ClientMsg := json_ClientMsg;
  Node.codec_RedisState := json_RedisState;
  Node.codec_RawMessage := json_RawMessage
|}.
Proof.
  - intros [bytes] s. unfold unmarshal, json_RedisState, marshal, json_marshal.
    cbn [raw_bytes encode].
    destruct bytes as [|a bytes]; [done |].
    destruct (parse (String a bytes)) as [t|] eqn:Hp; [| done]. intros Hs.
    exists (String a bytes). by rewrite Hp.
  - intros payload m. unfold unmarshal, json_RawMessage, marshal, json_marshal.
    destruct (parse payload) as [t|] eqn:Hp; [| done]. intros [= <-]. cbn [encode].
    destruct payload as [|a payload]; [done |]. by rewrite Hp.
  - intros m servertime. unfold marshal, json_marshal. cbn [encode Node.stateUpdate].
    intros [x ->]. by eexists.
Defined.

End MiniJson.


(** ** A scenario: one session with a host and a participant *)
Module Scenario.
Import Node MiniJson.

(** The clock: one millisecond passes between two readings. *)
Definition wall (k : nat) : Z := (1700000000000000000 + 1000000 * Z.of_nat k)%Z.

(** The keyspace after the director created the session [s] at the time
    1000 s. *)
Definition db : Redis.t := (Director.createSession "s" "h" 1000000000000 Redis.empty).2.

Definition state_text (paused : bool) (currentTime timestamp : Z) : string :=
  print (TObj [("paused", TBool paused); ("currentTime", TInt currentTime);
               ("playbackRate", TInt 1); ("timestamp", TInt timestamp)]).

(** The frame that the host sends when it starts to play at the time
    2000. *)
Definition host_update : string :=
  print (TObj [("type", TStr "stateUpdate");
               ("state", TObj [("paused", TBool false); ("currentTime", TInt 10);
                               ("playbackRate", TInt 1); ("timestamp", TInt 2000)])]).

Definition joins : list event :=
  [Connect "s" "true" true; Connect "s" "false" true].

Definition world_of (o : outcome world) : world :=
  match o with
  | Done σ => σ
  | Panic _ => init
  end.

(** The node once the host and then a participant of [s] are attached. *)
Definition two_viewers : world := world_of (run wall joins (boot db)).

Definition host_connection : ClientConnection :=
  {| conn := Some {| wire := []; hung_up := false |}; sessionID := "s"; isHost := true;
     send := make_chan |}.

(** The descriptor of a node that reports itself inactive. *)
Definition inactive_descriptor : string :=
  print (TObj [("id", TStr "n1"); ("url", TStr "http://10.0.0.7:8081");
               ("capacity", TInt 100); ("currentLoad", TInt 0);
               ("status", TStr "inactive")]).

(** Two registered nodes, the second one less loaded. *)
Definition node_a : Director.StreamingServer :=
  {| Director.ID := "a"; Director.URL := "10.0.0.7:8081/"; Director.Capacity := 100;
     Director.CurrentLoad := 40; Director.Status := "active"; Director.LastPing := 1000;
     Director.Registered := 0 |}.
Definition node_b : Director.StreamingServer :=
  {| Director.ID := "b"; Director.URL := "http://10.0.0.8:8081"; Director.Capacity := 50;
     Director.CurrentLoad := 10; Director.Status := "active"; Director.LastPing := 1000;
     Director.Registered := 0 |}.
Definition registry : gmap string Director.StreamingServer :=
  <["a" := node_a]> (<["b" := node_b]> ∅).


(** The streaming node [a]: what it posts when it registers at the time
    1000 s and with its heartbeat at the time 1030 s, two connections
    being attached, and what the director decodes from the two. *)
Definition cfg : Config := {| serverID := "a"; serverURL := "10.0.0.7:8081/" |}.

Definition registration_body : string :=
  default "" (marshal (descriptor cfg 0 (Unix 1000000000000))).

Definition registration : Director.StreamingServer :=
  {| Director.ID := "a"; Director.URL := "10.0.0.7:8081/"; Director.Capacity := 100;
     Director.CurrentLoad := 0; Director.Status := "active"; Director.LastPing := 1000;
     Director.Registered := 0 |}.

Definition heartbeat_body : string :=
  default "" (marshal (descriptor cfg 2 (Unix 1030000000000))).

Definition heartbeat : Director.StreamingServer :=
  {| Director.ID := "a"; Director.URL := "10.0.0.7:8081/"; Director.Capacity := 100;
     Director.CurrentLoad := 2; Director.Status := "active"; Director.LastPing := 1030;
     Director.Registered := 0 |}.

(** The frame queued for the participant of [two_viewers] when it
    joined, and its connection. *)
Definition initial_frame : string :=
  default "" (marshal (stateUpdate (Raw (state_text true 0 1000)) (UnixMilli (wall 0)))).

Definition participant_connection : ClientConnection :=
  {| conn := Some {| wire := []; hung_up := false |}; sessionID := "s"; isHost := false;
     send := {| buf := [initial_frame]; closed := false; sendq := [] |} |}.

(** A request for the video metadata and the reply to it. *)
Definition metadata_request : string := print (TObj [("type", TStr "videoMetadata")]).

Definition metadata_reply : string :=
  default ""
    (marshal (JObject [("type", JString "videoMetadata");
                       ("state", encode_VideoManifest
                                   {| ChunkDuration := 5; ChunkCount := 10;
                                      VideoDuration := Fin 117;
                                      VideoFileType := "mp4" |})])).

(** The node of [two_viewers] once the pump of the participant has
    written the frame queued for it. *)
Definition drained : world := world_of (run wall (joins ++ [PumpStep 1 true]) (boot db)).

Definition participant_drained : ClientConnection :=
  {| conn := Some {| wire := [TextMessage initial_frame]; hung_up := false |};
     sessionID := "s"; isHost := false; send := make_chan |}.

End Scenario.

(** * Properties of the director *)

Section strings.

Lemma length_append (s1 s2 : string) :
  String.length (s1 +:+ s2) = String.length s1 + String.length s2.
Proof. induction s1 as [|a s1 IH]; simpl; [done | by rewrite IH]. Qed.

Lemma stake_append (s1 s2 : string) : stake (String.length s1) (s1 +:+ s2) = s1.
Proof. induction s1 as [|a s1 IH]; simpl; [by destruct s2 | by rewrite IH]. Qed.

Lemma sdrop_append (s1 s2 : string) : sdrop (String.length s1) (s1 +:+ s2) = s2.
Proof. induction s1 as [|a s1 IH]; simpl; done. Qed.

Lemma before_sep_append (sep : ascii) (s1 s2 : string) :
  before_sep sep s1 = s1 → before_sep sep (s1 +:+ s2) = s1 +:+ before_sep sep s2.
Proof.
  induction s1 as [|a s1 IH]; simpl; [done |].
  destruct (Ascii.eqb a sep); [done |].
  intros [= Hs1]. by rewrite IH.
Qed.

Lemma slice_from_append (s1 s2 : string) :
  slice_from (String.length s1) (s1 +:+ s2) = Done s2.
Proof.
  unfold slice_from. rewrite length_append, sdrop_append.
  case_decide; [done | lia].
Qed.

Lemma slice_upto_append (s1 s2 : string) :
  slice_upto_len_minus (String.length s2) (s1 +:+ s2) = Done s1.
Proof.
  unfold slice_upto_len_minus. rewrite length_append.
  case_decide; [| lia].
  replace (String.length s1 + String.length s2 - String.length s2)
    with (String.length s1) by lia.
  by rewrite stake_append.
Qed.

End strings.

Section director.
Import Director.
Context `{!Marshal, !Unmarshal StreamingServer}.

Lemma validate_path_key (k : string) :
  before_sep "?" k = k →
  bind (slice_from (String.length "/api/sessions/") (validate_path k)) (λ sessionKey,
    slice_upto_len_minus (String.length "/validate") (before_sep "?" sessionKey))
  = Done k.
Proof.
  intros Hk. unfold validate_path.
  rewrite slice_from_append. cbn [bind].
  rewrite before_sep_append by done.
  change (before_sep "?" "/validate") with "/validate".
  apply slice_upto_append.
Qed.

Lemma attempt_healthy (db : Redis.t) :
  Redis.outages db = [] → Redis.attempt db = (false, db).
Proof. unfold Redis.attempt. by intros ->. Qed.


End director.

Section validate.
Import Director.
Context `{!Marshal, !Unmarshal StreamingServer}.



End validate.

Section selection.
Import Director.
Context `{!Marshal, !Unmarshal StreamingServer}.





(** Rounding does not show on small operands: for loads below 24 and
    capacities up to 24 the comparison of the quotients in IEEE 754
    arithmetic and the comparison of the exact ratios agree. *)
Example float64_quotients_agree : quotients_agree 24 = true.
Proof. vm_compute. reflexivity. Qed.



End selection.

Section sessions.
Import Director.
Context `{!Marshal, !Unmarshal StreamingServer}.

(** The state that [createSession] marshals at the time [now]. *)
Lemma createSession_healthy (sessionKey hostToken : string) (now : Z) (db : Redis.t) :
  Redis.outages db = [] →
  createSession sessionKey hostToken now db =
    ({| status := 200;
        body := JSON (JObject [("sessionKey", JString sessionKey);
                               ("hostToken", JString hostToken)]) |},
     Redis.Db
       (<[("session:" +:+ sessionKey +:+ ":state") :=
            Redis.Entry
              (default "" (marshal (encode_SessionState
                 {| Paused := true; CurrentTime := Fin 0; PlaybackRate := Fin 1;
                    Timestamp := Unix now |})))
              sessionExpiry]>
          (<[("session:" +:+ sessionKey +:+ ":host") := Redis.Entry hostToken sessionExpiry]>
             (<[("session:" +:+ sessionKey) := Redis.Entry "active" sessionExpiry]>
                (Redis.kv db))))
       (Redis.published db) []).
Proof.
  destruct db as [kv pub out]. simpl. intros ->.
  unfold createSession, Redis.SetEX, Redis.attempt. simpl. done.
Qed.

(** C5, as the code has it. Whether each of the three writes fails is
    given by the outage schedule. The call stops at the first write that
    fails and answers 500 [Failed to create session]; the writes made
    before it stay in the keyspace and the later ones are not made. *)
Theorem createSession_stops_at_failure (sessionKey hostToken : string) (now : Z)
    (db : Redis.t) :
  let '(resp, db') := createSession sessionKey hostToken now db in
  let k := "session:" +:+ sessionKey in
  let written1 := <[k := Redis.Entry "active" sessionExpiry]> (Redis.kv db) in
  let written2 := <[(k +:+ ":host") := Redis.Entry hostToken sessionExpiry]> written1 in
  if Redis.down 0 db then
    resp = http_Error "Failed to create session" 500 ∧ Redis.kv db' = Redis.kv db
  else if Redis.down 1 db then
    resp = http_Error "Failed to create session" 500 ∧ Redis.kv db' = written1
  else if Redis.down 2 db then
    resp = http_Error "Failed to create session" 500 ∧ Redis.kv db' = written2
  else
    status resp = 200%Z ∧ Redis.kv db' !! k = Some (Redis.Entry "active" sessionExpiry).
Proof.
  destruct db as [kv pub out].
  unfold createSession, Redis.SetEX, Redis.attempt, Redis.down.
  destruct out as [|[] [|[] [|[] out]]]; simpl; try done.
  all: split; [done |].
  all: rewrite lookup_insert_ne by (by intros ?%(f_equal String.length);
         rewrite !length_append in *; simpl in *; lia).
  all: rewrite lookup_insert_ne by (by intros ?%(f_equal String.length);
         rewrite !length_append in *; simpl in *; lia).
  all: apply lookup_insert_eq.
Qed.


Lemma handleHeartbeat_known (reqBody : string) (now : Z)
    (servers : gmap string StreamingServer) (server existing : StreamingServer) :
  unmarshal reqBody = Some server →
  servers !! ID server = Some existing →
  handleHeartbeat reqBody now servers =
    ({| status := 200; body := NoBody |},
     <[ID server := with_heartbeat existing (CurrentLoad server) (Unix now)]> servers).
Proof. unfold handleHeartbeat. by intros -> ->. Qed.

Lemma handleHeartbeat_unknown (reqBody : string) (now : Z)
    (servers : gmap string StreamingServer) (server : StreamingServer) :
  unmarshal reqBody = Some server →
  servers !! ID server = None →
  handleHeartbeat reqBody now servers = ({| status := 200; body := NoBody |}, servers).
Proof. unfold handleHeartbeat. by intros -> ->. Qed.

End sessions.

Section director_examples.
Import Director MiniJson Scenario.

(** C5, the claim as stated fails: the second write of a create-session
    call fails, the call answers 500, and the existence sentinel written
    before it is still in the keyspace. *)
Lemma createSession_rollback_counterexample :
  let '(resp, db') := createSession "k" "h" 0 (Redis.Db ∅ [] [false; true]) in
  status resp = 500%Z ∧
  Redis.kv db' !! "session:k:host" = None ∧
  Redis.kv db' !! "session:k" = Some (Redis.Entry "active" 86400).
Proof. vm_compute. done. Qed.

(** C4, at the wall time 1700000000.123456789 s: the call succeeds and
    the stored state decodes to a paused state at position 0 and rate 1
    whose timestamp is 1700000000, the time in seconds, while the time in
    milliseconds is 1700000000123. *)
Example createSession_timestamp_in_seconds :
  let now := 1700000000123456789%Z in
  let '(resp, db') := createSession "k" "h" now Redis.empty in
  status resp = 200%Z ∧
  (Redis.value <$> Redis.kv db' !! "session:k:state") ≫= unmarshal =
    Some {| Node.Paused := true; Node.CurrentTime := Fin 0; Node.PlaybackRate := Fin 1;
            Node.Timestamp := 1700000000 |} ∧
  UnixMilli now = 1700000000123%Z.
Proof. vm_compute. done. Qed.

(** C7, at a register request whose descriptor has status [inactive]:
    the request is answered 200 and the registry entry keeps the status
    [inactive]; a heartbeat for the same node then sets it to [active]. *)
Example registerStreamingServer_keeps_status :
  let '(resp, servers) := registerStreamingServer inactive_descriptor 5000000000 5000000000 ∅ in
  status resp = 200%Z ∧
  Status <$> servers !! "n1" = Some "inactive" ∧
  LastPing <$> servers !! "n1" = Some 5%Z ∧
  Status <$> (handleHeartbeat inactive_descriptor 6000000000 servers).2 !! "n1"
    = Some "active".
Proof. vm_compute. done. Qed.

End director_examples.

(** * Properties of the streaming node *)

Section frames.
Import Node.

Lemma alike_refl (c : ClientConnection) : alike c c.
Proof. by repeat split. Qed.

Lemma alike_trans (c1 c2 c3 : ClientConnection) : alike c1 c2 → alike c2 c3 → alike c1 c3.
Proof.
  intros (? & ? & ? & ?) (? & ? & ? & ?). unfold alike.
  split_and!; try congruence. etrans; eauto.
Qed.

Lemma alike_with_send (c : ClientConnection) (ch : Chan) :
  closed ch = closed (send c) → alike c (with_send ch c).
Proof. intros Hc. by repeat split. Qed.

Lemma alike_with_conn (c : ClientConnection) (s : Socket) :
  is_Some (conn c) → alike c (with_conn (Some s) c).
Proof. intros Hc. repeat split; simpl; eauto. Qed.

Lemma same_shape_refl (h : gmap nat ClientConnection) : same_shape h h.
Proof. intros p. destruct (h !! p); [apply alike_refl | done]. Qed.

Lemma same_shape_trans (h1 h2 h3 : gmap nat ClientConnection) :
  same_shape h1 h2 → same_shape h2 h3 → same_shape h1 h3.
Proof.
  intros H12 H23 p. specialize (H12 p). specialize (H23 p).
  destruct (h1 !! p), (h2 !! p), (h3 !! p); try done. by eapply alike_trans.
Qed.

Lemma same_shape_insert (h : gmap nat ClientConnection) (p : nat) (c c' : ClientConnection) :
  h !! p = Some c → alike c c' → same_shape h (<[p := c']> h).
Proof.
  intros Hp Hc q. destruct (decide (p = q)) as [<-|Hne].
  - by rewrite Hp, lookup_insert_eq.
  - rewrite lookup_insert_ne by done. destruct (h !! q); [apply alike_refl | done].
Qed.

Lemma frame_only_refl (σ : world) : frame_only σ σ.
Proof. split_and!; try done. apply same_shape_refl. Qed.

Lemma frame_only_trans (σ1 σ2 σ3 : world) :
  frame_only σ1 σ2 → frame_only σ2 σ3 → frame_only σ1 σ3.
Proof.
  intros (? & ? & ? & ? & ? & ?) (? & ? & ? & ? & ? & ?).
  split_and!; try congruence; [set_solver | by eapply same_shape_trans].
Qed.

Lemma frame_only_log (line : string) (σ : world) : frame_only σ (log line σ).
Proof. split_and!; try done. apply same_shape_refl. Qed.

Lemma frame_only_rdb (db : Redis.t) (σ : world) : frame_only σ (with_rdb db σ).
Proof. split_and!; try done. apply same_shape_refl. Qed.

Lemma frame_only_ticks (n : nat) (σ : world) : frame_only σ (with_ticks n σ).
Proof. split_and!; try done. apply same_shape_refl. Qed.

Lemma frame_only_lock (sid : string) (σ : world) : frame_only σ (ensure_lock sid σ).
Proof.
  unfold ensure_lock. case_decide; [apply frame_only_refl |].
  split_and!; try done. apply same_shape_refl.
Qed.

Lemma frame_only_heap (p : nat) (c c' : ClientConnection) (σ : world) :
  heap σ !! p = Some c → alike c c' → frame_only σ (with_heap (<[p := c']> (heap σ)) σ).
Proof. intros Hp Hc. split_and!; try done. by eapply same_shape_insert. Qed.

Lemma frame_only_pumps (running : gset nat) (σ : world) :
  running ⊆ pumps σ → frame_only σ (with_pumps running σ).
Proof. intros Hsub. split_and!; try done. apply same_shape_refl. Qed.

Lemma wf_frame (σ σ' : world) : wf σ → frame_only σ σ' → wf σ'.
Proof.
  intros [Hb Hn Hl Hp Hs Hc] (Ecl & Elo & Epu & Esu & _ & Hsh).
  split.
  - intros sid l p. rewrite Ecl, Elo. intros Hl' Hp'.
    destruct (Hb sid l p Hl' Hp') as (Hin & c & Hc' & Hsid). split; [done |].
    specialize (Hsh p). rewrite Hc' in Hsh.
    destruct (heap σ' !! p) as [c'|]; [| done].
    exists c'. split; [done |]. destruct Hsh as (-> & _). done.
  - intros sid l. rewrite Ecl. apply Hn.
  - intros p. rewrite Elo, Ecl. intros Hin.
    destruct (Hl p Hin) as (c & l & Hc' & Hne & Hcl & Hco & Hbu & Hpl).
    specialize (Hsh p). rewrite Hc' in Hsh.
    destruct (heap σ' !! p) as [c'|]; [| done].
    destruct Hsh as (Es & _ & Ec & Eco).
    exists c', l. rewrite Es, Ec. split_and!; try done. by apply Eco.
  - intros p Hin. destruct (Hp p) as (c & Hc' & Hco); [set_solver |].
    specialize (Hsh p). rewrite Hc' in Hsh.
    destruct (heap σ' !! p) as [c'|]; [| done].
    destruct Hsh as (_ & _ & _ & Eco). exists c'. split; [done | by apply Eco].
  - intros ch. rewrite Esu. apply Hs.
  - unfold total_clients. by rewrite Ecl, Elo.
Qed.

Lemma total_clients_frame (σ σ' : world) :
  frame_only σ σ' → total_clients σ' = total_clients σ.
Proof. intros (Ecl & _). unfold total_clients. by rewrite Ecl. Qed.

End frames.

Section handlers_keep_shape.
Import Node.
Context `{!Marshal, !Unmarshal ClientMsg, !Unmarshal RedisState, !Unmarshal RawMessage}.
Variable wall : nat → Z.

Lemma frame_only_publish (sid : string) (st : RawMessage) (σ : world) :
  frame_only σ (publishStateUpdate sid st σ).
Proof.
  unfold publishStateUpdate. destruct (marshal (JRaw st)); [| apply frame_only_log].
  destruct (Redis.Publish _ _ _) as [[] db].
  - eapply frame_only_trans; [apply frame_only_rdb | apply frame_only_log].
  - apply frame_only_rdb.
Qed.

#[local] Ltac frame :=
  lazymatch goal with
  | |- frame_only ?σ ?σ => apply frame_only_refl
  | |- frame_only ?σ (log ?l ?x) =>
      apply (frame_only_trans σ x); [frame | apply frame_only_log]
  | |- frame_only ?σ (with_rdb ?d ?x) =>
      apply (frame_only_trans σ x); [frame | apply frame_only_rdb]
  | |- frame_only ?σ (with_ticks ?d ?x) =>
      apply (frame_only_trans σ x); [frame | apply frame_only_ticks]
  | |- frame_only ?σ (ensure_lock ?d ?x) =>
      apply (frame_only_trans σ x); [frame | apply frame_only_lock]
  | |- frame_only ?σ (publishStateUpdate ?s ?m ?x) =>
      apply (frame_only_trans σ x); [frame | apply frame_only_publish]
  | |- frame_only ?σ (match ?v with _ => _ end) => destruct v; frame
  end.

Lemma handleClientMessage_frame (p : nat) (message : string) (σ : world)
    (c : ClientConnection) :
  heap σ !! p = Some c → closed (send c) = false → is_Some (conn c) →
  ∃ σ', handleClientMessage p message σ = Done σ' ∧ frame_only σ σ'.
Proof.
  intros Hp Hopen [s Hs]. unfold handleClientMessage. rewrite Hp.
  destruct (unmarshal message) as [msg|]; [| eexists; split; [done | frame]].
  destruct (Type_ msg =? "stateUpdate")%string.
  { destruct (isHost c); [| eexists; split; [done | frame]].
    destruct (Redis.Get _ _) as [val db].
    destruct (unmarshal (Redis.val_of val)) as [stateFromRedis|];
      [| eexists; split; [done | frame]].
    destruct (unmarshal (raw_bytes (State msg))) as [stateFromMsg|];
      [| eexists; split; [done | frame]].
    case_decide; [| eexists; split; [done | frame]].
    destruct (Redis.SetEX _ _ _ _) as [err db'].
    eexists; split; [done |]. frame. }
  destruct (Type_ msg =? "videoMetadata")%string.
  { destruct (marshal _) as [payload|]; [| eexists; split; [done | frame]].
    unfold blocking_send, offer. rewrite Hopen.
    case_decide; cbn [bind]; (eexists; split; [done |]);
      (eapply frame_only_heap; [done |]); by apply alike_with_send. }
  destruct (Type_ msg =? "heartbeat")%string; [| eexists; split; [done | frame]].
  rewrite Hs. destruct (marshal _) as [data|]; [| eexists; split; [done | frame]].
  destruct (WriteMessage _ _ _) as [err s'].
  eexists; split; [done |]. eapply frame_only_heap; [done |].
  apply alike_with_conn. by rewrite Hs.
Qed.

Lemma writePump_frame (p : nat) (netOk : bool) (σ : world) (c : ClientConnection) :
  heap σ !! p = Some c → is_Some (conn c) →
  ∃ σ', writePump p netOk σ = Done σ' ∧ frame_only σ σ'.
Proof.
  intros Hp [s Hs]. unfold writePump. rewrite Hp, Hs.
  destruct (buf (send c)) as [|msg queued].
  - destruct (closed (send c)); [| eexists; split; [done | frame]].
    destruct (WriteMessage _ _ _) as [err s'].
    eexists; split; [done |].
    eapply frame_only_trans; [| apply frame_only_pumps; simpl; set_solver].
    eapply frame_only_heap; [done |]. apply alike_with_conn. by rewrite Hs.
  - destruct (WriteMessage _ _ _) as [err s'].
    assert (alike c (with_conn (Some s')
      (with_send match sendq (send c) with
                 | [] => {| buf := queued; closed := closed (send c); sendq := [] |}
                 | parked :: others =>
                     {| buf := queued ++ [parked]; closed := closed (send c);
                        sendq := others |}
                 end c))) as Halike.
    { eapply alike_trans; [apply alike_with_send | apply alike_with_conn].
      - by destruct (sendq (send c)).
      - simpl. by rewrite Hs. }
    destruct err; (eexists; split; [done |]).
    + eapply frame_only_trans; [| apply frame_only_pumps; simpl; set_solver].
      eapply frame_only_trans; [| apply frame_only_log].
      by eapply frame_only_heap.
    + by eapply frame_only_heap.
Qed.

Lemma all_open_frame (l : list nat) (σ σ' : world) :
  all_open l σ → frame_only σ σ' → all_open l σ'.
Proof.
  intros Hopen (_ & _ & _ & _ & _ & Hsh) p c' Hp Hc'.
  specialize (Hsh p). rewrite Hc' in Hsh.
  destruct (heap σ !! p) as [c|] eqn:Hc; [| done].
  destruct Hsh as (_ & _ & -> & _). by eapply Hopen.
Qed.

Lemma try_send_frame (sid : string) (p : nat) (c : ClientConnection) (payload : string)
    (σ : world) :
  heap σ !! p = Some c → closed (send c) = false →
  ∃ σ', try_send sid p c payload σ = Done σ' ∧ frame_only σ σ'.
Proof.
  intros Hp Hopen. unfold try_send, offer. rewrite Hopen.
  case_decide; (eexists; split; [done |]).
  - eapply frame_only_heap; [done |]. by apply alike_with_send.
  - apply frame_only_log.
Qed.

Lemma broadcast_inner_frame (sid payload : string) (todo : list nat) (σ : world) :
  all_open todo σ →
  ∃ σ', broadcast_inner sid payload todo σ = Done σ' ∧ frame_only σ σ'.
Proof.
  revert σ. induction todo as [|p todo IH]; intros σ Hopen; simpl.
  { eexists; split; [done | apply frame_only_refl]. }
  assert (all_open todo σ) as Hopen'.
  { intros q c Hq. apply Hopen. by right. }
  destruct (heap σ !! p) as [c|] eqn:Hp; [| by apply IH].
  destruct (conn c); [| by apply IH].
  destruct (try_send_frame sid p c payload σ Hp) as (σ1 & -> & Hf1).
  { eapply Hopen; [left | done]. }
  cbn [bind]. destruct (IH σ1) as (σ2 & -> & Hf2).
  { by eapply all_open_frame. }
  eexists; split; [done |]. by eapply frame_only_trans.
Qed.

Lemma broadcast_outer_frame (sid : string) (st : RawMessage) (all todo : list nat)
    (σ : world) :
  all_open all σ →
  ∃ σ', broadcast_outer wall sid st all todo σ = Done σ' ∧ frame_only σ σ'.
Proof.
  revert σ. induction todo as [|p todo IH]; intros σ Hopen; simpl.
  { eexists; split; [done | apply frame_only_refl]. }
  destruct (heap σ !! p) as [c|] eqn:Hp; [| by apply IH].
  destruct (conn c); [| by apply IH].
  destruct (marshal _) as [payload|]; [| eexists; split; [done | frame]].
  set (σ0 := with_ticks (S (ticks σ)) σ).
  assert (frame_only σ σ0) as Hf0 by apply frame_only_ticks.
  destruct (broadcast_inner_frame sid payload all σ0) as (σ1 & -> & Hf1).
  { by eapply all_open_frame. }
  cbn [bind]. destruct (IH σ1) as (σ2 & -> & Hf2).
  { eapply all_open_frame; [exact Hopen |]. exact (frame_only_trans _ _ _ Hf0 Hf1). }
  eexists; split; [done |].
  exact (frame_only_trans _ _ _ (frame_only_trans _ _ _ Hf0 Hf1) Hf2).
Qed.

Lemma broadcastState_frame (sid : string) (st : RawMessage) (σ : world) :
  (∀ l, clients σ !! sid = Some l → all_open l σ) →
  ∃ σ', broadcastState wall sid st σ = Done σ' ∧ frame_only σ σ'.
Proof.
  intros Hopen. unfold broadcastState.
  pose proof (frame_only_lock sid σ) as Hf.
  assert (clients (ensure_lock sid σ) = clients σ) as Ecl by apply Hf.
  rewrite Ecl.
  destruct (clients σ !! sid) as [[|p l]|] eqn:Hl; try (eexists; split; [done | done]).
  destruct (broadcast_outer_frame sid st (p :: l) (p :: l) (ensure_lock sid σ))
    as (σ' & -> & Hf').
  { eapply all_open_frame; [| done]. by apply Hopen. }
  eexists; split; [done |]. by eapply frame_only_trans.
Qed.

End handlers_keep_shape.

Section buckets.
Import Node.

Lemma wrap64_id (z : Z) : (- 2 ^ 63 ≤ z < 2 ^ 63)%Z → wrap64 z = z.
Proof. intros Hz. unfold wrap64. rewrite Z.mod_small; lia. Qed.

Lemma bucket_sum_insert_fresh (m : gmap string (list nat)) (k : string) (l : list nat) :
  m !! k = None →
  map_fold (λ _ (b : list nat) n, length b + n) 0 (<[k := l]> m)
  = length l + map_fold (λ _ (b : list nat) n, length b + n) 0 m.
Proof. intros Hk. rewrite map_fold_insert_L; [done | intros; lia | done]. Qed.

Lemma bucket_sum_insert (m : gmap string (list nat)) (k : string) (l : list nat) :
  map_fold (λ _ (b : list nat) n, length b + n) 0 (<[k := l]> m)
    + length (default [] (m !! k))
  = length l + map_fold (λ _ (b : list nat) n, length b + n) 0 m.
Proof.
  destruct (m !! k) as [l0|] eqn:Hk; simpl.
  - rewrite <- (insert_delete_eq m).
    rewrite bucket_sum_insert_fresh by apply lookup_delete_eq.
    rewrite <- (insert_delete_id m k l0) at 2 by done.
    rewrite bucket_sum_insert_fresh by apply lookup_delete_eq. lia.
  - rewrite bucket_sum_insert_fresh by done. lia.
Qed.

Lemma index_of_elem (p : nat) (l : list nat) :
  p ∈ l → ∃ i, index_of p l = Some i ∧ l !! i = Some p.
Proof.
  induction l as [|q l IH]; [by intros ?%elem_of_nil |].
  intros Hin. simpl. case_decide as Hq.
  - subst. by exists 0.
  - apply elem_of_cons in Hin as [->|Hin]; [done |].
    destruct (IH Hin) as (i & -> & Hi). by exists (S i).
Qed.

Lemma remove_at (l : list nat) (i p : nat) :
  l !! i = Some p → NoDup l →
  NoDup (take i l ++ drop (S i) l) ∧
  (∀ q, q ∈ take i l ++ drop (S i) l ↔ q ∈ l ∧ q ≠ p) ∧
  S (length (take i l ++ drop (S i) l)) = length l.
Proof.
  intros Hi Hnd. pose proof (take_drop_middle l i p Hi) as Hl.
  rewrite <- Hl in Hnd. apply NoDup_app in Hnd as (HA & HAB & HB).
  apply NoDup_cons in HB as (HpB & HB).
  split; [| split].
  - apply NoDup_app. split_and!; try done.
    intros q Hq HqB. eapply HAB; [done | by right].
  - intros q. rewrite <- Hl at 3. rewrite !elem_of_app, elem_of_cons. split.
    + intros [Hq|Hq].
      * split; [by left |]. intros ->. eapply HAB; [done | left].
      * split; [by right; right |]. by intros ->.
    + intros [[Hq|[->|Hq]] Hne]; [by left | done | by right].
  - rewrite <- Hl at 3. rewrite !length_app. simpl. lia.
Qed.

(** The state in which a new connection [p] has just been put into its
    bucket is well-formed once its read loop is counted as running. *)
Lemma attach_wf (σ σr : world) (sid : string) (p : nat) (c : ClientConnection) :
  wf σ → sid ≠ "" → p ∉ dom (heap σ) →
  heap σr = <[p := c]> (heap σ) →
  pumps σr = {[p]} ∪ pumps σ →
  clients σr = <[sid := default [] (clients σ !! sid) ++ [p]]> (clients σ) →
  subscriptions σr = subscriptions σ ++ [topic sid] →
  loops σr = loops σ →
  sessionID c = sid → closed (send c) = false → is_Some (conn c) →
  wf (with_loops ({[p]} ∪ loops σr) σr) ∧
  total_clients σr = S (total_clients σ) ∧ p ∉ loops σ.
Proof.
  intros [Hb Hn Hl Hp Hs Hc] Hsid Hfresh Eh Epu Ecl Esu Elo Hcs Hco Hcc.
  assert (∀ q c', heap σ !! q = Some c' → q ≠ p) as Hold.
  { intros q c' Hq ->. apply Hfresh. apply elem_of_dom. eauto. }
  assert (p ∉ loops σ) as Hploop.
  { intros Hin. destruct (Hl p Hin) as (c' & _ & Hq & _). by eapply Hold. }
  set (old := default [] (clients σ !! sid)).
  assert (∀ q, q ∈ old → q ∈ loops σ ∧ ∃ c', heap σ !! q = Some c' ∧ sessionID c' = sid)
    as Hold_b.
  { intros q. unfold old. destruct (clients σ !! sid) as [l|] eqn:Hsl; simpl.
    - by apply Hb.
    - by intros ?%elem_of_nil. }
  assert (NoDup old) as Hold_n.
  { unfold old. destruct (clients σ !! sid) as [l|] eqn:Hsl; simpl.
    - by eapply Hn.
    - constructor. }
  assert (total_clients σr = S (total_clients σ)) as Htot.
  { unfold total_clients. rewrite Ecl.
    pose proof (bucket_sum_insert (clients σ) sid (old ++ [p])) as Hsum.
    fold old in Hsum |- *. rewrite length_app in Hsum. simpl in Hsum. lia. }
  split; [| done]. split; simpl.
  - intros sid' l q. rewrite Ecl, Eh, Elo.
    destruct (decide (sid = sid')) as [<-|Hne].
    + rewrite lookup_insert_eq. intros [= <-] [Hq | ->%list_elem_of_singleton]%elem_of_app.
      * destruct (Hold_b q Hq) as (Hql & c' & Hqc & Hqs).
        split; [set_solver |]. exists c'. rewrite lookup_insert_ne; [done |].
        intros ->. by eapply Hold.
      * split; [set_solver |]. exists c. by rewrite lookup_insert_eq.
    + rewrite lookup_insert_ne by done. intros Hl' Hq.
      destruct (Hb sid' l q Hl' Hq) as (Hql & c' & Hqc & Hqs).
      split; [set_solver |]. exists c'. rewrite lookup_insert_ne; [done |].
      intros ->. by eapply Hold.
  - intros sid' l. rewrite Ecl.
    destruct (decide (sid = sid')) as [<-|Hne].
    + rewrite lookup_insert_eq. intros [= <-]. apply NoDup_app. split_and!; try done.
      * intros q Hq ->%list_elem_of_singleton.
        destruct (Hold_b p Hq) as (_ & c' & Hqc & _). by eapply Hold.
      * apply NoDup_singleton.
    + rewrite lookup_insert_ne by done. apply Hn.
  - intros q. rewrite Elo, Eh, Ecl. intros [->%elem_of_singleton|Hq]%elem_of_union.
    + exists c, (old ++ [p]). rewrite lookup_insert_eq, Hcs, lookup_insert_eq.
      split_and!; try done. apply elem_of_app. right. by left.
    + destruct (Hl q Hq) as (c' & l & Hqc & Hqs & Hqo & Hqk & Hql & Hqin).
      assert (q ≠ p) as Hqp by by eapply Hold.
      rewrite lookup_insert_ne by done.
      destruct (decide (sid = sessionID c')) as [Heq|Hne].
      * exists c', (old ++ [p]). rewrite <- Heq, lookup_insert_eq.
        split_and!; try done.
        apply elem_of_app. left. unfold old. rewrite Heq, Hql. done.
      * exists c', l. rewrite lookup_insert_ne by done. done.
  - intros q. rewrite Epu, Eh. intros [->%elem_of_singleton|Hq]%elem_of_union.
    + exists c. by rewrite lookup_insert_eq.
    + destruct (Hp q Hq) as (c' & Hqc & Hqk). exists c'.
      rewrite lookup_insert_ne; [done |]. intros ->. by eapply Hold.
  - intros ch. rewrite Esu. intros [Hch | ->%list_elem_of_singleton]%elem_of_app.
    + by apply Hs.
    + by exists sid.
  - change (total_clients σr = size ({[p]} ∪ loops σr)).
    rewrite Htot, Elo, size_union by set_solver. rewrite size_singleton. simpl.
    by rewrite Hc.
Qed.

End buckets.

Section transitions.
Import Node.
Context `{!Marshal, !Unmarshal ClientMsg, !Unmarshal RedisState, !Unmarshal RawMessage}.
Variable wall : nat → Z.

(** [cleanupClient] on a connection that is in its bucket and whose read
    loop has ended: the connection leaves the bucket and the counter
    goes down by one. *)
Lemma cleanupClient_wf (p : nat) (σ : world) (c : ClientConnection) :
  wf (with_loops ({[p]} ∪ loops σ) σ) → p ∉ loops σ →
  heap σ !! p = Some c → sendq (send c) = [] →
  ∃ σ', cleanupClient p σ = Done σ' ∧ wf σ' ∧
        S (total_clients σ') = total_clients σ ∧
        subscriptions σ' = subscriptions σ ∧
        numClients σ' = wrap64 (numClients σ - 1).
Proof.
  intros [Hb Hn Hl Hp Hs Hc] Hploop Hpc Hq. simpl in *.
  destruct (Hl p) as (c0 & l & Hpc' & Hsid & Hopen & Hconn & Hbucket & Hpl);
    [set_solver |].
  rewrite Hpc in Hpc'. injection Hpc' as <-.
  unfold cleanupClient. rewrite Hpc.
  destruct (String.eqb_spec (sessionID c) "") as [|_]; [done |].
  unfold close. rewrite Hopen, Hq. cbn [bind].
  set (c1 := with_send {| buf := buf (send c); closed := true; sendq := [] |} c).
  set (σ1 := ensure_lock _ _).
  assert (clients σ1 = clients σ) as Ecl.
  { unfold σ1, ensure_lock. by case_decide. }
  assert (heap σ1 = <[p := c1]> (heap σ)) as Eh.
  { unfold σ1, ensure_lock. by case_decide. }
  assert (loops σ1 = loops σ ∧ pumps σ1 = pumps σ ∧ subscriptions σ1 = subscriptions σ
          ∧ numClients σ1 = numClients σ) as (Elo & Epu & Esu & Enu).
  { unfold σ1, ensure_lock. by case_decide. }
  change (sessionID c1) with (sessionID c). change (conn c1) with (conn c).
  rewrite Ecl, Hbucket.
  destruct l as [|q0 l0] eqn:El; [by apply elem_of_nil in Hpl |]. rewrite <- El in *.
  clear El q0 l0.
  destruct (index_of_elem p l Hpl) as (i & -> & Hi).
  destruct (remove_at l i p Hi (Hn _ _ Hbucket)) as (Hnd' & Hin' & Hlen').
  set (l' := take i l ++ drop (S i) l) in *.
  eexists. split; [done |]. simpl. rewrite Esu, Enu.
  split; [| split; [| done]].
  - split; simpl; rewrite ?Eh, ?Ecl, ?Elo, ?Epu, ?Esu.
    + intros sid' k q. rewrite insert_insert_eq.
      destruct (decide (sessionID c = sid')) as [<-|Hne].
      * rewrite lookup_insert_eq. intros [= <-] [Hql Hqp]%Hin'.
        destruct (Hb _ _ q Hbucket Hql) as (Hqloop & c' & Hqc & Hqs).
        split; [set_solver |]. exists c'. by rewrite lookup_insert_ne.
      * rewrite lookup_insert_ne by done. intros Hk Hqk.
        destruct (Hb _ _ q Hk Hqk) as (Hqloop & c' & Hqc & Hqs).
        assert (q ≠ p) as Hqp by (intros ->; congruence).
        split; [set_solver |]. exists c'. by rewrite lookup_insert_ne.
    + intros sid' k.
      destruct (decide (sessionID c = sid')) as [<-|Hne].
      * rewrite lookup_insert_eq. by intros [= <-].
      * rewrite lookup_insert_ne by done. apply Hn.
    + intros q Hqloop. rewrite insert_insert_eq.
      assert (q ≠ p) as Hqp by (intros ->; done).
      destruct (Hl q) as (c' & k & Hqc & Hqs & Hqo & Hqk & Hqb & Hqin); [set_solver |].
      rewrite lookup_insert_ne by done.
      destruct (decide (sessionID c = sessionID c')) as [Heq|Hne].
      * exists c', l'. rewrite <- Heq, lookup_insert_eq. split_and!; try done.
        apply Hin'. split; [| done]. rewrite <- Heq, Hbucket in Hqb. by injection Hqb as ->.
      * exists c', k. by rewrite lookup_insert_ne.
    + intros q Hqp. rewrite insert_insert_eq.
      destruct (decide (p = q)) as [<-|Hne].
      * rewrite lookup_insert_eq. eexists. split; [done |]. simpl.
        destruct Hconn as [s ->]. by eexists.
      * rewrite lookup_insert_ne by done. by apply Hp.
    + done.
    + unfold total_clients in *. simpl in *.
      pose proof (bucket_sum_insert (clients σ) (sessionID c) l') as Hsum.
      rewrite Hbucket in Hsum. simpl in Hsum.
      rewrite size_union, size_singleton in Hc by set_solver. lia.
  - unfold total_clients. simpl. rewrite Ecl.
    pose proof (bucket_sum_insert (clients σ) (sessionID c) l') as Hsum.
    rewrite Hbucket in Hsum. simpl in Hsum. lia.
Qed.

Lemma handleWebSocket_wf (sid isHostParam : string) (upgrade : bool) (σ : world) :
  wf σ →
  ∃ σ', handleWebSocket wall sid isHostParam upgrade σ = Done σ' ∧ wf σ' ∧
        total_clients σ' ≤ S (total_clients σ) ∧
        subscriptions σ' = subscriptions σ ++ subscribed_by (Connect sid isHostParam upgrade) ∧
        (numClients σ = Z.of_nat (total_clients σ) →
         (Z.of_nat (total_clients σ) + 1 < 2 ^ 63)%Z →
         numClients σ' = Z.of_nat (total_clients σ')).
Proof.
  intros Hwf. unfold handleWebSocket, subscribed_by.
  destruct (String.eqb_spec sid "") as [->|Hsid].
  { exists σ. rewrite app_nil_r. split_and!; try done. lia. }
  destruct upgrade; cbn [negb].
  2:{ eexists. split; [done |]. rewrite app_nil_r.
      split_and!; try done; [by eapply wf_frame; [| apply frame_only_log] |].
      rewrite (total_clients_frame _ _ (frame_only_log _ σ)). lia. }
  set (p := fresh (dom (heap σ))).
  assert (p ∉ dom (heap σ)) as Hfresh by apply is_fresh.
  set (c := {| conn := Some {| wire := []; hung_up := false |}; sessionID := sid;
               isHost := (isHostParam =? "true")%string; send := make_chan |}).
  set (σr := subscribeToSessionUpdates sid _).
  assert (heap σr = <[p := c]> (heap σ) ∧ pumps σr = {[p]} ∪ pumps σ ∧
          clients σr = <[sid := default [] (clients σ !! sid) ++ [p]]> (clients σ) ∧
          subscriptions σr = subscriptions σ ++ [topic sid] ∧ loops σr = loops σ ∧
          numClients σr = wrap64 (numClients σ + 1))
    as (Eh & Epu & Ecl & Esu & Elo & Enu).
  { unfold σr, subscribeToSessionUpdates, ensure_lock. by case_decide. }
  assert (∀ σx c', heap σx = <[p := c']> (heap σ) → pumps σx = pumps σr →
            clients σx = clients σr → subscriptions σx = subscriptions σr →
            loops σx = loops σr → sessionID c' = sid → closed (send c') = false →
            is_Some (conn c') →
            wf (with_loops ({[p]} ∪ loops σx) σx) ∧
            total_clients σx = S (total_clients σ) ∧ p ∉ loops σx) as Hattach.
  { intros σx c' Ehx Epx Ecx Esx Elx ? ? ?.
    destruct (attach_wf σ σx sid p c') as (? & ? & ?); try done; try congruence.
    split_and!; try done. congruence. }
  assert (numClients σ = Z.of_nat (total_clients σ) →
          (Z.of_nat (total_clients σ) + 1 < 2 ^ 63)%Z →
          wrap64 (numClients σ + 1) = Z.of_nat (S (total_clients σ)) ∧
          wrap64 (wrap64 (numClients σ + 1) - 1) = Z.of_nat (total_clients σ))
    as Hnum.
  { intros -> Hlt. rewrite wrap64_id by lia. rewrite wrap64_id by lia. lia. }
  (* a connection whose read loop starts *)
  assert (∀ σx c', heap σx = <[p := c']> (heap σ) → pumps σx = pumps σr →
            clients σx = clients σr → subscriptions σx = subscriptions σr →
            loops σx = loops σr → numClients σx = numClients σr →
            sessionID c' = sid → closed (send c') = false → is_Some (conn c') →
            let σ' := with_loops ({[p]} ∪ loops σx) σx in
            wf σ' ∧ total_clients σ' ≤ S (total_clients σ) ∧
            subscriptions σ' = subscriptions σ ++ [topic sid] ∧
            (numClients σ = Z.of_nat (total_clients σ) →
             (Z.of_nat (total_clients σ) + 1 < 2 ^ 63)%Z →
             numClients σ' = Z.of_nat (total_clients σ'))) as Hstart.
  { intros σx c' Ehx Epx Ecx Esx Elx Enx ? ? ?.
    destruct (Hattach σx c') as (Hwx & Htx & Hpx); try done.
    assert (total_clients (with_loops ({[p]} ∪ loops σx) σx) = total_clients σx) as Et
      by done.
    cbv zeta. rewrite Et, Htx. split_and!; try done; [simpl; congruence |].
    intros Hn Hlt. simpl. rewrite Enx, Enu. by apply Hnum. }
  (* a connection that is cleaned up at once *)
  assert (∀ σx, heap σx = heap σr → pumps σx = pumps σr →
            clients σx = clients σr → subscriptions σx = subscriptions σr →
            loops σx = loops σr → numClients σx = numClients σr →
            ∃ σ', cleanupClient p σx = Done σ' ∧ wf σ' ∧
                  total_clients σ' ≤ S (total_clients σ) ∧
                  subscriptions σ' = subscriptions σ ++ [topic sid] ∧
                  (numClients σ = Z.of_nat (total_clients σ) →
                   (Z.of_nat (total_clients σ) + 1 < 2 ^ 63)%Z →
                   numClients σ' = Z.of_nat (total_clients σ'))) as Hfail.
  { intros σx Ehx Epx Ecx Esx Elx Enx.
    destruct (Hattach σx c) as (Hwx & Htx & Hpx); try done; [congruence |].
    destruct (cleanupClient_wf p σx c Hwx Hpx) as (σ' & Hrun & Hw' & Ht' & Es' & En');
      [by rewrite Ehx, Eh, lookup_insert_eq | done |].
    exists σ'. split_and!; try done; [lia | congruence |].
    intros Hn Hlt. rewrite En', Enx, Enu.
    replace (total_clients σ') with (total_clients σ) by lia. by apply Hnum. }
  destruct (isHostParam =? "true")%string eqn:Hhost; cbn [negb].
  { eexists. split; [done |]. by apply (Hstart σr c). }
  change (conn c) with (Some {| wire := []; hung_up := false |}). cbv iota.
  destruct (Redis.Get _ _) as [val db].
  destruct (unmarshal (Redis.val_of val)) as [st|].
  2:{ apply Hfail; by destruct val. }
  unfold now_UnixMilli.
  destruct (marshal _) as [payload|].
  2:{ apply Hfail; by destruct val. }
  unfold try_send, offer. change (send c) with make_chan. cbn [closed make_chan buf].
  case_decide as Hroom; [| unfold send_capacity in Hroom; simpl in Hroom; lia].
  cbn [bind]. eexists. split; [done |].
  eapply (Hstart _ (with_send {| buf := [] ++ [payload]; closed := false;
                                 sendq := sendq make_chan |} c));
    try (by destruct val); try (by eexists).
  assert (∀ c', <[p := c']> (heap σr) = <[p := c']> (heap σ)) as Hins.
  { intros c'. rewrite Eh. apply insert_insert_eq. }
  destruct val; apply Hins.
Qed.

Lemma frame_step (σ σ' : world) :
  wf σ → frame_only σ σ' →
  wf σ' ∧ total_clients σ' ≤ S (total_clients σ) ∧
  subscriptions σ' = subscriptions σ ++ [] ∧
  (numClients σ = Z.of_nat (total_clients σ) →
   (Z.of_nat (total_clients σ) + 1 < 2 ^ 63)%Z →
   numClients σ' = Z.of_nat (total_clients σ')).
Proof.
  intros Hwf Hf. pose proof (total_clients_frame _ _ Hf) as Et.
  destruct Hf as (? & ? & ? & Es & En & ?) eqn:Hf'. clear Hf'.
  split_and!.
  - eapply wf_frame; [done |]. by split_and!.
  - lia.
  - by rewrite app_nil_r.
  - intros Hn _. by rewrite En, Et.
Qed.

Lemma reading_spec (p : nat) (σ : world) :
  wf σ → reading p σ = true →
  p ∈ loops σ ∧
  ∃ c l, heap σ !! p = Some c ∧ sessionID c ≠ "" ∧ closed (send c) = false ∧
         is_Some (conn c) ∧ sendq (send c) = [] ∧
         clients σ !! sessionID c = Some l ∧ p ∈ l.
Proof.
  intros Hwf. unfold reading. intros [Hp Hq]%andb_true_iff.
  apply bool_decide_eq_true in Hp. split; [done |].
  destruct (wf_loop σ Hwf p Hp) as (c & l & Hc & ? & ? & ? & ? & ?).
  rewrite Hc in Hq. apply bool_decide_eq_true in Hq. exists c, l. done.
Qed.

Lemma handleSessionUpdate_wf (sid payload : string) (σ : world) :
  wf σ →
  ∃ σ', handleSessionUpdate wall (topic sid) payload σ = Done σ' ∧ frame_only σ σ'.
Proof.
  intros Hwf. unfold handleSessionUpdate, topic.
  rewrite slice_from_append. cbn [bind].
  set (σ1 := log _ σ). assert (frame_only σ σ1) as Hf1 by apply frame_only_log.
  destruct (unmarshal payload) as [st|].
  2:{ eexists. split; [done |]. eapply frame_only_trans; [exact Hf1 | apply frame_only_log]. }
  destruct (broadcastState_frame wall sid st σ1) as (σ' & -> & Hf2).
  { intros l Hl. eapply all_open_frame; [| exact Hf1].
    intros p c Hp Hc.
    destruct (wf_bucket σ Hwf sid l p Hl Hp) as (Hloop & _).
    destruct (wf_loop σ Hwf p Hloop) as (c' & _ & Hc' & _ & Hopen & _). congruence. }
  eexists. split; [done |]. exact (frame_only_trans _ _ _ Hf1 Hf2).
Qed.

(** Every event takes a well-formed node to a well-formed node, without
    a panic; the buckets gain at most one connection, and the counter
    follows them as long as it does not wrap. *)
Lemma step_wf (e : event) (σ : world) :
  wf σ →
  ∃ σ', step wall e σ = Done σ' ∧ wf σ' ∧
        total_clients σ' ≤ S (total_clients σ) ∧
        subscriptions σ' = subscriptions σ ++ subscribed_by e ∧
        (numClients σ = Z.of_nat (total_clients σ) →
         (Z.of_nat (total_clients σ) + 1 < 2 ^ 63)%Z →
         numClients σ' = Z.of_nat (total_clients σ')).
Proof.
  intros Hwf. destruct e as [sid isHostParam upgrade|p message|p|ch payload|p netOk];
    cbn [step].
  - by apply handleWebSocket_wf.
  - destruct (reading p σ) eqn:Hr.
    + destruct (reading_spec p σ Hwf Hr) as (_ & c & l & Hc & _ & Hopen & Hconn & _).
      destruct (handleClientMessage_frame p message σ c Hc Hopen Hconn) as (σ' & -> & Hf).
      exists σ'. split; [done |]. by apply frame_step.
    + exists σ. split; [done |]. apply frame_step; [done | apply frame_only_refl].
  - destruct (reading p σ) eqn:Hr.
    + destruct (reading_spec p σ Hwf Hr)
        as (Hloop & c & l & Hc & Hsid & Hopen & Hconn & Hq & Hl & Hpl).
      set (σa := with_loops (loops σ ∖ {[p]}) (log "Error reading message:" σ)).
      assert (wf (with_loops ({[p]} ∪ loops σa) σa)) as Hwa.
      { eapply wf_frame; [exact Hwf |]. split_and!; simpl; try done.
        - symmetry. by apply union_difference_singleton_L.
        - apply same_shape_refl. }
      destruct (cleanupClient_wf p σa c Hwa) as (σ' & -> & Hw' & Ht' & Es' & En');
        [simpl; set_solver | done | done |].
      exists σ'. change (total_clients σa) with (total_clients σ) in Ht'.
      split_and!; try done; [lia | by rewrite app_nil_r |].
      intros Hn Hlt. rewrite En'. change (numClients σa) with (numClients σ).
      rewrite Hn, wrap64_id by lia. lia.
    + exists σ. split; [done |]. apply frame_step; [done | apply frame_only_refl].
  - case_bool_decide as Hsub.
    + destruct (wf_subs σ Hwf ch Hsub) as [sid ->].
      destruct (handleSessionUpdate_wf sid payload σ Hwf) as (σ' & -> & Hf).
      exists σ'. split; [done |]. by apply frame_step.
    + exists σ. split; [done |]. apply frame_step; [done | apply frame_only_refl].
  - case_bool_decide as Hpump.
    + destruct (wf_pump σ Hwf p Hpump) as (c & Hc & Hconn).
      destruct (writePump_frame p netOk σ c Hc Hconn) as (σ' & -> & Hf).
      exists σ'. split; [done |]. by apply frame_step.
    + exists σ. split; [done |]. apply frame_step; [done | apply frame_only_refl].
Qed.

Lemma wf_init : wf init.
Proof.
  split; simpl.
  - intros sid l p Hl. by rewrite lookup_empty in Hl.
  - intros sid l Hl. by rewrite lookup_empty in Hl.
  - intros p Hp. by apply elem_of_empty in Hp.
  - intros p Hp. by apply elem_of_empty in Hp.
  - intros ch Hch. by apply elem_of_nil in Hch.
  - unfold total_clients. simpl. by rewrite map_fold_empty.
Qed.

(** A run from a well-formed node never panics and keeps the node
    well-formed. *)
Lemma run_wf (evs : list event) (σ : world) :
  wf σ →
  ∃ σ', run wall evs σ = Done σ' ∧ wf σ' ∧
        total_clients σ' ≤ total_clients σ + length evs ∧
        subscriptions σ' = subscriptions σ ++ flat_map subscribed_by evs ∧
        (numClients σ = Z.of_nat (total_clients σ) →
         (Z.of_nat (total_clients σ + length evs) < 2 ^ 63)%Z →
         numClients σ' = Z.of_nat (total_clients σ')).
Proof.
  revert σ. induction evs as [|e evs IH]; intros σ Hwf; cbn [run].
  { exists σ. rewrite app_nil_r. split_and!; try done. simpl. lia. }
  destruct (step_wf e σ Hwf) as (σ1 & -> & Hw1 & Ht1 & Es1 & En1). cbn [bind].
  destruct (IH σ1 Hw1) as (σ' & -> & Hw' & Ht' & Es' & En').
  exists σ'. split_and!; try done.
  - simpl. lia.
  - rewrite Es', Es1. simpl. by rewrite app_assoc.
  - intros Hn Hlt. simpl in Hlt. apply En'; [apply En1; [done | lia] | lia].
Qed.

End transitions.

Section queues.
Import Node.

Lemma offer_open (m : string) (ch : Chan) :
  closed ch = false →
  offer m ch = if decide (length (buf ch) < send_capacity)
               then Sent {| buf := buf ch ++ [m]; closed := false; sendq := sendq ch |}
               else WouldBlock.
Proof. intros Hopen. unfold offer. by rewrite Hopen. Qed.

Lemma offered_closed (msgs : list string) (ch : Chan) :
  closed ch = false → closed (offered msgs ch) = false.
Proof.
  revert ch. induction msgs as [|m msgs IH]; intros ch Hopen; simpl; [done |].
  rewrite offer_open by done. case_decide; by apply IH.
Qed.

Lemma offered_app (msgs1 msgs2 : list string) (ch : Chan) :
  offered (msgs1 ++ msgs2) ch = offered msgs2 (offered msgs1 ch).
Proof.
  revert ch. induction msgs1 as [|m msgs1 IH]; intros ch; simpl; [done |].
  destruct (offer m ch); apply IH.
Qed.

Lemma refused_app (msgs1 msgs2 : list string) (ch : Chan) :
  refused (msgs1 ++ msgs2) ch = refused msgs1 ch + refused msgs2 (offered msgs1 ch).
Proof.
  revert ch. induction msgs1 as [|m msgs1 IH]; intros ch; simpl; [done |].
  destruct (offer m ch); rewrite IH; lia.
Qed.

(** What [n] offers leave in an open queue: the messages that fit are
    appended in order, the others are refused. *)
Lemma offered_buf (msgs : list string) (ch : Chan) :
  closed ch = false →
  buf (offered msgs ch) = buf ch ++ take (send_capacity - length (buf ch)) msgs ∧
  sendq (offered msgs ch) = sendq ch ∧
  refused msgs ch = length msgs - (send_capacity - length (buf ch)).
Proof.
  revert ch. induction msgs as [|m msgs IH]; intros ch Hopen; simpl.
  { rewrite take_nil, app_nil_r. split_and!; try done. }
  rewrite offer_open by done. case_decide as Hroom.
  - destruct (IH {| buf := buf ch ++ [m]; closed := false; sendq := sendq ch |})
      as (-> & -> & ->); [done |]. simpl. rewrite length_app. simpl.
    replace (send_capacity - length (buf ch))
      with (S (send_capacity - (length (buf ch) + 1))) by lia.
    simpl. rewrite <- app_assoc. split_and!; try done; lia.
  - destruct (IH ch Hopen) as (-> & -> & ->).
    replace (send_capacity - length (buf ch)) with 0 by lia.
    rewrite !take_0. split_and!; try done. lia.
Qed.

Lemma offered_full (msgs : list string) (ch : Chan) :
  closed ch = false → ¬ length (buf ch) < send_capacity → offered msgs ch = ch.
Proof.
  intros Hopen Hfull. induction msgs as [|m msgs IH]; simpl; [done |].
  rewrite offer_open by done. by case_decide.
Qed.

Lemma with_send_same (c : ClientConnection) : with_send (send c) c = c.
Proof. by destruct c. Qed.

End queues.

Section broadcast.
Import Node.
Context `{!Marshal, !Unmarshal ClientMsg, !Unmarshal RedisState, !Unmarshal RawMessage}.
Variable wall : nat → Z.

Lemma sum_list_fmap_ext (f g : nat → nat) (l : list nat) :
  (∀ q, q ∈ l → f q = g q) → sum_list (f <$> l) = sum_list (g <$> l).
Proof.
  induction l as [|q l IH]; intros Hfg; csimpl; [done |].
  rewrite Hfg by left. rewrite IH; [done |]. intros q' Hq'. apply Hfg. by right.
Qed.

Lemma sum_list_fmap_plus (f g : nat → nat) (l : list nat) :
  sum_list ((λ q, f q + g q) <$> l) = sum_list (f <$> l) + sum_list (g <$> l).
Proof. induction l as [|q l IH]; csimpl; [done | rewrite IH; lia]. Qed.

Lemma sum_list_pos (f : nat → nat) (l : list nat) (p : nat) :
  p ∈ l → 0 < f p → 0 < sum_list (f <$> l).
Proof.
  induction l as [|q l IH]; [by intros ?%elem_of_nil |]. csimpl.
  intros [<-|Hp]%elem_of_cons Hf; [lia |]. specialize (IH Hp Hf). lia.
Qed.

Lemma world_eta (σ : world) : with_logs (logs σ) (with_heap (heap σ) σ) = σ.
Proof. by destruct σ. Qed.

(** The inner loop offers the payload once to every connection of the
    snapshot that has a socket, and logs one line per refusal. *)
Lemma broadcast_inner_exact (sid m : string) (todo : list nat) (σ : world) :
  NoDup todo → all_open todo σ →
  ∃ H',
    broadcast_inner sid m todo σ =
      Done (with_logs (logs σ ++ replicate (sum_list (refused_by σ [m] <$> todo))
                                           (drop_line sid))
                      (with_heap H' σ)) ∧
    ∀ p, H' !! p = if decide (p ∈ todo) then served [m] <$> heap σ !! p
                   else heap σ !! p.
Proof.
  revert σ. induction todo as [|p todo IH]; intros σ Hnd Hopen.
  { exists (heap σ). simpl. rewrite app_nil_r, world_eta. split; [done |].
    done. }
  apply NoDup_cons in Hnd as [Hp Hnd].
  assert (all_open todo σ) as Hopen'.
  { intros q c Hq. apply Hopen. by right. }
  assert (∀ (H' : gmap nat ClientConnection) (c' : option ClientConnection),
            (∀ q, H' !! q = if decide (q ∈ todo) then served [m] <$> heap σ !! q
                            else heap σ !! q) →
            served [m] <$> heap σ !! p = heap σ !! p →
            ∀ q, H' !! q = if decide (q ∈ p :: todo) then served [m] <$> heap σ !! q
                           else heap σ !! q) as Hskip.
  { intros H' c' HH' Hsame q. rewrite HH'.
    destruct (decide (q = p)) as [->|Hne].
    - rewrite decide_False by done. rewrite decide_True by left. done.
    - destruct (decide (q ∈ todo)) as [Hq|Hq].
      + rewrite decide_True by (by right). done.
      + rewrite decide_False; [done |]. by intros [?|?]%elem_of_cons. }
  cbn [broadcast_inner fmap list_fmap sum_list].
  unfold refused_by at 1.
  destruct (heap σ !! p) as [c|] eqn:Hc.
  2:{ destruct (IH σ Hnd Hopen') as (H' & -> & HH'). exists H'. split; [done |].
      by apply (Hskip H' None HH'). }
  destruct (conn c) as [s|] eqn:Hs.
  2:{ destruct (IH σ Hnd Hopen') as (H' & -> & HH'). exists H'. split; [done |].
      apply (Hskip H' None HH'). simpl. unfold served. by rewrite Hs. }
  assert (closed (send c) = false) as Hco by (eapply Hopen; [left | done]).
  unfold try_send. cbn [refused]. rewrite offer_open by done.
  case_decide as Hroom; cbn [bind].
  - set (ch := {| buf := buf (send c) ++ [m]; closed := false; sendq := sendq (send c) |}).
    set (σ1 := with_heap (<[p := with_send ch c]> (heap σ)) σ).
    assert (∀ q, q ∈ todo → heap σ1 !! q = heap σ !! q) as Hsame.
    { intros q Hq. simpl. apply lookup_insert_ne. by intros ->. }
    destruct (IH σ1 Hnd) as (H' & -> & HH').
    { intros q c' Hq. rewrite Hsame by done. by apply Hopen'. }
    exists H'. split.
    + rewrite (sum_list_fmap_ext (refused_by σ1 [m]) (refused_by σ [m])); [done |].
      intros q Hq. unfold refused_by. by rewrite Hsame.
    + intros q. rewrite HH'. destruct (decide (q = p)) as [->|Hne].
      * rewrite decide_False by done. rewrite decide_True by left.
        simpl. rewrite lookup_insert_eq, Hc. simpl. unfold served. rewrite Hs.
        simpl. rewrite offer_open by done. by rewrite decide_True by done.
      * assert (heap σ1 !! q = heap σ !! q) as -> by (simpl; by apply lookup_insert_ne).
        destruct (decide (q ∈ todo)) as [Hq|Hq].
        -- by rewrite decide_True by (by right).
        -- rewrite decide_False; [done |]. by intros [?|?]%elem_of_cons.
  - destruct (IH (log (drop_line sid) σ) Hnd) as (H' & -> & HH').
    { intros q c' Hq. by apply Hopen'. }
    exists H'. split.
    + simpl. by rewrite <- app_assoc.
    + apply (Hskip H' None HH'). simpl. unfold served. rewrite Hs.
      simpl. rewrite offer_open by done. rewrite decide_False by done.
      by rewrite with_send_same.
Qed.

Lemma served_nil (c : ClientConnection) : served [] c = c.
Proof. unfold served. destruct (conn c); [apply with_send_same | done]. Qed.

Lemma served_app (msgs1 msgs2 : list string) (c : ClientConnection) :
  served msgs2 (served msgs1 c) = served (msgs1 ++ msgs2) c.
Proof.
  unfold served. destruct (conn c) as [s|] eqn:Hs; simpl; rewrite Hs; [| done].
  by rewrite offered_app.
Qed.

Lemma served_conn (msgs : list string) (c : ClientConnection) :
  conn (served msgs c) = conn c.
Proof. unfold served. destruct (conn c) eqn:Hs; [done | by rewrite Hs]. Qed.

Lemma served_closed (msgs : list string) (c : ClientConnection) :
  closed (send c) = false → closed (send (served msgs c)) = false.
Proof.
  intros Hopen. unfold served. destruct (conn c); [| done]. simpl.
  by apply offered_closed.
Qed.

Lemma payloads_S (st : RawMessage) (t0 n : nat) :
  payloads wall st t0 (S n) =
    default "" (marshal (stateUpdate st (UnixMilli (wall t0)))) :: payloads wall st (S t0) n.
Proof.
  unfold payloads. cbn [seq fmap list_fmap]. rewrite Nat.add_0_r. f_equal.
  rewrite <- fmap_S_seq, <- list_fmap_compose. apply list_fmap_ext.
  intros _ j _. simpl. by rewrite Nat.add_succ_r.
Qed.

Lemma length_payloads (st : RawMessage) (t0 n : nat) : length (payloads wall st t0 n) = n.
Proof. unfold payloads. by rewrite length_fmap, length_seq. Qed.

Lemma lookup_payloads (st : RawMessage) (t0 n j : nat) (m : string) :
  (∀ t, is_Some (marshal (stateUpdate st t))) →
  payloads wall st t0 n !! j = Some m →
  marshal (stateUpdate st (UnixMilli (wall (t0 + j)))) = Some m.
Proof.
  intros Hok. unfold payloads. rewrite list_lookup_fmap.
  destruct (seq 0 n !! j) as [j'|] eqn:Hj; [| done].
  apply lookup_seq in Hj as [-> _]. simpl. intros [= <-].
  by destruct (Hok (UnixMilli (wall (t0 + j)))) as [m ->].
Qed.

Lemma world_eta_ticks (σ : world) :
  with_ticks (ticks σ + 0) (with_logs (logs σ ++ []) (with_heap (heap σ) σ)) = σ.
Proof. destruct σ. unfold with_ticks, with_logs, with_heap. simpl. by rewrite Nat.add_0_r, app_nil_r. Qed.

(** The outer loop: every connection of the snapshot that has a socket
    is offered, in order, one payload per connection of the snapshot
    that has a socket. *)
Lemma broadcast_outer_exact (sid : string) (st : RawMessage) (all todo : list nat)
    (σ : world) :
  NoDup all → all_open all σ → (∀ t, is_Some (marshal (stateUpdate st t))) →
  ∃ H',
    broadcast_outer wall sid st all todo σ =
      Done (with_ticks (ticks σ + length (filter (λ p, has_socket σ p) todo))
             (with_logs
                (logs σ ++
                 replicate
                   (sum_list (refused_by σ
                      (payloads wall st (ticks σ)
                         (length (filter (λ p, has_socket σ p) todo))) <$> all))
                   (drop_line sid))
                (with_heap H' σ))) ∧
    ∀ p, H' !! p =
         if decide (p ∈ all)
         then served (payloads wall st (ticks σ)
                        (length (filter (λ p, has_socket σ p) todo))) <$> heap σ !! p
         else heap σ !! p.
Proof.
  intros Hnd Hopen Hok. revert σ Hopen.
  induction todo as [|p todo IH]; intros σ Hopen.
  { exists (heap σ). cbn [broadcast_outer filter list_filter length payloads seq fmap list_fmap].
    assert (sum_list (refused_by σ [] <$> all) = 0) as ->.
    { clear. induction all as [|q all IH]; csimpl; [done |]. rewrite IH.
      unfold refused_by. destruct (heap σ !! q) as [c|]; [| done]. by destruct (conn c). }
    cbn [replicate]. rewrite world_eta_ticks. split; [done |].
    intros p. case_decide; [| done]. destruct (heap σ !! p); [| done].
    simpl. by rewrite served_nil. }
  cbn [broadcast_outer]. rewrite filter_cons.
  destruct (heap σ !! p) as [c|] eqn:Hc.
  2:{ assert (has_socket σ p = false) as Hp by (unfold has_socket; by rewrite Hc).
      destruct (decide (has_socket σ p)) as [Hp'|_]; [by rewrite Hp in Hp' | by apply IH]. }
  destruct (conn c) as [s|] eqn:Hs.
  2:{ assert (has_socket σ p = false) as Hp.
      { unfold has_socket. rewrite Hc, bool_decide_eq_false_2; [done |].
        rewrite Hs. by intros [? ?]. }
      destruct (decide (has_socket σ p)) as [Hp'|_]; [by rewrite Hp in Hp' | by apply IH]. }
  assert (has_socket σ p = true) as Hp.
  { unfold has_socket. rewrite Hc, bool_decide_eq_true_2; [done |]. rewrite Hs. by eexists. }
  destruct (decide (has_socket σ p)) as [_|Hp']; [| by rewrite Hp in Hp'].
  cbn [length]. set (n' := length (filter (λ p, has_socket σ p) todo)).
  unfold now_UnixMilli.
  destruct (Hok (UnixMilli (wall (ticks σ)))) as [payload Hpayload]. rewrite Hpayload.
  set (σ0 := with_ticks (S (ticks σ)) σ).
  destruct (broadcast_inner_exact sid payload all σ0 Hnd) as (H1 & -> & HH1); [done |].
  cbn [bind].
  set (σ1 := with_logs _ (with_heap H1 σ0)).
  assert (∀ q, heap σ1 !! q = if decide (q ∈ all) then served [payload] <$> heap σ !! q
                              else heap σ !! q) as Hh1 by exact HH1.
  assert (∀ q, has_socket σ1 q = has_socket σ q) as Hsock.
  { intros q. unfold has_socket. rewrite Hh1. case_decide; [| done].
    destruct (heap σ !! q) as [cq|]; [| done]. simpl. by rewrite served_conn. }
  assert (all_open all σ1) as Hopen1.
  { intros q cq Hq. rewrite Hh1, decide_True by done.
    destruct (heap σ !! q) as [cq0|] eqn:Hq0; [| done]. simpl. intros [= <-].
    apply served_closed. by eapply Hopen. }
  destruct (IH σ1 Hopen1) as (H2 & -> & HH2).
  assert (length (filter (λ p, has_socket σ1 p) todo) = n') as En.
  { unfold n'. f_equal. apply list_filter_iff. intros q. by rewrite Hsock. }
  rewrite En in HH2 |- *.
  change (ticks σ1) with (S (ticks σ)) in HH2 |- *.
  rewrite payloads_S, Hpayload. cbn [default].
  set (msgs1 := payloads wall st (S (ticks σ)) n') in *.
  exists H2. split.
  - f_equal. unfold with_ticks, with_logs, with_heap. cbn. f_equal; [| lia].
    rewrite <- app_assoc, <- replicate_add. do 2 f_equal.
    rewrite <- sum_list_fmap_plus. apply sum_list_fmap_ext. intros q Hq.
    unfold refused_by. rewrite Hh1, decide_True by done.
    change (heap σ0 !! q) with (heap σ !! q).
    destruct (heap σ !! q) as [cq|]; [| done]. simpl.
    rewrite served_conn. unfold served. destruct (conn cq); [| done].
    simpl. destruct (offer payload (send cq)); simpl; lia.
  - intros q. rewrite HH2, Hh1. case_decide; [| done].
    destruct (heap σ !! q) as [cq|]; [| done]. simpl.
    by rewrite served_app.
Qed.

End broadcast.

Section node_claims.
Import Node.
Context `{!Codec}.
Variable wall : nat → Z.

Lemma with_rdb_same (σ : world) : with_rdb (rdb σ) σ = σ.
Proof. by destruct σ. Qed.

(** C1. A [stateUpdate] message from a host connection, with a keyspace
    that responds and holds a state for the session, both states being
    decodable: when the message's timestamp is strictly greater than the
    stored one, the state key is overwritten with the marshalled message
    state, which decodes to the message's state, and the same text is
    published on the session topic; otherwise nothing at all changes. *)
Theorem handleClientMessage_stateUpdate (client : nat) (c : ClientConnection)
    (message : string) (msg : ClientMsg) (stored : Redis.entry)
    (stateFromRedis stateFromMsg : RedisState) (σ : world) :
  heap σ !! client = Some c → isHost c = true →
  unmarshal message = Some msg → Type_ msg = "stateUpdate" →
  Redis.outages (rdb σ) = [] →
  Redis.kv (rdb σ) !! state_key (sessionID c) = Some stored →
  unmarshal (Redis.value stored) = Some stateFromRedis →
  unmarshal (raw_bytes (State msg)) = Some stateFromMsg →
  ∃ σ', handleClientMessage client message σ = Done σ' ∧
    if decide (Timestamp stateFromMsg > Timestamp stateFromRedis)%Z then
      ∃ stateJson,
        marshal (JRaw (State msg)) = Some stateJson ∧
        unmarshal stateJson = Some stateFromMsg ∧
        σ' = with_rdb
               (Redis.Db
                  (<[state_key (sessionID c) := Redis.Entry stateJson REDIS_MSG_EXPIRY]>
                     (Redis.kv (rdb σ)))
                  (Redis.published (rdb σ) ++ [(topic (sessionID c), stateJson)])
                  []) σ
    else σ' = σ.
Proof.
  intros Hc Hhost Hmsg Htype Hup Hkv Hsr Hsm.
  unfold handleClientMessage. rewrite Hc, Hmsg, Htype, Hhost. cbn [String.eqb Ascii.eqb].
  change ("stateUpdate" =? "stateUpdate")%string with true. cbv iota.
  unfold Redis.Get. rewrite attempt_healthy by done. rewrite Hkv.
  cbn [Redis.val_of]. rewrite Hsr, Hsm.
  case_decide as Hts.
  - destruct (marshal_raw_decodes (State msg) stateFromMsg Hsm) as (stateJson & Hm & Hd).
    rewrite Hm. cbn [default].
    unfold Redis.SetEX. cbn [rdb with_rdb]. rewrite attempt_healthy by done.
    unfold publishStateUpdate. rewrite Hm.
    unfold Redis.Publish. cbn [rdb with_rdb]. rewrite attempt_healthy by (simpl; done).
    eexists. split; [done |]. exists stateJson. split_and!; try done.
    cbn. by rewrite Hup.
  - eexists. split; [done |]. apply with_rdb_same.
Qed.

Lemma stateUpdate_marshals (st : RawMessage) :
  is_Some (marshal (JRaw st)) → ∀ t, is_Some (marshal (stateUpdate st t)).
Proof. intros Hst t. by apply marshal_stateUpdate. Qed.

(** What one call of [broadcastState] does to the node. *)
Lemma broadcastState_exact (sid : string) (st : RawMessage) (l : list nat) (σ : world) :
  clients σ !! sid = Some l → NoDup l → all_open l σ → is_Some (marshal (JRaw st)) →
  ∃ H',
    broadcastState wall sid st σ =
      Done (with_ticks (ticks σ + length (filter (λ p, has_socket σ p) l))
             (with_logs
                (logs σ ++
                 replicate
                   (sum_list (refused_by σ
                      (payloads wall st (ticks σ)
                         (length (filter (λ p, has_socket σ p) l))) <$> l))
                   (drop_line sid))
                (with_heap H' (ensure_lock sid σ)))) ∧
    ∀ p, H' !! p =
         if decide (p ∈ l)
         then served (payloads wall st (ticks σ)
                        (length (filter (λ p, has_socket σ p) l))) <$> heap σ !! p
         else heap σ !! p.
Proof.
  intros Hl Hnd Hopen Hst. unfold broadcastState.
  set (σL := ensure_lock sid σ).
  assert (clients σL = clients σ ∧ heap σL = heap σ ∧ logs σL = logs σ ∧ ticks σL = ticks σ)
    as (Ecl & Eh & Elg & Eti).
  { unfold σL, ensure_lock. by case_decide. }
  rewrite Ecl, Hl.
  destruct l as [|p0 l0] eqn:El.
  { exists (heap σ). cbn. rewrite <- Eh, <- Elg, <- Eti.
    rewrite world_eta_ticks. rewrite Eh. done. }
  rewrite <- El in *. clear El.
  destruct (broadcast_outer_exact wall sid st l l σL Hnd) as (H' & -> & HH').
  { intros p c Hp. rewrite Eh. by apply Hopen. }
  { by apply stateUpdate_marshals. }
  assert (∀ p, has_socket σL p = has_socket σ p) as Hsock.
  { intros p. unfold has_socket. by rewrite Eh. }
  assert (filter (λ p, has_socket σL p) l = filter (λ p, has_socket σ p) l) as Efil.
  { apply list_filter_iff. intros p. by rewrite Hsock. }
  rewrite Efil, Eti, Eh, Elg in *.
  exists H'. split; [| done].
  do 5 f_equal. apply sum_list_fmap_ext. intros p _. unfold refused_by. by rewrite Eh.
Qed.

(** C10. One call of [broadcastState] on a snapshot [l] without
    repetition, [n] of whose connections have a socket, their queues
    being open, for a state that marshals: [n] payloads are marshalled,
    the [j]-th with the [j]-th reading of the clock, and every
    connection of the snapshot that has a socket is offered all [n] of
    them, in order: those that fit are appended to its queue and the
    others are refused, so that enqueued and refused add up to [n]; the
    log grows by one line per refusal. *)
Theorem broadcastState_offers_n_times (sid : string) (st : RawMessage) (l : list nat)
    (σ : world) :
  clients σ !! sid = Some l → NoDup l → all_open l σ → is_Some (marshal (JRaw st)) →
  let n := length (filter (λ p, has_socket σ p) l) in
  ∃ σ' msgs,
    broadcastState wall sid st σ = Done σ' ∧
    length msgs = n ∧
    (∀ j m, msgs !! j = Some m →
            marshal (stateUpdate st (UnixMilli (wall (ticks σ + j)))) = Some m) ∧
    (∀ p c, p ∈ l → heap σ !! p = Some c → is_Some (conn c) →
       ∃ c', heap σ' !! p = Some c' ∧
             send c' = offered msgs (send c) ∧
             buf (send c') =
               buf (send c) ++ take (send_capacity - length (buf (send c))) msgs ∧
             length (buf (send c')) - length (buf (send c)) + refused msgs (send c) = n) ∧
    logs σ' = logs σ ++ replicate (sum_list (refused_by σ msgs <$> l)) (drop_line sid).
Proof.
  intros Hl Hnd Hopen Hst n.
  destruct (broadcastState_exact sid st l σ Hl Hnd Hopen Hst) as (H' & Hrun & HH').
  fold n in Hrun, HH'. set (msgs := payloads wall st (ticks σ) n) in *.
  eexists _, msgs. split; [exact Hrun |]. split; [apply length_payloads |].
  split; [| split].
  - intros j m. apply lookup_payloads. by apply stateUpdate_marshals.
  - intros p c Hp Hc [s Hs]. cbn [heap with_ticks with_logs with_heap].
    rewrite HH', decide_True, Hc by done. simpl.
    eexists. split; [done |]. unfold served. rewrite Hs. cbn [send with_send].
    destruct (offered_buf msgs (send c)) as (Hbuf & _ & Href); [by eapply Hopen |].
    split_and!; try done. rewrite Hbuf, Href, length_app, length_take.
    unfold msgs at 1 2. rewrite length_payloads. lia.
  - done.
Qed.

(** C2. A message received on the topic of the session [sid], whose
    payload is accepted as a state, with the bucket [l] of the session
    free of repetition and its queues open. Every connection of the
    bucket with a socket and room in its queue gets, right behind what
    was queued, the [stateUpdate] that carries this state and the
    reading of the clock in milliseconds; for one whose queue is full
    the queue stays as it is and a drop is logged; this holds whatever
    the state of the other queues. Connections outside the bucket are
    not touched. *)
Theorem handleSessionUpdate_delivers (sid payload : string) (st : RawMessage)
    (l : list nat) (σ : world) :
  unmarshal payload = Some st →
  clients σ !! sid = Some l → NoDup l → all_open l σ →
  ∃ σ', handleSessionUpdate wall (topic sid) payload σ = Done σ' ∧
    (∀ p c, p ∈ l → heap σ !! p = Some c → is_Some (conn c) →
       ∃ c', heap σ' !! p = Some c' ∧
         if decide (length (buf (send c)) < send_capacity) then
           ∃ m, marshal (stateUpdate st (UnixMilli (wall (ticks σ)))) = Some m ∧
                buf (send c') !! length (buf (send c)) = Some m
         else
           send c' = send c ∧
           drop_line sid ∈ drop (length (logs σ)) (logs σ')) ∧
    (∀ p, p ∉ l → heap σ' !! p = heap σ !! p).
Proof.
  intros Hpayload Hl Hnd Hopen.
  pose proof (unmarshal_raw_valid payload st Hpayload) as Hst.
  unfold handleSessionUpdate, topic. rewrite slice_from_append. cbn [bind].
  rewrite Hpayload.
  set (σ1 := log _ σ).
  destruct (broadcastState_exact sid st l σ1 Hl Hnd Hopen Hst) as (H' & -> & HH').
  change (heap σ1) with (heap σ) in HH'. change (ticks σ1) with (ticks σ) in HH' |- *.
  set (n := length (filter (λ p, has_socket σ1 p) l)) in *.
  set (msgs := payloads wall st (ticks σ) n) in *.
  eexists. split; [done |]. cbn [heap with_ticks with_logs with_heap logs]. split.
  2:{ intros p Hp. by rewrite HH', decide_False. }
  intros p c Hp Hc [s Hs]. rewrite HH', decide_True, Hc by done. simpl.
  eexists. split; [done |]. unfold served. rewrite Hs. cbn [send with_send].
  assert (closed (send c) = false) as Hco by by eapply Hopen.
  assert (0 < n) as Hn.
  { unfold n. assert (p ∈ filter (λ p, has_socket σ1 p) l) as Hin.
    { apply list_elem_of_filter. split; [| done]. unfold has_socket.
      change (heap σ1) with (heap σ). rewrite Hc, Hs. by apply bool_decide_pack. }
    destruct (filter _ l); [by apply elem_of_nil in Hin | simpl; lia]. }
  destruct (offered_buf msgs (send c) Hco) as (Hbuf & _ & Href).
  case_decide as Hroom.
  - assert (∃ m, msgs !! 0 = Some m) as [m Hm].
    { apply lookup_lt_is_Some. unfold msgs. rewrite length_payloads. done. }
    exists m. split.
    + pose proof (lookup_payloads wall st (ticks σ) n 0 m (stateUpdate_marshals st Hst) Hm)
        as Hm'. by rewrite Nat.add_0_r in Hm'.
    + rewrite Hbuf, lookup_app_r by lia. rewrite Nat.sub_diag, lookup_take_lt by lia. done.
  - split; [by apply offered_full |].
    unfold σ1 at 1. cbn [logs log with_logs]. rewrite <- app_assoc, drop_app_length.
    apply elem_of_cons. right.
    assert (0 < sum_list (refused_by σ1 msgs <$> l)) as Hpos.
    { apply (sum_list_pos _ l p Hp). unfold refused_by.
      change (heap σ1) with (heap σ). rewrite Hc, Hs, Href.
      unfold msgs. rewrite length_payloads. lia. }
    destruct (sum_list _); [lia |]. by left.
Qed.

End node_claims.

Section reachable.
Import Node.
Context `{!Marshal, !Unmarshal ClientMsg, !Unmarshal RedisState, !Unmarshal RawMessage}.
Variable wall : nat → Z.

Lemma wf_boot (db : Redis.t) : wf (boot db).
Proof. eapply wf_frame; [apply wf_init | apply frame_only_rdb]. Qed.

Lemma total_clients_boot (db : Redis.t) : total_clients (boot db) = 0.
Proof. unfold total_clients. simpl. by rewrite map_fold_empty. Qed.

Lemma wf_all_open (σ : world) (sid : string) (l : list nat) :
  wf σ → clients σ !! sid = Some l → all_open l σ.
Proof.
  intros Hwf Hl p c Hp Hc.
  destruct (wf_bucket σ Hwf sid l p Hl Hp) as (Hloop & _).
  destruct (wf_loop σ Hwf p Hloop) as (c' & _ & Hc' & _ & Hopen & _). congruence.
Qed.


(** C9, as the code has it. After every sequence of events, from a node
    that has just started, the subscriptions are, in order, one to the
    topic of its session for each connection that was accepted: also
    for a session that has a subscription already, and none is ever
    removed. *)
Theorem subscriptions_one_per_connection (db : Redis.t) (evs : list event) :
  ∃ σ, run wall evs (boot db) = Done σ ∧
       subscriptions σ = flat_map subscribed_by evs.
Proof.
  destruct (run_wf wall evs (boot db) (wf_boot db)) as (σ & Hrun & _ & _ & Hsub & _).
  exists σ. split; [done |]. by rewrite Hsub.
Qed.

End reachable.

Section scenario.
Import Node Scenario MiniJson.

Lemma two_viewers_wf : wf two_viewers.
Proof.
  destruct (run_wf wall joins (boot db) (wf_boot db)) as (σ & Hrun & Hwf & _).
  unfold two_viewers. rewrite Hrun. exact Hwf.
Qed.

Lemma two_viewers_bucket : clients two_viewers !! "s" = Some [0; 1].
Proof. vm_compute. reflexivity. Qed.

(** C1 in the scenario: the host's update with timestamp 2000 replaces
    the stored state with timestamp 1000 and is published. *)
Lemma handleClientMessage_stateUpdate_witness :
  ∃ σ', handleClientMessage 0 host_update two_viewers = Done σ' ∧
        Redis.published (rdb σ') = [(topic "s", state_text false 10 2000)] ∧
        Redis.value <$> Redis.kv (rdb σ') !! state_key "s"
          = Some (state_text false 10 2000).
Proof.
  destruct (handleClientMessage_stateUpdate 0 host_connection host_update
              {| Type_ := "stateUpdate"; State := Raw (state_text false 10 2000) |}
              (Redis.Entry (state_text true 0 1000) 86400)
              {| Paused := true; CurrentTime := Fin 0; PlaybackRate := Fin 1;
                 Timestamp := 1000 |}
              {| Paused := false; CurrentTime := Fin 10; PlaybackRate := Fin 1;
                 Timestamp := 2000 |}
              two_viewers) as (σ' & Hrun & Hres); try (vm_compute; reflexivity).
  exists σ'. split; [exact Hrun |].
  cbn [Timestamp] in Hres.
  destruct (decide (2000 > 1000)%Z) as [_|Hn] in Hres; [| by destruct Hn].
  destruct Hres as (stateJson & Hm & _ & ->).
  vm_compute in Hm. injection Hm as <-. vm_compute. split; reflexivity.
Defined.

(** C2 in the scenario: a message on the topic of [s] reaches the host
    and the participant. *)
Lemma handleSessionUpdate_delivers_witness :
  ∃ σ', handleSessionUpdate wall (topic "s") (state_text false 10 2000) two_viewers
        = Done σ'.
Proof.
  destruct (handleSessionUpdate_delivers wall "s" (state_text false 10 2000)
              (Raw (state_text false 10 2000)) [0; 1] two_viewers)
    as (σ' & Hrun & _).
  - vm_compute. reflexivity.
  - exact two_viewers_bucket.
  - exact (wf_nodup _ two_viewers_wf _ _ two_viewers_bucket).
  - exact (wf_all_open _ _ _ two_viewers_wf two_viewers_bucket).
  - exists σ'. exact Hrun.
Defined.

(** C10 in the scenario: with two connections in the bucket, the queue
    of the host, empty before, holds two messages after one broadcast. *)
Lemma broadcastState_offers_n_times_witness :
  ∃ σ', broadcastState wall "s" (Raw (state_text false 10 2000)) two_viewers = Done σ' ∧
        (λ c, length (buf (send c))) <$> heap σ' !! 0 = Some 2.
Proof.
  destruct (broadcastState_offers_n_times wall "s" (Raw (state_text false 10 2000))
              [0; 1] two_viewers)
    as (σ' & msgs & Hrun & Hlen & _ & Hconn & _).
  - exact two_viewers_bucket.
  - exact (wf_nodup _ two_viewers_wf _ _ two_viewers_bucket).
  - exact (wf_all_open _ _ _ two_viewers_wf two_viewers_bucket).
  - vm_compute. by eexists.
  - exists σ'. split; [exact Hrun |].
    destruct (Hconn 0 host_connection) as (c' & -> & _ & Hbuf & _).
    + by left.
    + vm_compute. reflexivity.
    + by eexists.
    + simpl. rewrite Hbuf. simpl. rewrite length_take, Hlen. vm_compute. reflexivity.
Defined.


(** C9, the claim as stated fails: a host and then a participant attach
    to the session [s]; both are in its bucket and the node holds two
    subscriptions to the topic of [s]. *)
Lemma second_viewer_subscribes_again :
  ∃ σ, run wall joins (boot db) = Done σ ∧
       clients σ !! "s" = Some [0; 1] ∧
       subscriptions σ = [topic "s"; topic "s"].
Proof. eexists. split; vm_compute; [| split]; reflexivity. Qed.



End scenario.

(** * Further properties of the director *)

Section session_round_trip.
Import Director.
Context `{!Marshal, !Unmarshal StreamingServer}.

Lemma session_key_ne_host (k : string) : "session:" +:+ k ≠ "session:" +:+ k +:+ ":host".
Proof. intros Heq%(f_equal String.length). rewrite !length_append in Heq. simpl in Heq. lia. Qed.

Lemma session_key_ne_state (k : string) : "session:" +:+ k ≠ "session:" +:+ k +:+ ":state".
Proof. intros Heq%(f_equal String.length). rewrite !length_append in Heq. simpl in Heq. lia. Qed.

Lemma host_key_ne_state (k : string) :
  "session:" +:+ k +:+ ":host" ≠ "session:" +:+ k +:+ ":state".
Proof. intros Heq%(f_equal String.length). rewrite !length_append in Heq. simpl in Heq. lia. Qed.

(** The answer of [validateSession] over a keyspace that responds. *)
Lemma validateSession_healthy (visit : list StreamingServer) (k t : string) (db : Redis.t) :
  Redis.outages db = [] → before_sep "?" k = k →
  validateSession visit {| path := validate_path k; hostToken_param := t |} db =
    Done (match Redis.kv db !! ("session:" +:+ k) with
          | None => respondJSON 200 (JObject [("valid", JBool false);
                                              ("error", JString "session_not_found")])
          | Some _ =>
              match getLeastLoadedServer visit with
              | None => respondError 503 "no_streaming_servers_available"
              | Some server =>
                  respondJSON 200
                    (JObject [("valid", JBool true);
                              ("isHost",
                               JBool (negb (t =? "")%string &&
                                      match Redis.kv db !! ("session:" +:+ k +:+ ":host") with
                                      | Some e => (Redis.value e =? t)%string
                                      | None => false
                                      end));
                              ("streaming_url", JString (streaming_url server))])
              end
          end, db).
Proof.
  intros Hup Hk. unfold validateSession.
  pose proof (validate_path_key k Hk) as Hpath. cbn [path hostToken_param].
  destruct (slice_from _ (validate_path k)) as [key0|] eqn:Hs; [| done].
  cbn [bind] in Hpath |- *. rewrite Hpath. cbn [bind].
  unfold Redis.Exists, Redis.Get. rewrite !attempt_healthy by done.
  destruct (Redis.kv db !! ("session:" +:+ k)) as [e|]; [| done].
  destruct (t =? "")%string; cbn [negb andb].
  - by destruct (getLeastLoadedServer visit).
  - destruct (Redis.kv db !! ("session:" +:+ k +:+ ":host")) as [e0|];
      by destruct (getLeastLoadedServer visit).
Qed.

(** X1. A session that [createSession] has just stored, over a keyspace
    that responds, validates: a validate request for its key with any
    token [t] is answered 200 with [valid=true], with [isHost] true
    exactly when [t] is not empty and equals the host token that was
    stored, and with the normalised URL of the selected node; it is
    answered 503 when no node is selected. *)
Theorem createSession_then_validateSession (visit : list StreamingServer)
    (k h t : string) (now : Z) (db : Redis.t) :
  Redis.outages db = [] → before_sep "?" k = k →
  let '(created, db1) := createSession k h now db in
  status created = 200%Z ∧
  validateSession visit {| path := validate_path k; hostToken_param := t |} db1 =
    Done (match getLeastLoadedServer visit with
          | None => respondError 503 "no_streaming_servers_available"
          | Some server =>
              respondJSON 200
                (JObject [("valid", JBool true);
                          ("isHost", JBool (negb (t =? "")%string && (h =? t)%string));
                          ("streaming_url", JString (streaming_url server))])
          end, db1).
Proof.
  intros Hup Hk. rewrite createSession_healthy by done. split; [done |].
  rewrite validateSession_healthy by done. cbn [Redis.kv].
  rewrite (lookup_insert_ne _ _ ("session:" +:+ k)) by (symmetry; apply session_key_ne_state).
  rewrite (lookup_insert_ne _ _ ("session:" +:+ k)) by (symmetry; apply session_key_ne_host).
  rewrite lookup_insert_eq.
  rewrite (lookup_insert_ne _ _ ("session:" +:+ k +:+ ":host"))
    by (symmetry; apply host_key_ne_state).
  rewrite lookup_insert_eq. done.
Qed.

Lemma attempt_keeps (db : Redis.t) :
  Redis.kv (Redis.attempt db).2 = Redis.kv db ∧
  Redis.published (Redis.attempt db).2 = Redis.published db.
Proof. unfold Redis.attempt. by destruct (Redis.outages db). Qed.

Lemma Exists_keeps (key : string) (db : Redis.t) :
  Redis.kv (Redis.Exists key db).2 = Redis.kv db ∧
  Redis.published (Redis.Exists key db).2 = Redis.published db.
Proof.
  unfold Redis.Exists. pose proof (attempt_keeps db) as Hk.
  destruct (Redis.attempt db) as [[] db']; done.
Qed.

Lemma Get_keeps (key : string) (db : Redis.t) :
  Redis.kv (Redis.Get key db).2 = Redis.kv db ∧
  Redis.published (Redis.Get key db).2 = Redis.published db.
Proof.
  unfold Redis.Get. pose proof (attempt_keeps db) as Hk.
  destruct (Redis.attempt db) as [[] db']; [done |]. by destruct (Redis.kv db' !! key).
Qed.

(** X2. [validateSession] behind the recovery middleware writes nothing:
    whatever the request, the registry and the outages of the keyspace,
    the keys and the published messages are afterwards what they were
    before. *)
Theorem validateSession_reads_only (visit : list StreamingServer) (r : ValidateRequest)
    (db : Redis.t) :
  let '(resp, db') := recovered db (validateSession visit r db) in
  Redis.kv db' = Redis.kv db ∧ Redis.published db' = Redis.published db.
Proof.
  unfold validateSession.
  destruct (slice_from _ (path r)) as [key0|]; [| done]. cbn [bind].
  destruct (slice_upto_len_minus _ _) as [key|]; [| done]. cbn [bind].
  pose proof (Exists_keeps ("session:" +:+ key) db) as [Hk1 Hp1].
  destruct (Redis.Exists _ db) as [[[| |]|] db1]; simpl in Hk1, Hp1; try done.
  all: destruct (negb (hostToken_param r =? "")%string).
  all: try (pose proof (Get_keeps ("session:" +:+ key +:+ ":host") db1) as [Hk2 Hp2];
            destruct (Redis.Get _ db1) as [[] db2]; simpl in Hk2, Hp2).
  all: destruct (getLeastLoadedServer visit); simpl; split; congruence.
Qed.

End session_round_trip.

Section paths.

Lemma before_sep_cut (sep : ascii) (s1 s2 : string) :
  before_sep sep s1 = s1 → before_sep sep (s1 +:+ String sep s2) = s1.
Proof.
  induction s1 as [|a s1 IH]; simpl.
  - by rewrite Ascii.eqb_refl.
  - destruct (Ascii.eqb a sep); [done |]. intros [= Hs1]. by rewrite IH.
Qed.

Lemma before_sep_stake (sep : ascii) (n : nat) (s : string) :
  before_sep sep s = s → before_sep sep (stake n s) = stake n s.
Proof.
  revert n. induction s as [|a s IH]; intros [|n]; simpl; try done.
  destruct (Ascii.eqb a sep); [done |]. intros [= Hs]. by rewrite IH.
Qed.

Lemma append_cons (a : ascii) (s t : string) : String a s +:+ t = String a (s +:+ t).
Proof. done. Qed.

Lemma append_assoc (s1 s2 s3 : string) : (s1 +:+ s2) +:+ s3 = s1 +:+ s2 +:+ s3.
Proof. induction s1 as [|a s1 IH]; [done |]. rewrite !append_cons. by rewrite IH. Qed.

Lemma stake_sdrop (n : nat) (s : string) : stake n s +:+ sdrop n s = s.
Proof.
  revert n. induction s as [|a s IH]; intros [|n]; try done.
  change (String a (stake n s +:+ sdrop n s) = String a s). by rewrite IH.
Qed.

(** [strings.TrimSuffix] returns its argument or cuts the suffix off. *)
Lemma TrimSuffix_spec (s suffix : string) :
  TrimSuffix s suffix = s ∨ TrimSuffix s suffix +:+ suffix = s.
Proof.
  unfold TrimSuffix. case_decide; [| by left].
  destruct (String.eqb_spec (sdrop (String.length s - String.length suffix) s) suffix)
    as [Heq|]; [| by left].
  right. rewrite <- Heq at 2. apply stake_sdrop.
Qed.

Lemma prefix_http (s : string) :
  String.prefix "http" s = true ↔ ∃ rest, s = "http" +:+ rest.
Proof.
  split.
  - destruct s as [|a1 [|a2 [|a3 [|a4 rest]]]]; simpl; try done;
      repeat (case_match; try done).
    all: repeat match goal with H : Ascii.eqb _ _ = true |- _ => apply Ascii.eqb_eq in H end.
    all: subst.
    all: intros _; by exists rest.
  - intros [rest ->]. simpl. by destruct rest.
Qed.

Lemma prefix_http_trimmed (s rest : string) :
  s +:+ "/" = "http" +:+ rest → String.prefix "http" s = true.
Proof.
  destruct s as [|a1 [|a2 [|a3 [|a4 s]]]]; rewrite ?append_cons; intros Heq;
    try discriminate Heq.
  injection Heq as -> -> -> -> _. simpl. by destruct s.
Qed.

End paths.

Section validate_edges.
Import Director.
Context `{!Marshal, !Unmarshal StreamingServer}.

(** X3. A session key with a question mark in it is cut at the question
    mark before [/validate] is taken off its end. When fewer than nine
    characters stand before the question mark the handler panics on a
    slice out of range; otherwise the request is answered as the request
    for the key made of these characters without their last nine. *)
Theorem validateSession_question_mark (visit : list StreamingServer) (k rest t : string)
    (db : Redis.t) :
  before_sep "?" k = k →
  validateSession visit
    {| path := validate_path (k +:+ "?" +:+ rest); hostToken_param := t |} db =
  if decide (String.length k < String.length "/validate")
  then Panic "slice bounds out of range"
  else validateSession visit
         {| path := validate_path (stake (String.length k - String.length "/validate") k);
            hostToken_param := t |} db.
Proof.
  intros Hk.
  set (k' := stake (String.length k - String.length "/validate") k).
  assert (before_sep "?" k' = k') as Hk' by by apply before_sep_stake.
  pose proof (validate_path_key k' Hk') as Hpath'.
  unfold validateSession. cbn [path hostToken_param].
  destruct (slice_from _ (validate_path k')) as [key0|] eqn:Hs; [| done].
  cbn [bind] in Hpath'. cbn [bind]. rewrite Hpath'. cbn [bind].
  unfold validate_path at 1. rewrite slice_from_append. cbn [bind].
  rewrite append_assoc.
  replace (("?" +:+ rest) +:+ "/validate") with (String "?" (rest +:+ "/validate"))
    by reflexivity.
  rewrite before_sep_cut by done.
  unfold slice_upto_len_minus. fold k'.
  case_decide as Hlen; case_decide as Hlen'; try lia; done.
Qed.

(** X4. Keyspace errors in [validateSession]. When the existence check
    fails the request is answered 500 [internal_server_error]. When the
    existence check succeeds and only the read of the host token fails,
    the session still validates, with [isHost=false] whatever token was
    supplied. *)
Theorem validateSession_keyspace_errors (visit : list StreamingServer) (k t : string)
    (db : Redis.t) :
  before_sep "?" k = k →
  (Redis.down 0 db = true →
   ∃ db', validateSession visit {| path := validate_path k; hostToken_param := t |} db
          = Done (respondError 500 "internal_server_error", db')) ∧
  (Redis.down 0 db = false → Redis.down 1 db = true → t ≠ "" →
   is_Some (Redis.kv db !! ("session:" +:+ k)) →
   ∃ db', validateSession visit {| path := validate_path k; hostToken_param := t |} db
          = Done (match getLeastLoadedServer visit with
                  | None => respondError 503 "no_streaming_servers_available"
                  | Some server =>
                      respondJSON 200
                        (JObject [("valid", JBool true);
                                  ("isHost", JBool false);
                                  ("streaming_url", JString (streaming_url server))])
                  end, db')).
Proof.
  intros Hk. unfold validateSession.
  pose proof (validate_path_key k Hk) as Hpath. cbn [path hostToken_param].
  destruct (slice_from _ (validate_path k)) as [key0|] eqn:Hs; [| done].
  cbn [bind] in Hpath |- *. rewrite Hpath. cbn [bind].
  destruct db as [kv pub out]. unfold Redis.down, Redis.Exists, Redis.Get, Redis.attempt.
  cbn [Redis.outages Redis.kv Redis.published].
  split.
  - destruct out as [|[] out]; simpl; [done | | done]. intros _. by eexists.
  - destruct out as [|[] [|[] out]]; simpl; try done.
    intros _ _ Ht [e ->]. apply String.eqb_neq in Ht. rewrite Ht. simpl.
    destruct (getLeastLoadedServer visit); by eexists.
Qed.

(** X5. The URL handed to a validated client starts with [http]:
    [http://] is put before a registered URL that does not, and at most
    one final slash is cut off. *)
Theorem streaming_url_has_scheme (server : StreamingServer) :
  let base := if HasPrefix (URL server) "http" then URL server
              else "http://" +:+ URL server in
  HasPrefix (streaming_url server) "http" = true ∧
  (streaming_url server = base ∨ streaming_url server +:+ "/" = base).
Proof.
  intros base.
  assert (streaming_url server = TrimSuffix base "/") as ->.
  { unfold streaming_url, base. by destruct (HasPrefix (URL server) "http"). }
  assert (∃ rest, base = "http" +:+ rest) as [rest Hbase].
  { unfold base. destruct (HasPrefix (URL server) "http") eqn:Hp.
    - by apply prefix_http.
    - exists ("://" +:+ URL server). reflexivity. }
  split; [| apply TrimSuffix_spec].
  unfold HasPrefix. clearbody base. subst base.
  destruct (TrimSuffix_spec ("http" +:+ rest) "/") as [->|Heq].
  - apply prefix_http. by exists rest.
  - by eapply prefix_http_trimmed.
Qed.

End validate_edges.

Section selection_order.
Import Director.
Context `{!Marshal, !Unmarshal StreamingServer}.



Lemma flt_PInf (low : float64) : flt PInf low = false.
Proof. by destruct low. Qed.

(** A load that is not negative, divided by the capacity 0, is not below
    any threshold. *)
Lemma fdiv_by_zero (a : Z) (low : float64) :
  (0 ≤ a)%Z → flt (fdiv (float64_of_int a) (float64_of_int 0)) low = false.
Proof.
  intros Ha. unfold float64_of_int, fdiv.
  change (Qeq_bool (inject_Z 0) 0) with true. cbv iota.
  destruct (Qeq_bool (inject_Z a) 0); [done |].
  assert (Qle_bool 0 (inject_Z a) = true) as ->.
  { apply Qle_bool_iff. unfold Qle. simpl. lia. }
  apply flt_PInf.
Qed.

Lemma least_loaded_loop_zero_capacity (visit : list StreamingServer)
    (best : option StreamingServer) (low : float64) :
  least_loaded_loop
    (filter (λ s, ¬ (Capacity s = 0 ∧ 0 ≤ CurrentLoad s)%Z) visit) best low
  = least_loaded_loop visit best low.
Proof.
  revert best low. induction visit as [|s visit IH]; intros best low; [done |].
  rewrite filter_cons.
  destruct (decide (¬ (Capacity s = 0 ∧ 0 ≤ CurrentLoad s)%Z)) as [Hs|Hs].
  - cbn [least_loaded_loop]. by rewrite !IH.
  - apply dec_stable in Hs as [Hcap Hload]. rewrite IH.
    cbn [least_loaded_loop].
    destruct (negb (Status s =? "active")%string); [done |].
    by rewrite Hcap, fdiv_by_zero.
Qed.

Lemma least_loaded_loop_elem (visit : list StreamingServer)
    (best : option StreamingServer) (low : float64) (r : StreamingServer) :
  least_loaded_loop visit best low = Some r →
  best = Some r ∨ (r ∈ visit ∧ Status r = "active").
Proof.
  revert best low. induction visit as [|s visit IH]; intros best low; simpl.
  { by left. }
  destruct (String.eqb_spec (Status s) "active") as [Hact|Hina]; cbn [negb].
  - destruct (flt _ low).
    + intros [[= <-]|[Hr Ha]]%IH; right; split; try done; [left | by right].
    + intros [?|[Hr Ha]]%IH; [by left |]. right. split; [by right | done].
  - intros [?|[Hr Ha]]%IH; [by left |]. right. split; [by right | done].
Qed.

(** X7. A registry entry with the capacity 0 and a load that is not
    negative never counts: the division gives +Inf or NaN, the
    comparison with the threshold fails, and the selection is the one
    made without such entries. Whatever the capacities, a selected entry
    is an active entry of the registry that is not of this kind. *)
Theorem getLeastLoadedServer_zero_capacity (visit : list StreamingServer) :
  getLeastLoadedServer
    (filter (λ s, ¬ (Capacity s = 0 ∧ 0 ≤ CurrentLoad s)%Z) visit)
  = getLeastLoadedServer visit ∧
  match getLeastLoadedServer visit with
  | Some best =>
      best ∈ visit ∧ Status best = "active" ∧
      ¬ (Capacity best = 0 ∧ 0 ≤ CurrentLoad best)%Z
  | None => True
  end.
Proof.
  unfold getLeastLoadedServer.
  pose proof (least_loaded_loop_zero_capacity visit None (Fin 1)) as Heq.
  split; [done |].
  destruct (least_loaded_loop visit None (Fin 1)) as [best|] eqn:Hsel; [| done].
  pose proof Hsel as [?|[Hin Hact]]%least_loaded_loop_elem; [done |].
  apply least_loaded_loop_elem in Heq as [?|[Hin' _]]; [done |].
  split_and!; try done. by apply list_elem_of_filter in Hin' as [? _].
Qed.


End selection_order.

Section registry.
Import Director.
Context `{!Marshal, !Unmarshal StreamingServer}.

Lemma handleHeartbeat_dom (reqBody : string) (now : Z)
    (servers : gmap string StreamingServer) :
  dom (handleHeartbeat reqBody now servers).2 = dom servers.
Proof.
  unfold handleHeartbeat. destruct (unmarshal reqBody) as [hb|]; [| done].
  destruct (servers !! ID hb) as [existing|] eqn:Hhb; [| done].
  apply dom_insert_lookup_L. by eexists.
Qed.

(** X8. A heartbeat is answered 400 when its body does not decode and 200
    otherwise. It adds no entry and removes none. It changes at most the
    entry of the ID that it names: there the load becomes the reported
    one, the last ping the reading of the clock and the status
    [active]; the ID, URL, capacity and registration time of every
    entry stay, whatever the descriptor says. *)
Theorem handleHeartbeat_refreshes_one_entry (reqBody : string) (now : Z)
    (servers : gmap string StreamingServer) :
  let '(resp, servers') := handleHeartbeat reqBody now servers in
  status resp = (if unmarshal reqBody is Some _ then 200 else 400)%Z ∧
  dom servers' = dom servers ∧
  ∀ id s, servers !! id = Some s →
    ∃ s', servers' !! id = Some s' ∧
          ID s' = ID s ∧ URL s' = URL s ∧ Capacity s' = Capacity s ∧
          Registered s' = Registered s ∧
          match unmarshal reqBody with
          | Some hb =>
              if decide (ID hb = id)
              then CurrentLoad s' = CurrentLoad hb ∧ LastPing s' = Unix now ∧
                   Status s' = "active"
              else s' = s
          | None => s' = s
          end.
Proof.
  pose proof (handleHeartbeat_dom reqBody now servers) as Hdom. revert Hdom.
  unfold handleHeartbeat. destruct (unmarshal reqBody) as [hb|].
  2:{ intros _. split; [done |]. split; [done |]. intros id s Hs. by exists s. }
  cbn [snd]. intros Hdom. split; [done |]. split; [done |]. clear Hdom.
  destruct (servers !! ID hb) as [existing|] eqn:Hhb.
  - intros id s Hs. case_decide as Hid.
    + subst id. rewrite Hhb in Hs. injection Hs as ->.
      rewrite lookup_insert_eq. eexists. split; [done |]. done.
    + rewrite lookup_insert_ne by done. by exists s.
  - intros id s Hs. exists s. split_and!; try done.
    case_decide; [congruence | done].
Qed.

(** X9. An entry refreshed by a heartbeat survives every cleanup tick
    whose clock reading is at most 60 s later: it is still registered,
    with the status [active] and the reported load. *)
Theorem heartbeat_survives_cleanup (reqBody : string) (hb : StreamingServer)
    (now now' : Z) (servers : gmap string StreamingServer) :
  unmarshal reqBody = Some hb → is_Some (servers !! ID hb) →
  (- 2 ^ 63 ≤ Unix now' - Unix now ≤ 60)%Z →
  ∃ s, cleanupInactiveServers_tick now' (handleHeartbeat reqBody now servers).2 !! ID hb
         = Some s ∧
       Status s = "active" ∧ CurrentLoad s = CurrentLoad hb ∧ LastPing s = Unix now.
Proof.
  intros Hb [existing Hex] Hnow. unfold handleHeartbeat. rewrite Hb, Hex. cbn [snd].
  eexists. split.
  - unfold cleanupInactiveServers_tick. apply map_lookup_filter_Some. split.
    + apply lookup_insert_eq.
    + cbn [snd LastPing with_heartbeat]. rewrite wrap64_id by lia. lia.
  - done.
Qed.

Lemma registry_step_absent (e : registry_event) (id : string)
    (servers : gmap string StreamingServer) :
  (∀ b n1 n2, e ≠ Register b n1 n2) →
  servers !! id = None → registry_step e servers !! id = None.
Proof.
  intros Hreg Hid. destruct e as [b n1 n2|b n|n]; cbn [registry_step].
  - by destruct (Hreg b n1 n2).
  - apply not_elem_of_dom. rewrite handleHeartbeat_dom. by apply not_elem_of_dom.
  - unfold cleanupInactiveServers_tick. apply map_lookup_filter_None. by left.
Qed.

Lemma registry_step_keys (e : registry_event) (servers : gmap string StreamingServer) :
  map_Forall (λ id s, ID s = id) servers →
  map_Forall (λ id s, ID s = id) (registry_step e servers).
Proof.
  intros Hinv. destruct e as [b n1 n2|b n|n]; cbn [registry_step].
  - unfold registerStreamingServer. destruct (unmarshal b) as [server|]; [| done].
    cbn [snd]. by apply map_Forall_insert_2.
  - unfold handleHeartbeat. destruct (unmarshal b) as [hb|]; [| done]. cbn [snd].
    destruct (servers !! ID hb) as [existing|] eqn:Hex; [| done].
    apply map_Forall_insert_2; [| done]. cbn [ID with_heartbeat].
    by apply (Hinv _ _ Hex).
  - unfold cleanupInactiveServers_tick. intros id' s' [Hs _]%map_lookup_filter_Some.
    by apply Hinv.
Qed.

Lemma registry_run_keys (evs : list registry_event) (servers : gmap string StreamingServer) :
  map_Forall (λ id s, ID s = id) servers →
  map_Forall (λ id s, ID s = id) (registry_run evs servers).
Proof.
  unfold registry_run. revert servers.
  induction evs as [|e evs IH]; intros servers Hinv; [done |].
  cbn [foldl]. apply IH. by apply registry_step_keys.
Qed.

Lemma registry_run_absent (evs : list registry_event) (id : string)
    (servers : gmap string StreamingServer) :
  (∀ b n1 n2, Register b n1 n2 ∉ evs) →
  servers !! id = None → registry_run evs servers !! id = None.
Proof.
  unfold registry_run. revert servers.
  induction evs as [|e evs IH]; intros servers Hreg Hgone; [done |].
  cbn [foldl]. apply IH.
  - intros b n1 n2 Hin. apply (Hreg b n1 n2). by right.
  - apply registry_step_absent; [| done].
    intros b n1 n2 ->. apply (Hreg b n1 n2). left.
Qed.

Lemma cleanupInactiveServers_tick_removes (id : string) (s : StreamingServer) (now : Z)
    (servers : gmap string StreamingServer) :
  servers !! id = Some s → (60 < Unix now - LastPing s < 2 ^ 63)%Z →
  cleanupInactiveServers_tick now servers !! id = None.
Proof.
  intros Hs Hold. unfold cleanupInactiveServers_tick. apply map_lookup_filter_None. right.
  intros s' Hs'. rewrite Hs in Hs'. injection Hs' as <-. cbn [snd].
  rewrite wrap64_id by lia. lia.
Qed.

(** X10. An entry whose last ping is more than 60 s old at a cleanup tick
    is removed, and no sequence of heartbeats and cleanup ticks brings
    it back: a heartbeat for an ID that is not registered is answered
    but not recorded, so that only a new registration restores the
    node. *)
Theorem silent_node_stays_removed (id : string) (s : StreamingServer) (now : Z)
    (servers : gmap string StreamingServer) (evs : list registry_event) :
  servers !! id = Some s →
  (60 < Unix now - LastPing s < 2 ^ 63)%Z →
  (∀ b n1 n2, Register b n1 n2 ∉ evs) →
  registry_run evs (cleanupInactiveServers_tick now servers) !! id = None.
Proof.
  intros Hs Hold Hreg. apply registry_run_absent; [done |].
  by eapply cleanupInactiveServers_tick_removes.
Qed.

(** X11. In every registry reached from the empty one by registrations,
    heartbeats and cleanup ticks, each entry is stored under its own
    ID. *)
Theorem registry_keys_are_ids (evs : list registry_event) (id : string)
    (s : StreamingServer) :
  registry_run evs ∅ !! id = Some s → ID s = id.
Proof.
  apply (registry_run_keys evs ∅). apply map_Forall_empty.
Qed.

(** X27. A node that the cleanup has removed is not handed out. In a
    registry reached from the empty one, once an entry whose last ping
    is more than 60 s old has been removed by a cleanup tick, and
    whatever heartbeats and cleanup ticks follow, [getLeastLoadedServer]
    selects no entry with the ID of this node, in whatever order the
    registry is ranged over. *)
Theorem removed_node_is_never_selected (evs0 evs : list registry_event) (id : string)
    (s : StreamingServer) (now : Z) (visit : list StreamingServer) :
  registry_run evs0 ∅ !! id = Some s →
  (60 < Unix now - LastPing s < 2 ^ 63)%Z →
  (∀ b n1 n2, Register b n1 n2 ∉ evs) →
  visit ≡ₚ (map_to_list (registry_run evs
              (cleanupInactiveServers_tick now (registry_run evs0 ∅)))).*2 →
  ∀ best, getLeastLoadedServer visit = Some best → ID best ≠ id.
Proof.
  intros Hs Hold Hreg Hvisit best Hsel Hid.
  set (final := registry_run evs (cleanupInactiveServers_tick now (registry_run evs0 ∅)))
    in *.
  assert (final !! id = None) as Hgone.
  { apply registry_run_absent; [done |]. by eapply cleanupInactiveServers_tick_removes. }
  assert (map_Forall (λ id s, ID s = id) final) as Hkeys.
  { apply registry_run_keys. apply (registry_step_keys (Cleanup now)).
    apply registry_run_keys. apply map_Forall_empty. }
  apply least_loaded_loop_elem in Hsel as [?|[Hin _]]; [done |].
  rewrite Hvisit in Hin. apply list_elem_of_fmap in Hin as ([k best'] & -> & Hk).
  apply elem_of_map_to_list in Hk. cbn [snd] in Hid.
  pose proof (Hkeys k best' Hk) as Hkid. cbn beta in Hkid. congruence.
Qed.


End registry.

(** * Further properties of the streaming node *)

Section leaving.
Import Node.
Context `{!Marshal, !Unmarshal ClientMsg, !Unmarshal RedisState, !Unmarshal RawMessage}.
Variable wall : nat → Z.

(** X13. Whatever the sequence of connects, messages, read errors, topic
    messages and pump steps on a node that has just started, no handler
    panics: there is no send on a closed channel, no second close of a
    channel, no use of a missing connection and no slice out of range;
    and the invariant [wf] holds when the sequence ends. *)
Theorem node_never_panics (db : Redis.t) (evs : list event) :
  ∃ σ, run wall evs (boot db) = Done σ ∧ wf σ.
Proof.
  destruct (run_wf wall evs (boot db) (wf_boot db)) as (σ & Hrun & Hwf & _).
  by exists σ.
Qed.

Lemma filter_ne_absent (p : nat) (l : list nat) : p ∉ l → filter (λ q, q ≠ p) l = l.
Proof.
  induction l as [|q l IH]; [done |]. intros Hp. rewrite filter_cons.
  rewrite decide_True by (intros ->; apply Hp; left).
  rewrite IH; [done |]. intros Hin. apply Hp. by right.
Qed.

(** Cutting the [i]-th element out of a slice without repetition removes
    this element and keeps the others in their order. *)
Lemma filter_remove_at (l : list nat) (i p : nat) :
  l !! i = Some p → NoDup l → take i l ++ drop (S i) l = filter (λ q, q ≠ p) l.
Proof.
  intros Hi Hnd. pose proof (take_drop_middle l i p Hi) as Hl.
  rewrite <- Hl in Hnd. apply NoDup_app in Hnd as (_ & HAB & HB).
  apply NoDup_cons in HB as (HpB & _).
  rewrite <- Hl at 3. rewrite filter_app, filter_cons.
  rewrite decide_False by (by intros ?).
  rewrite !filter_ne_absent; [done | done |].
  intros Hin. eapply HAB; [done | left].
Qed.

(** What [cleanupClient] does to a connection that sits in its bucket
    with an open queue. *)
Lemma cleanupClient_exact (p : nat) (σ : world) (c : ClientConnection) (l : list nat) :
  heap σ !! p = Some c → sessionID c ≠ "" →
  closed (send c) = false → sendq (send c) = [] →
  clients σ !! sessionID c = Some l → p ∈ l → NoDup l →
  ∃ σ', cleanupClient p σ = Done σ' ∧
    clients σ' = <[sessionID c := filter (λ q, q ≠ p) l]> (clients σ) ∧
    heap σ' = <[p := {| conn := Close <$> conn c; sessionID := sessionID c;
                        isHost := isHost c;
                        send := {| buf := buf (send c); closed := true; sendq := [] |} |}]>
                (heap σ) ∧
    numClients σ' = wrap64 (numClients σ - 1) ∧
    loops σ' = loops σ ∧ pumps σ' = pumps σ ∧
    subscriptions σ' = subscriptions σ ∧ rdb σ' = rdb σ ∧
    logs σ' = logs σ ∧ ticks σ' = ticks σ.
Proof.
  intros Hc Hsid Hopen Hq Hl Hp Hnd. unfold cleanupClient. rewrite Hc.
  destruct (String.eqb_spec (sessionID c) "") as [|_]; [done |].
  unfold close. rewrite Hopen, Hq. cbn [bind].
  set (c1 := with_send {| buf := buf (send c); closed := true; sendq := [] |} c).
  set (σ1 := ensure_lock _ _).
  assert (clients σ1 = clients σ ∧ heap σ1 = <[p := c1]> (heap σ) ∧
          loops σ1 = loops σ ∧ pumps σ1 = pumps σ ∧ subscriptions σ1 = subscriptions σ ∧
          numClients σ1 = numClients σ ∧ rdb σ1 = rdb σ ∧ logs σ1 = logs σ ∧
          ticks σ1 = ticks σ) as (Ecl & Eh & Elo & Epu & Esu & Enu & Erd & Elg & Eti).
  { unfold σ1, ensure_lock. by case_decide. }
  change (sessionID c1) with (sessionID c). change (conn c1) with (conn c).
  rewrite Ecl, Hl.
  destruct l as [|q0 l0] eqn:El; [by apply elem_of_nil in Hp |]. rewrite <- El in *.
  clear El q0 l0.
  destruct (index_of_elem p l Hp) as (i & -> & Hi).
  eexists. split; [done |]. cbn.
  rewrite Ecl, Eh, Elo, Epu, Esu, Enu, Erd, Elg, Eti.
  rewrite insert_insert_eq, (filter_remove_at l i p) by done. done.
Qed.

(** A read error on a connection whose read loop runs. *)
Lemma step_ReadError_exact (p : nat) (σ : world) :
  wf σ → reading p σ = true →
  ∃ c l σ', heap σ !! p = Some c ∧ clients σ !! sessionID c = Some l ∧ p ∈ l ∧
    is_Some (conn c) ∧
    step wall (ReadError p) σ = Done σ' ∧
    clients σ' = <[sessionID c := filter (λ q, q ≠ p) l]> (clients σ) ∧
    heap σ' = <[p := {| conn := Close <$> conn c; sessionID := sessionID c;
                        isHost := isHost c;
                        send := {| buf := buf (send c); closed := true; sendq := [] |} |}]>
                (heap σ) ∧
    numClients σ' = wrap64 (numClients σ - 1) ∧
    loops σ' = loops σ ∖ {[p]} ∧ pumps σ' = pumps σ ∧
    subscriptions σ' = subscriptions σ ∧ rdb σ' = rdb σ.
Proof.
  intros Hwf Hr.
  destruct (reading_spec p σ Hwf Hr)
    as (Hloop & c & l & Hc & Hsid & Hopen & Hconn & Hq & Hl & Hpl).
  exists c, l. cbn [step]. rewrite Hr.
  set (σa := with_loops (loops σ ∖ {[p]}) (log "Error reading message:" σ)).
  destruct (cleanupClient_exact p σa c l)
    as (σ' & -> & Ecl & Eh & En & Elo & Epu & Esu & Erd & _); try done.
  { by eapply wf_nodup. }
  exists σ'. split_and!; done.
Qed.

(** X14. When the read loop of a connection ends on a read error, the
    connection is cut out of the bucket of its session, the other
    connections of the bucket keeping their order and the other buckets
    being untouched; the bucket itself stays in the map, empty if need
    be. The queue of the connection is closed with what it holds, its
    socket is closed, the counter goes down by one, and the pump, the
    subscriptions and the keyspace are left as they are. *)
Theorem ReadError_removes_connection (p : nat) (σ : world) :
  wf σ → reading p σ = true →
  ∃ c l σ', heap σ !! p = Some c ∧ clients σ !! sessionID c = Some l ∧ p ∈ l ∧
    step wall (ReadError p) σ = Done σ' ∧
    clients σ' = <[sessionID c := filter (λ q, q ≠ p) l]> (clients σ) ∧
    heap σ' = <[p := {| conn := Close <$> conn c; sessionID := sessionID c;
                        isHost := isHost c;
                        send := {| buf := buf (send c); closed := true; sendq := [] |} |}]>
                (heap σ) ∧
    numClients σ' = wrap64 (numClients σ - 1) ∧
    loops σ' = loops σ ∖ {[p]} ∧ pumps σ' = pumps σ ∧
    subscriptions σ' = subscriptions σ ∧ rdb σ' = rdb σ.
Proof.
  intros Hwf Hr.
  destruct (step_ReadError_exact p σ Hwf Hr) as (c & l & σ' & ? & ? & ? & ? & ?).
  by exists c, l, σ'.
Qed.

(** X15. A connection that was cleaned up gets nothing more. At its next
    step the pump finds the socket closed: a queued message is taken
    from the queue and its write fails, or the close frame is refused;
    either way nothing is added to what was written on the socket, and
    the pump ends. *)
Theorem cleaned_up_connection_is_silent (p : nat) (netOk : bool) (σ : world) :
  wf σ → reading p σ = true →
  ∃ c s σ', heap σ !! p = Some c ∧ conn c = Some s ∧
    run wall [ReadError p; PumpStep p netOk] σ = Done σ' ∧
    (p ∉ pumps σ') ∧
    ∃ c', heap σ' !! p = Some c' ∧ conn c' = Some {| wire := wire s; hung_up := true |}.
Proof.
  intros Hwf Hr.
  destruct (step_ReadError_exact p σ Hwf Hr)
    as (c & l & σ1 & Hc & Hl & Hpl & [s Hs] & Hstep & _ & Eh & _ & _ & Epu & _).
  exists c, s. cbn [run]. rewrite Hstep. cbn [bind step].
  rewrite Hs in Eh. cbn [fmap option_fmap option_map Close] in Eh.
  case_bool_decide as Hpump.
  2:{ exists σ1. split_and!; try done. rewrite Eh, lookup_insert_eq. by eexists. }
  unfold writePump. rewrite Eh, lookup_insert_eq. cbn [send buf closed sendq conn].
  destruct (buf (send c)) as [|msg queued].
  - unfold WriteMessage. cbn [hung_up orb].
    eexists. split_and!; try done; [set_solver |].
    cbn. rewrite insert_insert_eq, lookup_insert_eq. by eexists.
  - unfold WriteMessage. cbn [hung_up orb].
    eexists. split_and!; try done; [cbn; set_solver |].
    cbn. rewrite insert_insert_eq, lookup_insert_eq. by eexists.
Qed.

(** X16. The pump delivers in order. For a connection whose socket is
    open and whose read loop is not parked, as many pump steps over a
    network that works as there are queued messages write exactly these
    messages, in the order of the queue, as text frames behind what was
    written before, and leave the queue empty; nothing else changes. *)
Theorem writePump_delivers_in_order (p : nat) (σ : world) (c : ClientConnection)
    (s : Socket) :
  heap σ !! p = Some c → conn c = Some s → hung_up s = false →
  sendq (send c) = [] → p ∈ pumps σ →
  run wall (replicate (length (buf (send c))) (PumpStep p true)) σ =
    Done (with_heap
            (<[p := {| conn := Some {| wire := wire s ++ (TextMessage <$> buf (send c));
                                       hung_up := false |};
                       sessionID := sessionID c; isHost := isHost c;
                       send := {| buf := []; closed := closed (send c); sendq := [] |} |}]>
               (heap σ)) σ).
Proof.
  remember (buf (send c)) as msgs eqn:Hmsgs.
  revert σ c s Hmsgs. induction msgs as [|m msgs IH]; intros σ c s Hmsgs Hc Hs Hup Hq Hpump.
  { cbn. rewrite app_nil_r. do 2 f_equal.
    destruct σ as [? ? ? h ? ? ? ? ? ?]. cbn in *. unfold with_heap. cbn. f_equal.
    symmetry. apply insert_id. rewrite Hc. f_equal.
    destruct c as [? ? ? [? ? ?]]. cbn in *. subst. by destruct s; cbn in *; subst. }
  cbn [length replicate run step]. rewrite bool_decide_eq_true_2 by done.
  unfold writePump. rewrite Hc, <- Hmsgs, Hq, Hs.
  unfold WriteMessage. rewrite Hup. cbn [orb negb bind].
  set (s1 := {| wire := wire s ++ [TextMessage m]; hung_up := false |}).
  set (c1 := with_conn (Some s1)
               (with_send {| buf := msgs; closed := closed (send c); sendq := [] |} c)).
  rewrite (IH (with_heap (<[p := c1]> (heap σ)) σ) c1 s1); try done.
  - cbn. rewrite insert_insert_eq, <- app_assoc. done.
  - cbn. apply lookup_insert_eq.
Qed.

Lemma run_pump_stopped (p : nat) (oks : list bool) (σ : world) :
  p ∉ pumps σ → run wall (PumpStep p <$> oks) σ = Done σ.
Proof.
  intros Hp. induction oks as [|ok oks IH]; [done |].
  cbn [fmap list_fmap run step]. by rewrite bool_decide_eq_false_2.
Qed.

(** X17. A write error ends the delivery to a connection and nothing
    else. The message that the pump had taken from the queue is lost,
    and the pump is gone: whatever pump steps follow, what else is
    queued stays in the queue and nothing is written on the socket. The
    connection stays in its bucket with its read loop, counted in the
    load: only a read error removes it. *)
Theorem writePump_error_ends_delivery (p : nat) (σ : world)
    (c : ClientConnection) (s : Socket) (first : string) (rest : list string)
    (oks : list bool) :
  heap σ !! p = Some c → conn c = Some s →
  buf (send c) = first :: rest → sendq (send c) = [] → p ∈ pumps σ →
  ∃ σ', run wall (PumpStep p false :: (PumpStep p <$> oks)) σ = Done σ' ∧
    heap σ' = <[p := {| conn := Some s; sessionID := sessionID c; isHost := isHost c;
                        send := {| buf := rest; closed := closed (send c);
                                   sendq := [] |} |}]> (heap σ) ∧
    pumps σ' = pumps σ ∖ {[p]} ∧
    clients σ' = clients σ ∧ loops σ' = loops σ ∧ numClients σ' = numClients σ ∧
    logs σ' = logs σ ++ ["writePump error:"].
Proof.
  intros Hc Hs Hbuf Hq Hpump. cbn [run step]. rewrite bool_decide_eq_true_2 by done.
  unfold writePump. rewrite Hc, Hbuf, Hq, Hs.
  unfold WriteMessage. rewrite orb_true_r. cbn [bind].
  rewrite run_pump_stopped by (cbn; set_solver). by eexists.
Qed.

End leaving.

Section keyspace.
Import Node.
Context `{!Marshal, !Unmarshal ClientMsg, !Unmarshal RedisState, !Unmarshal RawMessage}.
Variable wall : nat → Z.

Lemma try_send_rdb (sid : string) (p : nat) (c : ClientConnection) (m : string)
    (σ σ' : world) :
  try_send sid p c m σ = Done σ' → rdb σ' = rdb σ.
Proof. unfold try_send. destruct (offer m (send c)); by intros [= <-]. Qed.

Lemma broadcast_inner_rdb (sid m : string) (todo : list nat) (σ σ' : world) :
  broadcast_inner sid m todo σ = Done σ' → rdb σ' = rdb σ.
Proof.
  revert σ. induction todo as [|p todo IH]; intros σ; simpl; [by intros [= <-] |].
  destruct (heap σ !! p) as [c|]; [| apply IH].
  destruct (conn c); [| apply IH].
  destruct (try_send sid p c m σ) as [σ1|] eqn:Hs; [| done]. cbn [bind].
  intros ->%IH. by eapply try_send_rdb.
Qed.

Lemma broadcast_outer_rdb (sid : string) (st : RawMessage) (all todo : list nat)
    (σ σ' : world) :
  broadcast_outer wall sid st all todo σ = Done σ' → rdb σ' = rdb σ.
Proof.
  revert σ. induction todo as [|p todo IH]; intros σ; simpl; [by intros [= <-] |].
  destruct (heap σ !! p) as [c|]; [| apply IH].
  destruct (conn c); [| apply IH].
  destruct (marshal _) as [payload|]; [| by intros [= <-]].
  destruct (broadcast_inner sid payload all _) as [σ1|] eqn:Hin; [| done]. cbn [bind].
  intros ->%IH. by apply broadcast_inner_rdb in Hin.
Qed.

Lemma broadcastState_rdb (sid : string) (st : RawMessage) (σ σ' : world) :
  broadcastState wall sid st σ = Done σ' → rdb σ' = rdb σ.
Proof.
  unfold broadcastState.
  assert (rdb (ensure_lock sid σ) = rdb σ) as Hl by (unfold ensure_lock; by case_decide).
  destruct (clients (ensure_lock sid σ) !! sid) as [[|p l]|]; try by intros [= <-].
  intros ->%broadcast_outer_rdb. done.
Qed.

Lemma handleSessionUpdate_rdb (channel payload : string) (σ σ' : world) :
  handleSessionUpdate wall channel payload σ = Done σ' → rdb σ' = rdb σ.
Proof.
  unfold handleSessionUpdate. destruct (slice_from _ channel) as [sid|]; [| done].
  cbn [bind]. destruct (unmarshal payload) as [st|]; [| by intros [= <-]].
  by intros ->%broadcastState_rdb.
Qed.

Lemma cleanupClient_rdb (p : nat) (σ σ' : world) :
  cleanupClient p σ = Done σ' → rdb σ' = rdb σ.
Proof.
  unfold cleanupClient. destruct (heap σ !! p) as [c|]; [| by intros [= <-]].
  destruct (sessionID c =? "")%string; [by intros [= <-] |].
  destruct (close (send c)) as [ch|]; [| done]. cbn [bind].
  set (σ1 := ensure_lock _ _).
  assert (rdb σ1 = rdb σ) as Hl by (unfold σ1, ensure_lock; by case_decide).
  destruct (clients σ1 !! _) as [[|q l]|]; try by intros [= <-].
  destruct (index_of p (q :: l)); by intros [= <-].
Qed.

Lemma writePump_rdb (p : nat) (netOk : bool) (σ σ' : world) :
  writePump p netOk σ = Done σ' → rdb σ' = rdb σ.
Proof.
  unfold writePump. destruct (heap σ !! p) as [c|]; [| done].
  destruct (buf (send c)) as [|m q].
  - destruct (closed (send c)); [| by intros [= <-]].
    destruct (conn c) as [s|]; [| done].
    destruct (WriteMessage _ _ _) as [err s']. by intros [= <-].
  - destruct (conn c) as [s|]; [| done].
    destruct (WriteMessage _ _ _) as [[] s']; by intros [= <-].
Qed.

Lemma handleWebSocket_keyspace (sid isHostParam : string) (upgrade : bool)
    (σ σ' : world) :
  handleWebSocket wall sid isHostParam upgrade σ = Done σ' →
  Redis.kv (rdb σ') = Redis.kv (rdb σ) ∧
  Redis.published (rdb σ') = Redis.published (rdb σ).
Proof.
  unfold handleWebSocket. destruct (sid =? "")%string; [by intros [= <-] |].
  destruct upgrade; cbn [negb]; [| by intros [= <-]].
  set (σr := subscribeToSessionUpdates sid _).
  assert (rdb σr = rdb σ) as Er.
  { unfold σr, subscribeToSessionUpdates, ensure_lock. by case_decide. }
  destruct (isHostParam =? "true")%string; cbn [negb]; [intros [= <-]; by rewrite <- Er |].
  cbn [conn].
  pose proof (Get_keeps (state_key sid) (rdb σr)) as Hget. rewrite Er in Hget.
  rewrite Er.
  destruct (Redis.Get (state_key sid) (rdb σ)) as [val db]. cbn [snd] in Hget.
  set (σg := match val with
             | Redis.Ok _ => with_rdb db σr
             | Redis.Nil => log ("Invalid Session key " +:+ sid) (with_rdb db σr)
             | Redis.Err => log "Error Synchronizing" (with_rdb db σr)
             end).
  assert (rdb σg = db) as Eg by (unfold σg; by destruct val).
  destruct (unmarshal (Redis.val_of val)) as [st|].
  2:{ intros ->%cleanupClient_rdb. cbn. by rewrite Eg. }
  unfold now_UnixMilli. destruct (marshal _) as [payload|].
  2:{ intros ->%cleanupClient_rdb. cbn. by rewrite Eg. }
  destruct (try_send _ _ _ _ _) as [σ1|] eqn:Hs; [| done]. cbn [bind].
  intros [= <-]. apply try_send_rdb in Hs. cbn in Hs |- *. rewrite Hs. by rewrite Eg.
Qed.

(** X18. Only a [stateUpdate] message from a host connection writes to
    the keyspace. Every other event of the node (a connect, a read
    error, a message received on a topic, a pump step, any message from
    a participant and any other message from a host) leaves the keys and
    the published messages as they are. *)
Theorem keyspace_written_only_by_host_update (e : event) (σ σ' : world) :
  step wall e σ = Done σ' →
  (∀ p message c msg, e = Message p message → heap σ !! p = Some c →
     unmarshal message = Some msg → Type_ msg = "stateUpdate" → isHost c = false) →
  Redis.kv (rdb σ') = Redis.kv (rdb σ) ∧
  Redis.published (rdb σ') = Redis.published (rdb σ).
Proof.
  destruct e as [sid isHostParam upgrade|p message|p|ch payload|p netOk]; cbn [step].
  - intros Hstep _. by eapply handleWebSocket_keyspace.
  - intros Hstep Hhost. destruct (reading p σ); [| by injection Hstep as <-].
    revert Hstep. unfold handleClientMessage.
    destruct (heap σ !! p) as [c|] eqn:Hc; [| done].
    destruct (unmarshal message) as [msg|] eqn:Hm; [| by intros [= <-]].
    destruct (String.eqb_spec (Type_ msg) "stateUpdate") as [Ht|_].
    { rewrite (Hhost p message c msg) by done. by intros [= <-]. }
    destruct (Type_ msg =? "videoMetadata")%string.
    { destruct (marshal _) as [payload|]; [| by intros [= <-]].
      destruct (blocking_send _ _) as [ch|]; [| done]. by intros [= <-]. }
    destruct (Type_ msg =? "heartbeat")%string; [| by intros [= <-]].
    destruct (conn c) as [s|]; [| done].
    destruct (marshal _) as [data|]; [| by intros [= <-]].
    destruct (WriteMessage _ _ _) as [err s']. by intros [= <-].
  - intros Hstep _. destruct (reading p σ); [| by injection Hstep as <-].
    apply cleanupClient_rdb in Hstep. by rewrite Hstep.
  - intros Hstep _. case_bool_decide; [| by injection Hstep as <-].
    apply handleSessionUpdate_rdb in Hstep. by rewrite Hstep.
  - intros Hstep _. case_bool_decide; [| by injection Hstep as <-].
    apply writePump_rdb in Hstep. by rewrite Hstep.
Qed.

(** X28. A [stateUpdate] of the host for a session without a stored
    state is dropped, whatever its timestamp: the read of the state key
    finds nothing, the empty value does not decode, and the handler
    returns with the keys and the published messages as they were. The
    node never creates the state of a session. *)
Theorem handleClientMessage_without_stored_state (p : nat) (c : ClientConnection)
    (message : string) (msg : ClientMsg) (σ : world) :
  heap σ !! p = Some c → isHost c = true →
  unmarshal message = Some msg → Type_ msg = "stateUpdate" →
  Redis.kv (rdb σ) !! state_key (sessionID c) = None →
  unmarshal (A := RedisState) "" = None →
  ∃ σ', handleClientMessage p message σ = Done σ' ∧
        Redis.kv (rdb σ') = Redis.kv (rdb σ) ∧
        Redis.published (rdb σ') = Redis.published (rdb σ) ∧
        heap σ' = heap σ ∧
        last (logs σ') = Some "Error unmarshaling state from Redis:".
Proof.
  intros Hc Hhost Hmsg Htype Hkv Hempty. unfold handleClientMessage.
  rewrite Hc, Hmsg, Htype, Hhost.
  change ("stateUpdate" =? "stateUpdate")%string with true. cbv iota.
  pose proof (Get_keeps (state_key (sessionID c)) (rdb σ)) as [Hgk Hgp].
  assert (Redis.val_of (Redis.Get (state_key (sessionID c)) (rdb σ)).1 = "") as Hval.
  { unfold Redis.Get. pose proof (attempt_keeps (rdb σ)) as [Hak _].
    destruct (Redis.attempt (rdb σ)) as [[] db']; [done |]. cbn [snd] in Hak.
    rewrite Hak, Hkv. done. }
  destruct (Redis.Get _ _) as [val db]. cbn [fst snd] in Hval, Hgk, Hgp.
  rewrite Hval, Hempty. eexists. split; [done |].
  destruct val; cbn; by rewrite ?last_snoc.
Qed.

(** X19. The reply to a [videoMetadata] request is never dropped. With
    room in the queue of the requesting connection it is appended
    there, and nothing else changes. With a full queue the read loop
    parks on the send: the connection reads no further message until
    the pump takes a message from the queue, and the pump step that
    does so puts the reply at the end of the queue. *)
Theorem videoMetadata_reply_is_queued_or_parked (p : nat) (c : ClientConnection)
    (message reply : string) (msg : ClientMsg) (σ : world) :
  heap σ !! p = Some c → closed (send c) = false → sendq (send c) = [] →
  unmarshal message = Some msg → Type_ msg = "videoMetadata" →
  marshal (JObject [("type", JString "videoMetadata");
                    ("state", encode_VideoManifest
                                {| ChunkDuration := 5; ChunkCount := 10;
                                   VideoDuration := Fin 117; VideoFileType := "mp4" |})])
    = Some reply →
  if decide (length (buf (send c)) < send_capacity) then
    handleClientMessage p message σ =
      Done (with_heap
              (<[p := with_send {| buf := buf (send c) ++ [reply]; closed := false;
                                   sendq := [] |} c]> (heap σ)) σ)
  else
    ∃ σ', handleClientMessage p message σ = Done σ' ∧
      σ' = with_heap
             (<[p := with_send {| buf := buf (send c); closed := false;
                                  sendq := [reply] |} c]> (heap σ)) σ ∧
      reading p σ' = false ∧
      ∀ s, conn c = Some s → hung_up s = false →
        ∃ first rest, buf (send c) = first :: rest ∧
          writePump p true σ' =
            Done (with_heap
                    (<[p := {| conn := Some {| wire := wire s ++ [TextMessage first];
                                               hung_up := false |};
                               sessionID := sessionID c; isHost := isHost c;
                               send := {| buf := rest ++ [reply]; closed := false;
                                          sendq := [] |} |}]> (heap σ)) σ).
Proof.
  intros Hc Hopen Hq Hmsg Htype Hreply. unfold handleClientMessage.
  rewrite Hc, Hmsg, Htype.
  change ("videoMetadata" =? "stateUpdate")%string with false.
  change ("videoMetadata" =? "videoMetadata")%string with true. cbv iota.
  rewrite Hreply. unfold blocking_send. rewrite offer_open by done.
  case_decide as Hroom; cbn [bind].
  - by rewrite Hq.
  - eexists. split; [done |]. rewrite Hopen, Hq. split; [done |]. split.
    + unfold reading. cbn. rewrite lookup_insert_eq. cbn.
      by rewrite andb_false_r.
    + intros s Hs Hup.
      destruct (buf (send c)) as [|first rest] eqn:Hbuf.
      { unfold send_capacity in Hroom. simpl in Hroom. lia. }
      exists first, rest. split; [done |].
      unfold writePump. cbn. rewrite lookup_insert_eq. cbn. rewrite Hs.
      unfold WriteMessage. rewrite Hup. cbn. by rewrite insert_insert_eq.
Qed.

End keyspace.

Section joining.
Import Node.
Context `{!Codec}.
Variable wall : nat → Z.

(** X20. A participant that connects to a session whose state is stored,
    over a keyspace that responds, is attached and finds the stored
    state first in its queue: the new connection is put at the end of
    the bucket of the session with its read loop and its pump running,
    the counter goes up by one, a subscription to the topic of the
    session is added, and the queue holds the one [stateUpdate] that
    carries the stored state and the reading of the clock in
    milliseconds. *)
Theorem handleWebSocket_participant_gets_state (sid isHostParam : string)
    (stored : Redis.entry) (st : RawMessage) (σ : world) :
  sid ≠ "" → isHostParam ≠ "true" →
  Redis.outages (rdb σ) = [] →
  Redis.kv (rdb σ) !! state_key sid = Some stored →
  unmarshal (Redis.value stored) = Some st →
  let p := fresh (dom (heap σ)) in
  ∃ σ' m,
    handleWebSocket wall sid isHostParam true σ = Done σ' ∧
    marshal (stateUpdate st (UnixMilli (wall (ticks σ)))) = Some m ∧
    heap σ' = <[p := {| conn := Some {| wire := []; hung_up := false |};
                        sessionID := sid; isHost := false;
                        send := {| buf := [m]; closed := false; sendq := [] |} |}]>
                (heap σ) ∧
    clients σ' = <[sid := default [] (clients σ !! sid) ++ [p]]> (clients σ) ∧
    loops σ' = {[p]} ∪ loops σ ∧ pumps σ' = {[p]} ∪ pumps σ ∧
    numClients σ' = wrap64 (numClients σ + 1) ∧
    subscriptions σ' = subscriptions σ ++ [topic sid] ∧
    rdb σ' = rdb σ.
Proof.
  intros Hsid Hhost Hup Hkv Hst p.
  destruct (marshal_stateUpdate st (UnixMilli (wall (ticks σ)))) as [m Hm].
  { by eapply unmarshal_raw_valid. }
  unfold handleWebSocket.
  destruct (String.eqb_spec sid "") as [|_]; [done |]. cbn [negb].
  destruct (String.eqb_spec isHostParam "true") as [|_]; [done |]. cbn [negb conn].
  fold p.
  set (σr := subscribeToSessionUpdates sid _).
  assert (heap σr = <[p := {| conn := Some {| wire := []; hung_up := false |};
                              sessionID := sid; isHost := false; send := make_chan |}]>
                      (heap σ) ∧
          pumps σr = {[p]} ∪ pumps σ ∧
          clients σr = <[sid := default [] (clients σ !! sid) ++ [p]]> (clients σ) ∧
          subscriptions σr = subscriptions σ ++ [topic sid] ∧ loops σr = loops σ ∧
          numClients σr = wrap64 (numClients σ + 1) ∧ rdb σr = rdb σ ∧
          ticks σr = ticks σ)
    as (Eh & Epu & Ecl & Esu & Elo & Enu & Erd & Eti).
  { unfold σr, subscribeToSessionUpdates, ensure_lock. by case_decide. }
  clearbody σr.
  unfold Redis.Get. rewrite Erd, attempt_healthy by done. rewrite Hkv.
  cbn [Redis.val_of]. rewrite Hst.
  unfold now_UnixMilli. cbn [ticks with_rdb]. rewrite Eti, Hm.
  unfold try_send, offer. cbn [send closed make_chan buf length].
  rewrite decide_True by (unfold send_capacity; lia). cbn [bind].
  eexists _, m. split; [done |]. split; [done |]. cbn.
  rewrite Eh, Epu, Ecl, Esu, Elo, Enu, insert_insert_eq.
  by split_and!.
Qed.

Lemma wrap64_succ_pred (z : Z) :
  (- 2 ^ 63 ≤ z < 2 ^ 63)%Z → wrap64 (wrap64 (z + 1) - 1) = z.
Proof.
  intros Hz. unfold wrap64.
  destruct (decide (z = 2 ^ 63 - 1)%Z) as [->|Hne]; [done |].
  rewrite (Z.mod_small (z + 1 + 2 ^ 63)) by lia.
  rewrite Z.mod_small; lia.
Qed.

(** X21. A participant that connects to a session for which the keyspace
    holds no state is dropped at once: the empty value does not decode,
    the handler returns, and the deferred cleanup undoes the
    attachment. Afterwards the connection is in no bucket, its queue
    and its socket are closed, no read loop runs for it and the counter
    is what it was; yet the bucket of the session exists, the pump of
    the connection is still to end, and the subscription to the topic
    of the session stays. *)
Theorem handleWebSocket_unknown_session_dropped (sid isHostParam : string) (σ : world) :
  wf σ → sid ≠ "" → isHostParam ≠ "true" →
  Redis.kv (rdb σ) !! state_key sid = None →
  unmarshal (A := RawMessage) "" = None →
  (- 2 ^ 63 ≤ numClients σ < 2 ^ 63)%Z →
  let p := fresh (dom (heap σ)) in
  ∃ σ',
    handleWebSocket wall sid isHostParam true σ = Done σ' ∧
    heap σ' = <[p := {| conn := Some {| wire := []; hung_up := true |};
                        sessionID := sid; isHost := false;
                        send := {| buf := []; closed := true; sendq := [] |} |}]>
                (heap σ) ∧
    clients σ' = <[sid := default [] (clients σ !! sid)]> (clients σ) ∧
    loops σ' = loops σ ∧ pumps σ' = {[p]} ∪ pumps σ ∧
    numClients σ' = numClients σ ∧
    subscriptions σ' = subscriptions σ ++ [topic sid] ∧
    Redis.kv (rdb σ') = Redis.kv (rdb σ).
Proof.
  intros Hwf Hsid Hhost Hkv Hempty Hnum p.
  unfold handleWebSocket.
  destruct (String.eqb_spec sid "") as [|_]; [done |]. cbn [negb].
  destruct (String.eqb_spec isHostParam "true") as [|_]; [done |]. cbn [negb conn].
  fold p.
  set (c := {| conn := Some {| wire := []; hung_up := false |};
               sessionID := sid; isHost := false; send := make_chan |}).
  set (σr := subscribeToSessionUpdates sid _).
  set (old := default [] (clients σ !! sid)).
  assert (heap σr = <[p := c]> (heap σ) ∧
          pumps σr = {[p]} ∪ pumps σ ∧
          clients σr = <[sid := old ++ [p]]> (clients σ) ∧
          subscriptions σr = subscriptions σ ++ [topic sid] ∧ loops σr = loops σ ∧
          numClients σr = wrap64 (numClients σ + 1) ∧ rdb σr = rdb σ)
    as (Eh & Epu & Ecl & Esu & Elo & Enu & Erd).
  { unfold σr, subscribeToSessionUpdates, ensure_lock. by case_decide. }
  assert (p ∉ old) as Hpold.
  { unfold old. destruct (clients σ !! sid) as [l|] eqn:Hl; simpl; [| by intros ?%elem_of_nil].
    intros Hin. destruct (wf_bucket σ Hwf sid l p Hl Hin) as (_ & c' & Hc' & _).
    apply (is_fresh (dom (heap σ))). fold p. apply elem_of_dom. by eexists. }
  assert (NoDup old) as Hndold.
  { unfold old. destruct (clients σ !! sid) as [l|] eqn:Hl; simpl; [| constructor].
    by eapply wf_nodup. }
  pose proof (Get_keeps (state_key sid) (rdb σr)) as [Hgk _].
  assert (Redis.val_of (Redis.Get (state_key sid) (rdb σr)).1 = "") as Hval.
  { unfold Redis.Get. pose proof (attempt_keeps (rdb σr)) as [Hak _].
    destruct (Redis.attempt (rdb σr)) as [[] db']; [done |]. cbn [snd] in Hak.
    rewrite Hak, Erd, Hkv. done. }
  destruct (Redis.Get (state_key sid) (rdb σr)) as [val db]. cbn [fst snd] in Hval, Hgk.
  rewrite Erd in Hgk.
  rewrite Hval, Hempty.
  set (σg := log _ _).
  assert (heap σg = heap σr ∧ pumps σg = pumps σr ∧ clients σg = clients σr ∧
          subscriptions σg = subscriptions σr ∧ loops σg = loops σr ∧
          numClients σg = numClients σr ∧ rdb σg = db)
    as (Eh' & Epu' & Ecl' & Esu' & Elo' & Enu' & Erd').
  { unfold σg. by destruct val. }
  destruct (cleanupClient_exact p σg c (old ++ [p]))
    as (σ' & -> & Ecl'' & Eh'' & En'' & Elo'' & Epu'' & Esu'' & Erd'' & _); try done.
  - by rewrite Eh', Eh, lookup_insert_eq.
  - by rewrite Ecl', Ecl, lookup_insert_eq.
  - apply elem_of_app. right. by left.
  - apply NoDup_app. split_and!; [done | | apply NoDup_singleton].
    by intros q Hq ->%list_elem_of_singleton.
  - exists σ'. split; [done |].
    rewrite Eh'', Ecl'', En'', Elo'', Epu'', Esu'', Erd'',
      Eh', Ecl', Enu', Elo', Epu', Esu', Erd', Eh, Ecl, Enu, Elo, Epu, Esu.
    rewrite !insert_insert_eq. cbn [sessionID c conn send make_chan buf fmap option_fmap
      option_map Close wire isHost].
    rewrite filter_app, filter_ne_absent by done.
    rewrite filter_cons, decide_False by (by intros ?). rewrite filter_nil, app_nil_r.
    rewrite wrap64_succ_pred by done. done.
Qed.

(** X22. The node takes the host role from the [isHost] query parameter
    alone: no token is asked for. A client that connects to a session
    with [isHost=true] and then sends a [stateUpdate] whose timestamp is
    above the stored one, over a keyspace that responds, overwrites the
    state of the session and has it published on the topic of the
    session. *)
Theorem host_role_is_self_declared (sid message : string) (msg : ClientMsg)
    (stored : Redis.entry) (stateFromRedis stateFromMsg : RedisState) (σ : world) :
  sid ≠ "" →
  Redis.outages (rdb σ) = [] →
  Redis.kv (rdb σ) !! state_key sid = Some stored →
  unmarshal (Redis.value stored) = Some stateFromRedis →
  unmarshal message = Some msg → Type_ msg = "stateUpdate" →
  unmarshal (raw_bytes (State msg)) = Some stateFromMsg →
  (Timestamp stateFromMsg > Timestamp stateFromRedis)%Z →
  ∃ σ' stateJson,
    run wall [Connect sid "true" true; Message (fresh (dom (heap σ))) message] σ
      = Done σ' ∧
    marshal (JRaw (State msg)) = Some stateJson ∧
    unmarshal stateJson = Some stateFromMsg ∧
    Redis.kv (rdb σ') =
      <[state_key sid := Redis.Entry stateJson REDIS_MSG_EXPIRY]> (Redis.kv (rdb σ)) ∧
    Redis.published (rdb σ') = Redis.published (rdb σ) ++ [(topic sid, stateJson)].
Proof.
  intros Hsid Hup Hkv Hsr Hmsg Htype Hsm Hts.
  destruct (marshal_raw_decodes (State msg) stateFromMsg Hsm) as (stateJson & Hm & Hd).
  set (p := fresh (dom (heap σ))).
  cbn [run step]. unfold handleWebSocket.
  destruct (String.eqb_spec sid "") as [|_]; [done |]. cbn [negb].
  change ("true" =? "true")%string with true. cbn [negb]. fold p.
  set (c := {| conn := Some {| wire := []; hung_up := false |};
               sessionID := sid; isHost := true; send := make_chan |}).
  set (σr := subscribeToSessionUpdates sid _).
  assert (heap σr = <[p := c]> (heap σ) ∧ rdb σr = rdb σ) as (Eh & Erd).
  { unfold σr, subscribeToSessionUpdates, ensure_lock. by case_decide. }
  clearbody σr. cbn [bind].
  set (σ1 := with_loops _ σr).
  assert (heap σ1 !! p = Some c) as Hc by (cbn; by rewrite Eh, lookup_insert_eq).
  assert (reading p σ1 = true) as ->.
  { unfold reading. rewrite Hc. cbn. rewrite bool_decide_eq_true_2 by set_solver. done. }
  unfold handleClientMessage. rewrite Hc, Hmsg, Htype.
  change ("stateUpdate" =? "stateUpdate")%string with true. cbv iota.
  cbn [isHost c sessionID].
  change (rdb σ1) with (rdb σr). rewrite Erd.
  unfold Redis.Get. rewrite attempt_healthy by done. rewrite Hkv.
  cbn [Redis.val_of]. rewrite Hsr, Hsm.
  rewrite decide_True by done. rewrite Hm. cbn [default].
  unfold Redis.SetEX. cbn [rdb with_rdb]. rewrite attempt_healthy by done.
  unfold publishStateUpdate. rewrite Hm.
  unfold Redis.Publish. cbn [rdb with_rdb]. rewrite attempt_healthy by (cbn; done).
  cbn [bind run]. eexists _, stateJson. split; [done |]. by split_and!.
Qed.

End joining.

Section end_to_end.
Import Node.
Context `{!Codec}.
Variable wall : nat → Z.

(** A [stateUpdate] of the host that is accepted. *)
Lemma handleClientMessage_accepts (h : nat) (ch : ClientConnection) (message : string)
    (msg : ClientMsg) (stored : Redis.entry) (stateFromRedis stateFromMsg : RedisState)
    (stateJson : string) (σ : world) :
  heap σ !! h = Some ch → isHost ch = true →
  unmarshal message = Some msg → Type_ msg = "stateUpdate" →
  Redis.outages (rdb σ) = [] →
  Redis.kv (rdb σ) !! state_key (sessionID ch) = Some stored →
  unmarshal (Redis.value stored) = Some stateFromRedis →
  unmarshal (raw_bytes (State msg)) = Some stateFromMsg →
  (Timestamp stateFromMsg > Timestamp stateFromRedis)%Z →
  marshal (JRaw (State msg)) = Some stateJson →
  handleClientMessage h message σ =
    Done (with_rdb
            (Redis.Db
               (<[state_key (sessionID ch) := Redis.Entry stateJson REDIS_MSG_EXPIRY]>
                  (Redis.kv (rdb σ)))
               (Redis.published (rdb σ) ++ [(topic (sessionID ch), stateJson)]) []) σ).
Proof.
  intros Hc Hhost Hmsg Htype Hup Hkv Hsr Hsm Hts Hm.
  unfold handleClientMessage. rewrite Hc, Hmsg, Htype, Hhost.
  change ("stateUpdate" =? "stateUpdate")%string with true. cbv iota.
  unfold Redis.Get. rewrite attempt_healthy by done. rewrite Hkv.
  cbn [Redis.val_of]. rewrite Hsr, Hsm.
  rewrite decide_True by done. rewrite Hm. cbn [default].
  unfold Redis.SetEX. cbn [rdb with_rdb]. rewrite attempt_healthy by done.
  unfold publishStateUpdate. rewrite Hm.
  unfold Redis.Publish. cbn [rdb with_rdb]. rewrite attempt_healthy by (cbn; done).
  cbn. by rewrite Hup.
Qed.

(** X23. From the host to the socket of a viewer. A [stateUpdate] of the
    host that is accepted is published on the topic of the session; when
    the published text, accepted as a state, is received on a
    subscription of the node and the pump of a connection of the session
    runs, over a network that works, the connection having an open
    socket and nothing queued, then the frame written on its socket,
    behind what was written before, is the [stateUpdate] that carries
    the published state and the reading of the clock at the
    broadcast. *)
Theorem host_update_reaches_the_wire (h p : nat) (ch c : ClientConnection) (s : Socket)
    (l : list nat) (message stateJson : string) (msg : ClientMsg) (st : RawMessage)
    (stored : Redis.entry) (stateFromRedis stateFromMsg : RedisState) (σ : world) :
  wf σ →
  heap σ !! h = Some ch → isHost ch = true → reading h σ = true →
  unmarshal message = Some msg → Type_ msg = "stateUpdate" →
  Redis.outages (rdb σ) = [] →
  Redis.kv (rdb σ) !! state_key (sessionID ch) = Some stored →
  unmarshal (Redis.value stored) = Some stateFromRedis →
  unmarshal (raw_bytes (State msg)) = Some stateFromMsg →
  (Timestamp stateFromMsg > Timestamp stateFromRedis)%Z →
  marshal (JRaw (State msg)) = Some stateJson →
  unmarshal stateJson = Some st →
  topic (sessionID ch) ∈ subscriptions σ →
  clients σ !! sessionID ch = Some l → p ∈ l →
  heap σ !! p = Some c → conn c = Some s → hung_up s = false →
  buf (send c) = [] → sendq (send c) = [] → p ∈ pumps σ →
  ∃ σ' m c',
    run wall [Message h message; TopicMessage (topic (sessionID ch)) stateJson;
              PumpStep p true] σ = Done σ' ∧
    Redis.published (rdb σ') =
      Redis.published (rdb σ) ++ [(topic (sessionID ch), stateJson)] ∧
    marshal (stateUpdate st (UnixMilli (wall (ticks σ)))) = Some m ∧
    heap σ' !! p = Some c' ∧
    conn c' = Some {| wire := wire s ++ [TextMessage m]; hung_up := false |}.
Proof.
  intros Hwf Hh Hhost Hread Hmsg Htype Hup Hkv Hsr Hsm Hts Hm Hst Hsub Hl Hpl Hc Hs
    Hnet Hbuf Hq Hpump.
  set (sid := sessionID ch) in *.
  pose proof (unmarshal_raw_valid stateJson st Hst) as Hraw.
  cbn [run step]. rewrite Hread.
  rewrite (handleClientMessage_accepts h ch message msg stored stateFromRedis stateFromMsg
             stateJson σ) by done.
  fold sid. cbn [bind]. set (σ1 := with_rdb _ σ).
  change (subscriptions σ1) with (subscriptions σ).
  rewrite bool_decide_eq_true_2 by done.
  unfold handleSessionUpdate, topic. rewrite slice_from_append. cbn [bind].
  rewrite Hst. set (σ2 := log _ σ1).
  assert (NoDup l) as Hnd by by eapply wf_nodup.
  assert (all_open l σ2) as Hopen.
  { intros q cq Hql Hcq. by eapply (wf_all_open σ sid l Hwf Hl q cq). }
  destruct (broadcastState_exact wall sid st l σ2 Hl Hnd Hopen Hraw) as (H' & -> & HH').
  cbn [bind].
  change (heap σ2) with (heap σ) in HH'. change (ticks σ2) with (ticks σ) in HH' |- *.
  set (n := length (filter (λ q, has_socket σ2 q) l)) in *.
  set (msgs := payloads wall st (ticks σ) n) in *.
  assert (0 < n) as Hn.
  { unfold n. assert (p ∈ filter (λ q, has_socket σ2 q) l) as Hin.
    { apply list_elem_of_filter. split; [| done]. unfold has_socket.
      change (heap σ2) with (heap σ). rewrite Hc, Hs. by apply bool_decide_pack. }
    destruct (filter _ l); [by apply elem_of_nil in Hin | simpl; lia]. }
  assert (∃ m, msgs !! 0 = Some m) as [m Hm0].
  { apply lookup_lt_is_Some. unfold msgs. by rewrite length_payloads. }
  pose proof (lookup_payloads wall st (ticks σ) n 0 m (stateUpdate_marshals st Hraw) Hm0)
    as Hm'. rewrite Nat.add_0_r in Hm'.
  assert (closed (send c) = false) as Hco by by eapply (wf_all_open σ sid l Hwf Hl p c).
  destruct (offered_buf msgs (send c) Hco) as (Hob & Hoq & _).
  rewrite Hbuf in Hob. cbn [length app] in Hob. rewrite Nat.sub_0_r in Hob.
  set (σ3 := with_ticks _ _).
  assert (heap σ3 !! p = Some (with_send (offered msgs (send c)) c)) as Hp3.
  { cbn. rewrite HH', decide_True, Hc by done. cbn. unfold served. by rewrite Hs. }
  cbn [step run].
  assert (pumps σ3 = pumps σ) as Epu.
  { cbn. unfold ensure_lock. by case_decide. }
  rewrite Epu, bool_decide_eq_true_2 by done.
  unfold writePump. rewrite Hp3. cbn [send with_send conn]. rewrite Hob, Hoq, Hq, Hs.
  destruct msgs as [|m0 msgs'] eqn:Emsgs; [done |]. injection Hm0 as ->.
  cbn [take]. unfold send_capacity. cbn [take].
  unfold WriteMessage. rewrite Hnet. cbn [orb negb bind].
  eexists _, m, _. split; [done |]. split_and!.
  - cbn. unfold ensure_lock. by case_decide.
  - done.
  - cbn. apply lookup_insert_eq.
  - done.
Qed.

End end_to_end.

Section growth.
Import Node.
Context `{!Marshal, !Unmarshal ClientMsg, !Unmarshal RedisState, !Unmarshal RawMessage}.
Variable wall : nat → Z.

Lemma keeps_all_refl (σ : world) : keeps_all σ σ.
Proof. by split_and!. Qed.

Lemma keeps_all_trans (σ1 σ2 σ3 : world) :
  keeps_all σ1 σ2 → keeps_all σ2 σ3 → keeps_all σ1 σ3.
Proof.
  intros (? & ? & ? & ?) (? & ? & ? & ?). split_and!; by etrans.
Qed.

Lemma keeps_all_heap (p : nat) (c : ClientConnection) (σ : world) :
  keeps_all σ (with_heap (<[p := c]> (heap σ)) σ).
Proof. split_and!; try done. cbn. apply dom_insert_subseteq. Qed.

Lemma keeps_all_clients (sid : string) (l : list nat) (σ : world) :
  keeps_all σ (with_clients (<[sid := l]> (clients σ)) σ).
Proof. split_and!; try done. cbn. apply dom_insert_subseteq. Qed.

Lemma keeps_all_lock (sid : string) (σ : world) : keeps_all σ (ensure_lock sid σ).
Proof.
  unfold ensure_lock. case_decide; [apply keeps_all_refl |].
  split_and!; try done. cbn. set_solver.
Qed.

Lemma keeps_all_subscribe (sid : string) (σ : world) :
  keeps_all σ (subscribeToSessionUpdates sid σ).
Proof. split_and!; try done. cbn. by apply prefix_app_r. Qed.

(** A change of the fields that [keeps_all] does not read. *)
Lemma keeps_all_same (σ σ' : world) :
  clients σ' = clients σ → client_lock σ' = client_lock σ → heap σ' = heap σ →
  subscriptions σ' = subscriptions σ → keeps_all σ σ'.
Proof. intros E1 E2 E3 E4. unfold keeps_all. by rewrite E1, E2, E3, E4. Qed.

Lemma try_send_keeps_all (sid : string) (p : nat) (c : ClientConnection) (m : string)
    (σ σ' : world) :
  try_send sid p c m σ = Done σ' → keeps_all σ σ'.
Proof.
  unfold try_send. destruct (offer m (send c)); intros [= <-].
  - apply keeps_all_heap.
  - by apply keeps_all_same.
Qed.

Lemma broadcast_inner_keeps_all (sid m : string) (todo : list nat) (σ σ' : world) :
  broadcast_inner sid m todo σ = Done σ' → keeps_all σ σ'.
Proof.
  revert σ. induction todo as [|p todo IH]; intros σ; simpl.
  { intros [= <-]. apply keeps_all_refl. }
  destruct (heap σ !! p) as [c|]; [| apply IH].
  destruct (conn c); [| apply IH].
  destruct (try_send sid p c m σ) as [σ1|] eqn:Hs; [| done]. cbn [bind].
  intros Hrest%IH. eapply keeps_all_trans; [by eapply try_send_keeps_all | done].
Qed.

Lemma broadcast_outer_keeps_all (sid : string) (st : RawMessage) (all todo : list nat)
    (σ σ' : world) :
  broadcast_outer wall sid st all todo σ = Done σ' → keeps_all σ σ'.
Proof.
  revert σ. induction todo as [|p todo IH]; intros σ; simpl.
  { intros [= <-]. apply keeps_all_refl. }
  destruct (heap σ !! p) as [c|]; [| apply IH].
  destruct (conn c); [| apply IH].
  destruct (marshal _) as [payload|]; [| intros [= <-]; by apply keeps_all_same].
  destruct (broadcast_inner sid payload all _) as [σ1|] eqn:Hin; [| done]. cbn [bind].
  intros Hrest%IH. apply broadcast_inner_keeps_all in Hin.
  eapply keeps_all_trans; [| exact Hrest].
  eapply keeps_all_trans; [| exact Hin]. by apply keeps_all_same.
Qed.

Lemma broadcastState_keeps_all (sid : string) (st : RawMessage) (σ σ' : world) :
  broadcastState wall sid st σ = Done σ' → keeps_all σ σ'.
Proof.
  unfold broadcastState. pose proof (keeps_all_lock sid σ) as Hl.
  destruct (clients (ensure_lock sid σ) !! sid) as [[|p l]|]; try by intros [= <-].
  intros Hb%broadcast_outer_keeps_all. by eapply keeps_all_trans.
Qed.

Lemma handleSessionUpdate_keeps_all (channel payload : string) (σ σ' : world) :
  handleSessionUpdate wall channel payload σ = Done σ' → keeps_all σ σ'.
Proof.
  unfold handleSessionUpdate. destruct (slice_from _ channel) as [sid|]; [| done].
  cbn [bind]. destruct (unmarshal payload) as [st|].
  - intros Hb%broadcastState_keeps_all.
    eapply keeps_all_trans; [| exact Hb]. by apply keeps_all_same.
  - intros [= <-]. by apply keeps_all_same.
Qed.

Lemma cleanupClient_keeps_all (p : nat) (σ σ' : world) :
  cleanupClient p σ = Done σ' → keeps_all σ σ'.
Proof.
  unfold cleanupClient. destruct (heap σ !! p) as [c|]; [| intros [= <-]; apply keeps_all_refl].
  destruct (sessionID c =? "")%string; [intros [= <-]; apply keeps_all_refl |].
  destruct (close (send c)) as [ch|]; [| done]. cbn [bind].
  set (σ0 := with_heap _ σ). set (σ1 := ensure_lock _ σ0).
  assert (keeps_all σ σ1) as H1.
  { eapply keeps_all_trans; [apply keeps_all_heap | apply keeps_all_lock]. }
  destruct (clients σ1 !! _) as [[|q l]|]; try by intros [= <-].
  destruct (index_of p (q :: l)); intros [= <-].
  - eapply keeps_all_trans; [exact H1 |].
    eapply keeps_all_trans; [apply keeps_all_heap |].
    eapply keeps_all_trans; [apply keeps_all_clients |]. by apply keeps_all_same.
  - eapply keeps_all_trans; [exact H1 |]. by apply keeps_all_same.
Qed.

Lemma writePump_keeps_all (p : nat) (netOk : bool) (σ σ' : world) :
  writePump p netOk σ = Done σ' → keeps_all σ σ'.
Proof.
  unfold writePump. destruct (heap σ !! p) as [c|]; [| done].
  destruct (buf (send c)) as [|m q].
  - destruct (closed (send c)); [| intros [= <-]; apply keeps_all_refl].
    destruct (conn c) as [s|]; [| done].
    destruct (WriteMessage _ _ _) as [err s']. intros [= <-].
    eapply keeps_all_trans; [apply keeps_all_heap | by apply keeps_all_same].
  - destruct (conn c) as [s|]; [| done].
    destruct (WriteMessage _ _ _) as [[] s']; intros [= <-].
    + eapply keeps_all_trans; [apply keeps_all_heap | by apply keeps_all_same].
    + apply keeps_all_heap.
Qed.

Lemma handleClientMessage_keeps_all (p : nat) (message : string) (σ σ' : world) :
  handleClientMessage p message σ = Done σ' → keeps_all σ σ'.
Proof.
  unfold handleClientMessage. destruct (heap σ !! p) as [c|]; [| done].
  destruct (unmarshal message) as [msg|]; [| intros [= <-]; by apply keeps_all_same].
  destruct (Type_ msg =? "stateUpdate")%string.
  { destruct (isHost c); [| intros [= <-]; apply keeps_all_refl].
    destruct (Redis.Get _ _) as [val db].
    destruct (unmarshal (Redis.val_of val)) as [s1|];
      [| intros [= <-]; apply keeps_all_same; by destruct val].
    destruct (unmarshal (raw_bytes (State msg))) as [s2|];
      [| intros [= <-]; apply keeps_all_same; by destruct val].
    case_decide; [| intros [= <-]; apply keeps_all_same; by destruct val].
    destruct (Redis.SetEX _ _ _ _) as [err db'].
    intros [= <-]. unfold publishStateUpdate.
    destruct (marshal (JRaw (State msg))) as [payload|].
    - destruct (Redis.Publish _ _ _) as [[] db''];
        apply keeps_all_same; by destruct val, err.
    - apply keeps_all_same; by destruct val, err. }
  destruct (Type_ msg =? "videoMetadata")%string.
  { destruct (marshal _) as [payload|]; [| intros [= <-]; by apply keeps_all_same].
    destruct (blocking_send _ _) as [ch|]; [| done]. intros [= <-]. apply keeps_all_heap. }
  destruct (Type_ msg =? "heartbeat")%string; [| intros [= <-]; apply keeps_all_refl].
  destruct (conn c) as [s|]; [| done].
  destruct (marshal _) as [data|]; [| intros [= <-]; apply keeps_all_refl].
  destruct (WriteMessage _ _ _) as [err s']. intros [= <-]. apply keeps_all_heap.
Qed.

Lemma handleWebSocket_keeps_all (sid isHostParam : string) (upgrade : bool)
    (σ σ' : world) :
  handleWebSocket wall sid isHostParam upgrade σ = Done σ' → keeps_all σ σ'.
Proof.
  unfold handleWebSocket. destruct (sid =? "")%string; [intros [= <-]; apply keeps_all_refl |].
  destruct upgrade; cbn [negb]; [| intros [= <-]; by apply keeps_all_same].
  set (p := fresh (dom (heap σ))).
  set (c := {| conn := _; sessionID := sid; isHost := _; send := make_chan |}).
  set (σa := with_heap (<[p := c]> (heap σ)) σ).
  set (σb := with_pumps _ σa). set (σc := ensure_lock sid σb).
  set (σd := with_clients _ σc). set (σe := with_numClients _ σd).
  set (σr := subscribeToSessionUpdates sid σe).
  assert (keeps_all σ σr) as Hr.
  { eapply keeps_all_trans; [apply keeps_all_heap |]. fold σa.
    eapply keeps_all_trans; [apply (keeps_all_same σa σb); done |].
    eapply keeps_all_trans; [apply keeps_all_lock |]. fold σc.
    eapply keeps_all_trans; [apply keeps_all_clients |]. fold σd.
    eapply keeps_all_trans; [apply (keeps_all_same σd σe); done |].
    apply keeps_all_subscribe. }
  clearbody σr. clear σa σb σc σd σe.
  destruct (negb (isHostParam =? "true")%string);
    [| intros [= <-]; eapply keeps_all_trans; [exact Hr | by apply keeps_all_same]].
  cbn [conn c].
  destruct (Redis.Get _ _) as [val db].
  set (σg := match val with
             | Redis.Ok _ => with_rdb db σr
             | Redis.Nil => log ("Invalid Session key " +:+ sid) (with_rdb db σr)
             | Redis.Err => log "Error Synchronizing" (with_rdb db σr)
             end).
  assert (keeps_all σ σg) as Hg.
  { eapply keeps_all_trans; [exact Hr |]. apply keeps_all_same; unfold σg; by destruct val. }
  clearbody σg.
  destruct (unmarshal (Redis.val_of val)) as [st|].
  2:{ intros Hc%cleanupClient_keeps_all. eapply keeps_all_trans; [exact Hg |].
      eapply keeps_all_trans; [| exact Hc]. by apply keeps_all_same. }
  unfold now_UnixMilli. destruct (marshal _) as [payload|].
  2:{ intros Hc%cleanupClient_keeps_all. eapply keeps_all_trans; [exact Hg |].
      eapply keeps_all_trans; [| exact Hc]. by apply keeps_all_same. }
  destruct (try_send _ _ _ _ _) as [σ1|] eqn:Hs; [| done]. cbn [bind].
  intros [= <-]. apply try_send_keeps_all in Hs.
  eapply keeps_all_trans; [exact Hg |].
  eapply keeps_all_trans; [| by apply (keeps_all_same σ1)].
  eapply keeps_all_trans; [| exact Hs]. by apply keeps_all_same.
Qed.

Lemma step_keeps_all (e : event) (σ σ' : world) :
  step wall e σ = Done σ' → keeps_all σ σ'.
Proof.
  destruct e as [sid isHostParam upgrade|p message|p|ch payload|p netOk]; cbn [step].
  - apply handleWebSocket_keeps_all.
  - destruct (reading p σ); [apply handleClientMessage_keeps_all |].
    intros [= <-]. apply keeps_all_refl.
  - destruct (reading p σ); [| intros [= <-]; apply keeps_all_refl].
    intros Hc%cleanupClient_keeps_all.
    eapply keeps_all_trans; [| exact Hc]. by apply keeps_all_same.
  - case_bool_decide; [apply handleSessionUpdate_keeps_all |].
    intros [= <-]. apply keeps_all_refl.
  - case_bool_decide; [apply writePump_keeps_all |].
    intros [= <-]. apply keeps_all_refl.
Qed.

(** X25. The node releases nothing. Over every run, every session
    bucket, every session lock, every connection record and every
    subscription that the node held at the start is still held at the
    end: buckets that have become empty, the locks and the records of
    connections that have left, and the subscriptions of sessions
    without viewers are all kept. *)
Theorem node_never_releases (evs : list event) (σ σ' : world) :
  run wall evs σ = Done σ' → keeps_all σ σ'.
Proof.
  revert σ. induction evs as [|e evs IH]; intros σ; cbn [run].
  { intros [= <-]. apply keeps_all_refl. }
  destruct (step wall e σ) as [σ1|] eqn:Hstep; [| done]. cbn [bind].
  intros Hrest%IH. apply step_keeps_all in Hstep. by eapply keeps_all_trans.
Qed.

(** X26. A message received on the topic of a session reaches no queue
    when its payload is not accepted as a state, or when the session has
    no bucket or an empty bucket on this node: the connections, the
    buckets, the keyspace and the counter are untouched, and the clock
    is not read. *)
Theorem handleSessionUpdate_without_receivers (sid payload : string) (σ : world) :
  unmarshal (A := RawMessage) payload = None ∨
  clients σ !! sid = None ∨ clients σ !! sid = Some [] →
  ∃ σ', handleSessionUpdate wall (topic sid) payload σ = Done σ' ∧
        heap σ' = heap σ ∧ clients σ' = clients σ ∧ rdb σ' = rdb σ ∧
        ticks σ' = ticks σ ∧ numClients σ' = numClients σ.
Proof.
  intros Hcase. unfold handleSessionUpdate, topic. rewrite slice_from_append. cbn [bind].
  destruct (unmarshal payload) as [st|] eqn:Hst; [| by eexists].
  destruct Hcase as [?|Hcl]; [done |].
  unfold broadcastState.
  set (σ1 := ensure_lock sid _).
  assert (clients σ1 = clients σ ∧ heap σ1 = heap σ ∧ rdb σ1 = rdb σ ∧ ticks σ1 = ticks σ ∧
          numClients σ1 = numClients σ) as (Ecl & ? & ? & ? & ?).
  { unfold σ1, ensure_lock. by case_decide. }
  rewrite Ecl. destruct Hcl as [-> | ->]; by eexists.
Qed.

End growth.

Section reports.
Import Node.
Context `{!Marshal, !Unmarshal ClientMsg, !Unmarshal RedisState, !Unmarshal RawMessage,
          !Unmarshal Director.StreamingServer}.
Variable wall : nat → Z.

(** X24. The load that the node reports is the number of its
    connections. After a sequence of events short enough for the counter
    not to wrap, [handleStatus] answers with the number of connections
    whose read loop runs as [currentLoad]; and when the heartbeat that
    the node marshals decodes at the director with the ID and the load
    that were sent, and the node is registered, one tick of
    [sendHeartbeats] that gets through leaves the node unchanged and
    sets the load of its registry entry to this number, its status to
    [active] and its last ping to the reading of the director's
    clock. *)
Theorem heartbeat_reports_connection_count (cfg : Config) (db : Redis.t)
    (evs : list event) (σ : world) (now now' : Z)
    (servers : gmap string Director.StreamingServer) (body : string)
    (hb existing : Director.StreamingServer) :
  run wall evs (boot db) = Done σ →
  (Z.of_nat (length evs) < 2 ^ 63)%Z →
  marshal (descriptor cfg (Z.of_nat (size (loops σ))) (Unix now)) = Some body →
  unmarshal body = Some hb →
  Director.ID hb = serverID cfg →
  Director.CurrentLoad hb = Z.of_nat (size (loops σ)) →
  servers !! serverID cfg = Some existing →
  handleStatus cfg now σ =
    (200%Z, JObject [("id", JString (serverID cfg));
                     ("url", JString (serverURL cfg));
                     ("capacity", JInt 100);
                     ("currentLoad", JInt (Z.of_nat (size (loops σ))));
                     ("status", JString "active");
                     ("lastPing", JInt (Unix now))]) ∧
  Cluster.sendHeartbeats_tick cfg now true now' σ servers =
    (σ, <[serverID cfg :=
            Director.with_heartbeat existing (Z.of_nat (size (loops σ))) (Unix now')]>
          servers).
Proof.
  intros Hrun Hlen Hbody Hhb Hid Hload Hex.
  destruct (run_wf wall evs (boot db) (wf_boot db)) as (σ0 & Hrun0 & Hwf & _ & _ & Hnum).
  rewrite Hrun in Hrun0. injection Hrun0 as <-.
  assert (numClients σ = Z.of_nat (size (loops σ))) as Hcount.
  { rewrite <- (wf_count σ Hwf). apply Hnum; rewrite total_clients_boot; [done | simpl; lia]. }
  split.
  - unfold handleStatus. by rewrite Hcount.
  - unfold Cluster.sendHeartbeats_tick. rewrite Hcount, Hbody. cbn [negb].
    unfold Director.handleHeartbeat. rewrite Hhb, Hid, Hex. cbn [snd]. by rewrite Hload.
Qed.

End reports.

(** * The further properties in the scenario *)

Section more_scenarios.
Import Node Scenario MiniJson.

(** X1 in the scenario: the host validates the session that was just
    created for it. *)
Lemma createSession_then_validateSession_witness :
  let '(created, db1) := Director.createSession "s" "h" 1000000000000 Redis.empty in
  ∃ resp,
    Director.validateSession [node_a; node_b]
      {| Director.path := Director.validate_path "s"; Director.hostToken_param := "h" |} db1
    = Done (resp, db1).
Proof.
  pose proof (createSession_then_validateSession [node_a; node_b] "s" "h" "h"
                1000000000000 Redis.empty eq_refl eq_refl) as Hw.
  revert Hw.
  destruct (Director.createSession "s" "h" 1000000000000 Redis.empty) as [created db1].
  intros [_ Hw]. eexists. exact Hw.
Defined.

(** X3 in the scenario: three characters stand before the question
    mark. *)
Lemma validateSession_question_mark_witness :
  Director.validateSession [node_a]
    {| Director.path := Director.validate_path ("abc" +:+ "?" +:+ "x");
       Director.hostToken_param := "" |} db
  = Panic "slice bounds out of range".
Proof.
  rewrite (validateSession_question_mark [node_a] "abc" "x" "" db eq_refl).
  destruct (decide (String.length "abc" < String.length "/validate")) as [_|Hn];
    [reflexivity |].
  exfalso. apply Hn. cbn. lia.
Defined.

(** X4 in the scenario: the keyspace is down when the session is looked
    up. *)
Lemma validateSession_keyspace_errors_witness :
  ∃ db',
    Director.validateSession [node_a]
      {| Director.path := Director.validate_path "s"; Director.hostToken_param := "h" |}
      (Redis.Db (Redis.kv db) [] [true])
    = Done (Director.respondError 500 "internal_server_error", db').
Proof.
  apply (proj1 (validateSession_keyspace_errors [node_a] "s" "h"
                  (Redis.Db (Redis.kv db) [] [true]) eq_refl)).
  reflexivity.
Defined.


(** X9 in the scenario: the node [a] sends a heartbeat at the time
    1030 s, the cleanup runs at the time 1090 s. *)
Lemma heartbeat_survives_cleanup_witness :
  ∃ s, Director.cleanupInactiveServers_tick 1090000000000
         (Director.handleHeartbeat heartbeat_body 1030000000000 registry).2 !! "a" = Some s ∧
       Director.CurrentLoad s = 2%Z.
Proof.
  destruct (heartbeat_survives_cleanup heartbeat_body heartbeat 1030000000000
              1090000000000 registry) as (s & Hs & _ & Hload & _).
  - vm_compute. reflexivity.
  - exists node_a. vm_compute. reflexivity.
  - vm_compute. split; discriminate.
  - exists s. split; [exact Hs | exact Hload].
Defined.

(** X10 in the scenario: the node [a], last heard of at the time 1000 s,
    is removed at the time 2000 s; its next heartbeat does not bring it
    back. *)
Lemma silent_node_stays_removed_witness :
  Director.registry_run
    [Director.Heartbeat heartbeat_body 2030000000000; Director.Cleanup 2060000000000]
    (Director.cleanupInactiveServers_tick 2000000000000 registry) !! "a" = None.
Proof.
  apply (silent_node_stays_removed "a" node_a 2000000000000 registry).
  - vm_compute. reflexivity.
  - vm_compute. split; reflexivity.
  - intros b n1 n2 Hin.
    apply elem_of_cons in Hin as [Heq|Hin]; [discriminate |].
    apply elem_of_cons in Hin as [Heq|Hin]; [discriminate |].
    by apply elem_of_nil in Hin.
Defined.

(** X11 in the scenario: the registration of the node [a]. *)
Lemma registry_keys_are_ids_witness :
  Director.ID (Director.with_registration registration 1000000000000 1000) = "a".
Proof.
  apply (registry_keys_are_ids
           [Director.Register registration_body 1000000000000 1000000000000]).
  vm_compute. reflexivity.
Defined.


(** X20 in the scenario: a participant joins the session [s] on a node
    that has just started. *)
Lemma handleWebSocket_participant_gets_state_witness :
  ∃ σ' m,
    handleWebSocket wall "s" "false" true (boot db) = Done σ' ∧
    marshal (stateUpdate (Raw (state_text true 0 1000)) (UnixMilli (wall 0))) = Some m.
Proof.
  destruct (handleWebSocket_participant_gets_state wall "s" "false"
              (Redis.Entry (state_text true 0 1000) 86400)
              (Raw (state_text true 0 1000)) (boot db))
    as (σ' & m & Hrun & Hm & _).
  - discriminate.
  - discriminate.
  - vm_compute. reflexivity.
  - vm_compute. reflexivity.
  - vm_compute. reflexivity.
  - exists σ', m. split; [exact Hrun | exact Hm].
Defined.

(** X21 in the scenario: a participant asks for a session that the
    keyspace does not know. *)
Lemma handleWebSocket_unknown_session_dropped_witness :
  ∃ σ', handleWebSocket wall "zz" "false" true (boot db) = Done σ' ∧
        numClients σ' = 0%Z ∧ subscriptions σ' = [topic "zz"].
Proof.
  destruct (handleWebSocket_unknown_session_dropped wall "zz" "false" (boot db))
    as (σ' & Hrun & _ & _ & _ & _ & Hn & Hs & _).
  - apply wf_boot.
  - discriminate.
  - discriminate.
  - vm_compute. reflexivity.
  - vm_compute. reflexivity.
  - vm_compute. split; [discriminate | reflexivity].
  - exists σ'. split; [exact Hrun |]. split; [exact Hn | exact Hs].
Defined.

(** X14 in the scenario: the socket of the participant fails. *)
Lemma ReadError_removes_connection_witness :
  ∃ σ', step wall (ReadError 1) two_viewers = Done σ' ∧
        numClients σ' = wrap64 (numClients two_viewers - 1).
Proof.
  destruct (ReadError_removes_connection wall 1 two_viewers)
    as (c & l & σ' & _ & _ & _ & Hstep & _ & _ & Hn & _).
  - exact two_viewers_wf.
  - vm_compute. reflexivity.
  - exists σ'. split; [exact Hstep | exact Hn].
Defined.

(** X15 in the scenario: the socket of the participant fails, then its
    pump runs. *)
Lemma cleaned_up_connection_is_silent_witness :
  ∃ σ', run wall [ReadError 1; PumpStep 1 true] two_viewers = Done σ' ∧ 1 ∉ pumps σ'.
Proof.
  destruct (cleaned_up_connection_is_silent wall 1 true two_viewers)
    as (c & s & σ' & _ & _ & Hrun & Hpump & _).
  - exact two_viewers_wf.
  - vm_compute. reflexivity.
  - exists σ'. split; [exact Hrun | exact Hpump].
Defined.

(** X16 in the scenario: the pump of the participant writes the frame
    that was queued when it joined. *)
Lemma writePump_delivers_in_order_witness :
  run wall [PumpStep 1 true] two_viewers =
    Done (with_heap
            (<[1 := {| conn := Some {| wire := [TextMessage initial_frame];
                                       hung_up := false |};
                       sessionID := "s"; isHost := false;
                       send := {| buf := []; closed := false; sendq := [] |} |}]>
               (heap two_viewers)) two_viewers).
Proof.
  assert (heap two_viewers !! 1 = Some participant_connection) as Hc
    by (vm_compute; reflexivity).
  assert (1 ∈ pumps two_viewers) as Hpump.
  { apply (bool_decide_unpack (1 ∈ pumps two_viewers)). vm_compute. exact I. }
  exact (writePump_delivers_in_order wall 1 two_viewers participant_connection
           {| wire := []; hung_up := false |} Hc eq_refl eq_refl eq_refl Hpump).
Defined.

(** X17 in the scenario: the network refuses the first frame of the
    participant, then works again. *)
Lemma writePump_error_ends_delivery_witness :
  ∃ σ', run wall [PumpStep 1 false; PumpStep 1 true] two_viewers = Done σ' ∧
        clients σ' = clients two_viewers ∧ numClients σ' = numClients two_viewers.
Proof.
  assert (heap two_viewers !! 1 = Some participant_connection) as Hc
    by (vm_compute; reflexivity).
  assert (1 ∈ pumps two_viewers) as Hpump.
  { apply (bool_decide_unpack (1 ∈ pumps two_viewers)). vm_compute. exact I. }
  destruct (writePump_error_ends_delivery wall 1 two_viewers
              participant_connection {| wire := []; hung_up := false |} initial_frame []
              [true] Hc eq_refl eq_refl eq_refl Hpump)
    as (σ' & Hrun & _ & _ & Hcl & _ & Hn & _).
  exists σ'. split; [exact Hrun |]. split; [exact Hcl | exact Hn].
Defined.

(** X19 in the scenario: the host asks for the video metadata; its queue
    is empty. *)
Lemma videoMetadata_reply_is_queued_or_parked_witness :
  handleClientMessage 0 metadata_request two_viewers =
    Done (with_heap
            (<[0 := with_send {| buf := [metadata_reply]; closed := false; sendq := [] |}
                      host_connection]> (heap two_viewers)) two_viewers).
Proof.
  pose proof (videoMetadata_reply_is_queued_or_parked 0 host_connection metadata_request
                metadata_reply {| Type_ := "videoMetadata"; State := Raw "" |} two_viewers)
    as Hw.
  destruct (decide (length (buf (send host_connection)) < send_capacity)) as [_|Hn] in Hw.
  - apply Hw; try reflexivity; vm_compute; reflexivity.
  - exfalso. apply Hn. vm_compute. lia.
Defined.

(** X18 in the scenario: the participant sends the update of the
    host. *)
Lemma keyspace_written_only_by_host_update_witness :
  Redis.kv (rdb (world_of (step wall (Message 1 host_update) two_viewers)))
  = Redis.kv (rdb two_viewers).
Proof.
  refine (proj1 (keyspace_written_only_by_host_update wall (Message 1 host_update)
                   two_viewers (world_of (step wall (Message 1 host_update) two_viewers))
                   _ _)).
  - vm_compute. reflexivity.
  - intros p message c msg [= <- <-] Hc _ _. vm_compute in Hc. by injection Hc as <-.
Defined.

(** X22 in the scenario: a client declares itself the host of [s] and
    starts to play. *)
Lemma host_role_is_self_declared_witness :
  ∃ σ' stateJson,
    run wall [Connect "s" "true" true;
              Message (fresh (dom (heap (boot db)))) host_update] (boot db) = Done σ' ∧
    Redis.published (rdb σ') = [(topic "s", stateJson)].
Proof.
  destruct (host_role_is_self_declared wall "s" host_update
              {| Type_ := "stateUpdate"; State := Raw (state_text false 10 2000) |}
              (Redis.Entry (state_text true 0 1000) 86400)
              {| Paused := true; CurrentTime := Fin 0; PlaybackRate := Fin 1;
                 Timestamp := 1000 |}
              {| Paused := false; CurrentTime := Fin 10; PlaybackRate := Fin 1;
                 Timestamp := 2000 |}
              (boot db)) as (σ' & stateJson & Hrun & _ & _ & _ & Hpub);
    try (vm_compute; reflexivity).
  - discriminate.
  - exists σ', stateJson. split; [exact Hrun | exact Hpub].
Defined.

(** X24 in the scenario: the node [a] holds the two viewers when its
    heartbeat is due. *)
Lemma heartbeat_reports_connection_count_witness :
  Cluster.sendHeartbeats_tick cfg 1030000000000 true 1030000000000 two_viewers registry
  = (two_viewers, <["a" := Director.with_heartbeat node_a 2 1030]> registry).
Proof.
  assert (run wall joins (boot db) = Done two_viewers) as Hrun by (vm_compute; reflexivity).
  assert (Z.of_nat (length joins) < 2 ^ 63)%Z as Hlen by (vm_compute; reflexivity).
  assert (marshal (descriptor cfg (Z.of_nat (size (loops two_viewers)))
                     (Unix 1030000000000)) = Some heartbeat_body) as Hbody
    by (vm_compute; reflexivity).
  assert (unmarshal heartbeat_body = Some heartbeat) as Hdec by (vm_compute; reflexivity).
  assert (Director.CurrentLoad heartbeat = Z.of_nat (size (loops two_viewers))) as Hload
    by (vm_compute; reflexivity).
  assert (registry !! serverID cfg = Some node_a) as Hex by (vm_compute; reflexivity).
  rewrite (proj2 (heartbeat_reports_connection_count wall cfg db joins two_viewers
                    1030000000000 1030000000000 registry heartbeat_body heartbeat node_a
                    Hrun Hlen Hbody Hdec eq_refl Hload Hex)).
  vm_compute. reflexivity.
Defined.

Lemma drained_wf : wf drained.
Proof.
  destruct (run_wf wall (joins ++ [PumpStep 1 true]) (boot db) (wf_boot db))
    as (σ & Hrun & Hwf & _).
  unfold drained. rewrite Hrun. exact Hwf.
Qed.

(** X23 in the scenario: the host starts to play, and the update reaches
    the participant, whose queue was empty. *)
Lemma host_update_reaches_the_wire_witness :
  ∃ σ' m c',
    run wall [Message 0 host_update; TopicMessage (topic "s") (state_text false 10 2000);
              PumpStep 1 true] drained = Done σ' ∧
    marshal (stateUpdate (Raw (state_text false 10 2000)) (UnixMilli (wall 1))) = Some m ∧
    heap σ' !! 1 = Some c' ∧
    conn c' = Some {| wire := [TextMessage initial_frame; TextMessage m];
                      hung_up := false |}.
Proof.
  assert (topic "s" ∈ subscriptions drained) as Hsub.
  { apply (bool_decide_unpack (topic "s" ∈ subscriptions drained)). vm_compute. exact I. }
  assert (1 ∈ pumps drained) as Hpump.
  { apply (bool_decide_unpack (1 ∈ pumps drained)). vm_compute. exact I. }
  destruct (host_update_reaches_the_wire wall 0 1 host_connection participant_drained
              {| wire := [TextMessage initial_frame]; hung_up := false |} [0; 1]
              host_update (state_text false 10 2000)
              {| Type_ := "stateUpdate"; State := Raw (state_text false 10 2000) |}
              (Raw (state_text false 10 2000))
              (Redis.Entry (state_text true 0 1000) 86400)
              {| Paused := true; CurrentTime := Fin 0; PlaybackRate := Fin 1;
                 Timestamp := 1000 |}
              {| Paused := false; CurrentTime := Fin 10; PlaybackRate := Fin 1;
                 Timestamp := 2000 |}
              drained drained_wf)
    as (σ' & m & c' & Hrun & _ & Hm & Hc' & Hconn);
    try exact Hsub; try exact Hpump; try (vm_compute; reflexivity).
  - right. left.
  - exists σ', m, c'. split; [exact Hrun |]. split; [exact Hm |].
    split; [exact Hc' | exact Hconn].
Defined.

(** X25 in the scenario: the host and the participant attach, then the
    participant leaves. *)
Lemma node_never_releases_witness :
  keeps_all two_viewers (world_of (run wall [ReadError 1] two_viewers)).
Proof.
  apply (node_never_releases wall [ReadError 1] two_viewers).
  vm_compute. reflexivity.
Defined.

(** X26 in the scenario: a text that is not JSON arrives on the topic of
    [s]. *)
Lemma handleSessionUpdate_without_receivers_witness :
  ∃ σ', handleSessionUpdate wall (topic "s") "play" two_viewers = Done σ' ∧
        heap σ' = heap two_viewers.
Proof.
  destruct (handleSessionUpdate_without_receivers wall "s" "play" two_viewers)
    as (σ' & Hrun & Hheap & _).
  - left. vm_compute. reflexivity.
  - exists σ'. split; [exact Hrun | exact Hheap].
Defined.

(** X27 in the scenario: the node [a] registers at the time 1000 s and
    is removed at the time 2000 s; its heartbeat at the time 2030 s does
    not make it selectable. *)
Lemma removed_node_is_never_selected_witness :
  Director.getLeastLoadedServer
    (map_to_list
       (Director.registry_run [Director.Heartbeat heartbeat_body 2030000000000]
          (Director.cleanupInactiveServers_tick 2000000000000
             (Director.registry_run
                [Director.Register registration_body 1000000000000 1000000000000]
                ∅)))).*2
  ≠ Some registration.
Proof.
  intros Hsel.
  refine (removed_node_is_never_selected
            [Director.Register registration_body 1000000000000 1000000000000]
            [Director.Heartbeat heartbeat_body 2030000000000] "a"
            (Director.with_registration registration 1000000000000 1000)
            2000000000000 _ _ _ _ _ registration Hsel _).
  - vm_compute. reflexivity.
  - vm_compute. split; reflexivity.
  - intros b n1 n2 Hin.
    apply elem_of_cons in Hin as [Heq|Hin]; [discriminate |].
    by apply elem_of_nil in Hin.
  - reflexivity.
  - reflexivity.
Defined.

(** X28 in the scenario: a client declares itself the host of a session
    that the keyspace does not know, and sends an update. *)
Lemma handleClientMessage_without_stored_state_witness :
  ∃ σ', handleClientMessage 0 host_update
          (world_of (run wall [Connect "zz" "true" true] (boot db))) = Done σ' ∧
        Redis.published (rdb σ') = [].
Proof.
  destruct (handleClientMessage_without_stored_state 0
              {| conn := Some {| wire := []; hung_up := false |}; sessionID := "zz";
                 isHost := true; send := make_chan |}
              host_update
              {| Type_ := "stateUpdate"; State := Raw (state_text false 10 2000) |}
              (world_of (run wall [Connect "zz" "true" true] (boot db))))
    as (σ' & Hrun & _ & Hpub & _); try (vm_compute; reflexivity).
  exists σ'. split; [exact Hrun |]. rewrite Hpub. vm_compute. reflexivity.
Defined.

End more_scenarios.
